(** * Edge memory subsystem: allocators of EdgeMemory.h / EdgeMemory.cpp

    A shallow embedding of the three allocator strategies of the Edge core
    (SystemAllocator, LinearAllocator, PoolAllocator), of the statistics
    they keep and of the assertion macro they report through, followed by
    the properties of the specification that concern them.

    Conventions of the embedding.
    - [size_t] and [uintptr_t] are 64 bits wide (EdgeCore.h refuses every
      architecture but x64 and ARM64); a value is a [Z] in [0, 2^64) and
      every arithmetic operation of the source is followed by
      [to_size_t], its reduction modulo 2^64.
    - A pointer is its address, a [Z]; [nullptr] is 0.
    - Memory that the allocators read and write through raw pointers is an
      explicit store passed in and out of each operation.
    - The platform primitives ([_aligned_malloc] / [aligned_alloc]) are not
      part of the repository: the address they return is an argument of
      the operation that calls them. *)

From Stdlib Require Import ZArith Lia String List.
From stdpp Require Import base gmap list.

Local Open Scope Z_scope.

(** ** Machine integers *)

Definition size_t_modulus : Z := 2 ^ 64.

Definition to_size_t (x : Z) : Z := x mod size_t_modulus.

(** [~x] on a [size_t]. *)
Definition size_t_not (x : Z) : Z := to_size_t (Z.lnot x).

Definition is_size_t (x : Z) : Prop := 0 <= x < size_t_modulus.

(** A power of two that fits a [size_t]. *)
Definition power_of_two (a : Z) : Prop := exists k, 0 <= k < 64 /\ a = 2 ^ k.

Definition nullptr : Z := 0.

(** ** EdgeAssert.h / EdgeAssert.cpp *)

Inductive AssertLevel := Info | Warning | Error | Fatal.

Record AssertInfo := {
  condition : string;
  message : string;
  level : AssertLevel
}.

(** What one failed assertion leaves behind: the record handed to
    [AssertHandler::HandleAssert] and whether [DebugBreak] was called. *)
Record Report := {
  info : AssertInfo;
  debug_break : bool
}.

Section Build.
(** The build configuration: [EDGE_DEBUG] is 1 in debug builds and 0
    otherwise. *)
Variable EDGE_DEBUG : bool.

(** [AssertHandler::DefaultHandler]: the decision to break. A callback
    registered with the handler is called first and has no say in it. *)
Definition DefaultHandler (i : AssertInfo) : bool :=
  match level i with
  | Fatal => true
  | Error => EDGE_DEBUG
  | Warning | Info => false
  end.

(** [EDGE_ASSERT_IMPL]. *)
Definition EDGE_ASSERT_IMPL (cond : bool) (text : string) (lvl : AssertLevel)
    (msg : string) : list Report :=
  if cond then []
  else
    let i := {| condition := text; message := msg; level := lvl |} in
    [ {| info := i; debug_break := DefaultHandler i |} ].

(** [EDGE_ASSERT]: compiled out unless [EDGE_DEBUG]. A report with
    [debug_break] set stands for a call of [DebugBreak()], which is
    [__debugbreak()] under MSVC, [__builtin_trap()] under Clang and GCC
    and [abort()] elsewhere. The embedding records the call and follows
    the statements after the macro: that is what runs in a release build,
    and what runs in a debug build when a debugger resumes from
    [__debugbreak()]. Where [DebugBreak()] does not return, the run ends
    at the first such report, and the state an operation returns next to
    it is never reached. *)
Definition EDGE_ASSERT (cond : bool) (text msg : string) : list Report :=
  if EDGE_DEBUG then EDGE_ASSERT_IMPL cond text Error msg else [].
End Build.

(** ** EdgeMemory.h: constants, tags, statistics, alignment utilities *)

Definition EDGE_SIMD_ALIGNMENT : Z := 16.
Definition EDGE_CACHE_LINE_SIZE : Z := 64.

(** [enum class MemoryTag : uint8_t]. A tag is kept as the value of its
    underlying type, the form in which the allocators use it
    ([static_cast<size_t>(tag)]); the enumerators count up from
    [NoTag = 0] and [COUNT] is the 27th. *)
Module MemoryTag.
Definition t := nat.
Definition NoTag : t := 0%nat.
Definition Foreground : t := 1%nat.
Definition Background : t := 2%nat.
Definition Interior : t := 3%nat.
Definition Animation : t := 4%nat.
Definition AnimationLocomotion : t := 5%nat.
Definition AnimationMotionMatching : t := 6%nat.
Definition Particles : t := 7%nat.
Definition Actors : t := 8%nat.
Definition AudioGlobal : t := 9%nat.
Definition AudioSFX : t := 10%nat.
Definition AudioMusic : t := 11%nat.
Definition AudioSpeech : t := 12%nat.
Definition AudioVox : t := 13%nat.
Definition AI : t := 14%nat.
Definition AITask : t := 15%nat.
Definition AIBrain : t := 16%nat.
Definition GUI : t := 17%nat.
Definition Physics : t := 18%nat.
Definition Cinematic : t := 19%nat.
Definition Lighting : t := 20%nat.
Definition Gameplay : t := 21%nat.
Definition Script : t := 22%nat.
Definition Net : t := 23%nat.
Definition Debug : t := 24%nat.
Definition Temp : t := 25%nat.
Definition COUNT : t := 26%nat.
End MemoryTag.

Record MemoryStats := {
  totalAllocated : Z;
  totalFreed : Z;
  currentUsage : Z;
  peakUsage : Z;
  allocationCount : Z;
  freeCount : Z
}.

(** [memset(&stats, 0, sizeof(MemoryStats))] and the default constructor. *)
Definition zero_stats : MemoryStats :=
  {| totalAllocated := 0; totalFreed := 0; currentUsage := 0;
     peakUsage := 0; allocationCount := 0; freeCount := 0 |}.

(** [Memory::AlignUp]: [(size + alignment - 1) & ~(alignment - 1)]. *)
Definition AlignUp (size alignment : Z) : Z :=
  Z.land (to_size_t (to_size_t (size + alignment) - 1))
         (size_t_not (to_size_t (alignment - 1))).

(** [Memory::AlignPointer]. *)
Definition AlignPointer (ptr alignment : Z) : Z :=
  Z.land (to_size_t (to_size_t (ptr + alignment) - 1))
         (size_t_not (to_size_t (alignment - 1))).

(** The statistics statements shared by the three strategies. Each
    successful [Allocate] ends with the same five statements
    (EdgeMemory.cpp lines 206-212, 355-361, 439-445): *)
Definition on_allocation (s : MemoryStats) (size : Z) : MemoryStats :=
  let usage := to_size_t (currentUsage s + size) in
  {| totalAllocated := to_size_t (totalAllocated s + size);
     totalFreed := totalFreed s;
     currentUsage := usage;
     peakUsage := if usage >? peakUsage s then usage else peakUsage s;
     allocationCount := to_size_t (allocationCount s + 1);
     freeCount := freeCount s |}.

(** each accepted [Free] with these three (lines 240-242, 467-469; the
    per-tag entry of lines 247-249 is updated likewise): *)
Definition on_deallocation (s : MemoryStats) (size : Z) : MemoryStats :=
  {| totalAllocated := totalAllocated s;
     totalFreed := to_size_t (totalFreed s + size);
     currentUsage := to_size_t (currentUsage s - size);
     peakUsage := peakUsage s;
     allocationCount := allocationCount s;
     freeCount := to_size_t (freeCount s + 1) |}.

(** and the bulk [Reset] of the linear and pool allocators with these
    (lines 378-380, 491-493). *)
Definition on_reset (s : MemoryStats) : MemoryStats :=
  {| totalAllocated := totalAllocated s;
     totalFreed := to_size_t (totalFreed s + currentUsage s);
     currentUsage := 0;
     peakUsage := peakUsage s;
     allocationCount := allocationCount s;
     freeCount := to_size_t (freeCount s + allocationCount s) |}.

(** The invariant of the data model, on [size_t] values. *)
Definition stats_consistent (s : MemoryStats) : Prop :=
  currentUsage s = to_size_t (totalAllocated s - totalFreed s).

(** ** LinearAllocator *)

Module LinearAllocator.

Record t := {
  m_Buffer : Z;
  m_Size : Z;
  m_Offset : Z;
  m_Stats : MemoryStats
}.

(** The local [alignedOffset] of [Allocate]:
    [(m_Offset + alignmentMask) & ~alignmentMask] with
    [alignmentMask = alignment - 1]. *)
Definition alignedOffset (a : t) (alignment : Z) : Z :=
  let alignmentMask := to_size_t (alignment - 1) in
  Z.land (to_size_t (m_Offset a + alignmentMask)) (size_t_not alignmentMask).

Section Build.
Variable EDGE_DEBUG : bool.

(** [LinearAllocator::LinearAllocator(size)]; [buffer] is what
    [Memory::Allocate(size, EDGE_CACHE_LINE_SIZE)] returned. *)
Definition new (size buffer : Z) : t * list Report :=
  ({| m_Buffer := buffer; m_Size := size; m_Offset := 0;
      m_Stats := zero_stats |},
   EDGE_ASSERT EDGE_DEBUG (negb (buffer =? nullptr)) "m_Buffer != nullptr"
     "Failed to allocate memory for LinearAllocator").

(** [LinearAllocator::Allocate(size, tag, alignment)]: the pointer
    returned, the allocator afterwards, the assertions raised. *)
Definition Allocate (a : t) (size : Z) (tag : MemoryTag.t) (alignment : Z)
    : Z * t * list Report :=
  if size =? 0 then (nullptr, a, [])
  else
    let alignedOffset := alignedOffset a alignment in
    if to_size_t (alignedOffset + size) >? m_Size a then
      (nullptr, a,
       EDGE_ASSERT EDGE_DEBUG false "false" "LinearAllocator out of memory")
    else
      let ptr := m_Buffer a + alignedOffset in
      (ptr,
       {| m_Buffer := m_Buffer a; m_Size := m_Size a;
          m_Offset := to_size_t (alignedOffset + size);
          m_Stats := on_allocation (m_Stats a) size |},
       []).

(** The overload without a tag. *)
Definition Allocate_untagged (a : t) (size alignment : Z) :=
  Allocate a size MemoryTag.NoTag alignment.
End Build.

(** [LinearAllocator::Free]: ignored. *)
Definition Free (a : t) (ptr : Z) : t := a.

Definition GetStats (a : t) : MemoryStats := m_Stats a.

Definition Reset (a : t) : t :=
  {| m_Buffer := m_Buffer a; m_Size := m_Size a; m_Offset := 0;
     m_Stats := on_reset (m_Stats a) |}.

(** A client's calls, and the allocator after a sequence of them. *)
Inductive call :=
| CallAllocate (size : Z) (tag : MemoryTag.t) (alignment : Z)
| CallFree (ptr : Z)
| CallReset.

Definition step (dbg : bool) (a : t) (c : call) : t :=
  match c with
  | CallAllocate size tag alignment => (Allocate dbg a size tag alignment).1.2
  | CallFree ptr => Free a ptr
  | CallReset => Reset a
  end.

Definition run (dbg : bool) (a : t) (cs : list call) : t :=
  fold_left (step dbg) cs a.

End LinearAllocator.

(** ** PoolAllocator *)

Module PoolAllocator.

Record t := {
  m_Buffer : Z;
  m_FreeList : Z;
  m_ElementSize : Z;
  m_ElementCount : Z;
  m_AlignedElementSize : Z;
  m_FreeCount : Z;
  m_Stats : MemoryStats
}.

(** The pool threads its free list through the buffer: the memory is a
    store of [uintptr_t] words by address. A word that was never written
    has no entry, and reading it has no defined result. The slots the
    allocator dereferences are [m_AlignedElementSize] bytes apart; the
    store keeps their words apart when that is at least the size of a
    word, 8. *)
Definition sizeof_uintptr_t : Z := 8.

(** Address of slot [i]: [m_Buffer + (i * m_AlignedElementSize)]. *)
Definition block (buffer aligned i : Z) : Z := buffer + to_size_t (i * aligned).

(** The loop [for (size_t i = 0; i < count - 1; ++i) *block(i) = block(i+1)]
    with [n] iterations left. *)
Fixpoint link_blocks (n : nat) (i buffer aligned : Z) (mem : gmap Z Z)
    : gmap Z Z :=
  match n with
  | O => mem
  | S n' =>
      link_blocks n' (i + 1) buffer aligned
        (<[block buffer aligned i := block buffer aligned (i + 1)]> mem)
  end.

(** The loop followed by [*lastBlock = 0] (lines 401-408 and, again,
    478-485). *)
Definition thread_free_list (buffer aligned count : Z) (mem : gmap Z Z)
    : gmap Z Z :=
  let last := to_size_t (count - 1) in
  <[block buffer aligned last := 0]>
    (link_blocks (Z.to_nat last) 0 buffer aligned mem).

Section Build.
Variable EDGE_DEBUG : bool.

(** [PoolAllocator::PoolAllocator(elementSize, elementCount, alignment)];
    [buffer] is what [Memory::Allocate(totalSize, alignment)] returned and
    [mem] the memory before. *)
Definition new (elementSize elementCount alignment buffer : Z)
    (mem : gmap Z Z) : t * gmap Z Z * list Report :=
  let aligned := AlignUp elementSize alignment in
  ({| m_Buffer := buffer; m_FreeList := buffer;
      m_ElementSize := elementSize; m_ElementCount := elementCount;
      m_AlignedElementSize := aligned; m_FreeCount := elementCount;
      m_Stats := zero_stats |},
   thread_free_list buffer aligned elementCount mem,
   EDGE_ASSERT EDGE_DEBUG (negb (buffer =? nullptr)) "m_Buffer != nullptr"
     "Failed to allocate memory for PoolAllocator").

(** [PoolAllocator::Allocate(size, tag, alignment)]. The memory is read,
    not written. *)
Definition Allocate (a : t) (mem : gmap Z Z) (size : Z) (tag : MemoryTag.t)
    (alignment : Z) : option (Z * t * list Report) :=
  if size >? m_ElementSize a then
    Some (nullptr, a,
          EDGE_ASSERT EDGE_DEBUG false "false"
            "Requested size is larger than pool element size")
  else if m_FreeList a =? nullptr then
    Some (nullptr, a,
          EDGE_ASSERT EDGE_DEBUG false "false"
            "Pool allocator is out of memory")
  else
    let ptr := m_FreeList a in
    next ← mem !! m_FreeList a;
    Some (ptr,
          {| m_Buffer := m_Buffer a; m_FreeList := next;
             m_ElementSize := m_ElementSize a;
             m_ElementCount := m_ElementCount a;
             m_AlignedElementSize := m_AlignedElementSize a;
             m_FreeCount := to_size_t (m_FreeCount a - 1);
             m_Stats := on_allocation (m_Stats a) (m_ElementSize a) |},
          []).

Definition Allocate_untagged (a : t) (mem : gmap Z Z) (size alignment : Z) :=
  Allocate a mem size MemoryTag.NoTag alignment.

(** [PoolAllocator::Free(ptr)]. *)
Definition Free (a : t) (mem : gmap Z Z) (ptr : Z)
    : t * gmap Z Z * list Report :=
  if ptr =? nullptr then (a, mem, [])
  else if (ptr <? m_Buffer a)
          || (ptr >=? m_Buffer a
                      + to_size_t (m_AlignedElementSize a * m_ElementCount a))
  then
    (a, mem,
     EDGE_ASSERT EDGE_DEBUG false "false"
       "Pointer does not belong to this pool")
  else
    ({| m_Buffer := m_Buffer a; m_FreeList := ptr;
        m_ElementSize := m_ElementSize a;
        m_ElementCount := m_ElementCount a;
        m_AlignedElementSize := m_AlignedElementSize a;
        m_FreeCount := to_size_t (m_FreeCount a + 1);
        m_Stats := on_deallocation (m_Stats a) (m_ElementSize a) |},
     <[ptr := m_FreeList a]> mem,
     []).
End Build.

Definition GetStats (a : t) : MemoryStats := m_Stats a.

(** [PoolAllocator::Reset()]. *)
Definition Reset (a : t) (mem : gmap Z Z) : t * gmap Z Z :=
  ({| m_Buffer := m_Buffer a; m_FreeList := m_Buffer a;
      m_ElementSize := m_ElementSize a;
      m_ElementCount := m_ElementCount a;
      m_AlignedElementSize := m_AlignedElementSize a;
      m_FreeCount := m_ElementCount a;
      m_Stats := on_reset (m_Stats a) |},
   thread_free_list (m_Buffer a) (m_AlignedElementSize a) (m_ElementCount a)
     mem).

(** A client's calls; [CallWrite] is the client storing a word of its own
    somewhere in memory. *)
Inductive call :=
| CallAllocate (size : Z) (tag : MemoryTag.t) (alignment : Z)
| CallFree (ptr : Z)
| CallReset
| CallWrite (addr value : Z).

Definition step (dbg : bool) (s : t * gmap Z Z) (c : call)
    : option (t * gmap Z Z) :=
  match c with
  | CallAllocate size tag alignment =>
      r ← Allocate dbg s.1 s.2 size tag alignment; Some (r.1.2, s.2)
  | CallFree ptr => Some (Free dbg s.1 s.2 ptr).1
  | CallReset => Some (Reset s.1 s.2)
  | CallWrite addr value => Some (s.1, <[addr := value]> s.2)
  end.

Fixpoint run (dbg : bool) (s : t * gmap Z Z) (cs : list call)
    : option (t * gmap Z Z) :=
  match cs with
  | [] => Some s
  | c :: cs' => s' ← step dbg s c; run dbg s' cs'
  end.

(** The free list as the allocator sees it: the addresses met from [head]
    by following the leading words, up to the null terminator. *)
Inductive chain (mem : gmap Z Z) : Z -> list Z -> Prop :=
| chain_nil : chain mem nullptr []
| chain_cons p q l :
    p <> nullptr -> mem !! p = Some q -> chain mem q l ->
    chain mem p (p :: l).

(** The addresses of the slots, in buffer order. *)
Definition slots (a : t) : list Z :=
  map (fun i => block (m_Buffer a) (m_AlignedElementSize a) (Z.of_nat i))
      (seq 0 (Z.to_nat (m_ElementCount a))).

(** Parameters under which the constructor's writes stay inside the
    buffer it obtained: at least one slot, each slot wide enough for the
    free-list word, the buffer not null and inside the address space. *)
Record well_formed (a : t) : Prop := {
  wf_count : 1 <= m_ElementCount a;
  wf_aligned : sizeof_uintptr_t <= m_AlignedElementSize a;
  wf_buffer : 0 < m_Buffer a;
  wf_extent :
    m_Buffer a + m_AlignedElementSize a * m_ElementCount a <= size_t_modulus
}.

(** The pool used as intended: [reachable dbg a0 mem0 a mem live] holds
    when [a], [mem] follow from [a0], [mem0] by allocations, frees of
    pointers that are live (returned by [Allocate] and not yet freed;
    [live] lists them, latest first) and client writes into live slots. *)
Inductive reachable (dbg : bool) (a0 : t) (mem0 : gmap Z Z)
    : t -> gmap Z Z -> list Z -> Prop :=
| reach_init : reachable dbg a0 mem0 a0 mem0 []
| reach_alloc a mem live size tag alignment ptr a' rs :
    reachable dbg a0 mem0 a mem live ->
    Allocate dbg a mem size tag alignment = Some (ptr, a', rs) ->
    ptr <> nullptr ->
    reachable dbg a0 mem0 a' mem (ptr :: live)
| reach_alloc_failed a mem live size tag alignment a' rs :
    reachable dbg a0 mem0 a mem live ->
    Allocate dbg a mem size tag alignment = Some (nullptr, a', rs) ->
    reachable dbg a0 mem0 a' mem live
| reach_free a mem live1 ptr live2 :
    reachable dbg a0 mem0 a mem (live1 ++ ptr :: live2) ->
    reachable dbg a0 mem0 (Free dbg a mem ptr).1.1 (Free dbg a mem ptr).1.2
      (live1 ++ live2)
| reach_reset a mem live :
    reachable dbg a0 mem0 a mem live ->
    reachable dbg a0 mem0 (Reset a mem).1 (Reset a mem).2 []
| reach_write a mem live ptr addr value :
    reachable dbg a0 mem0 a mem live ->
    ptr ∈ live ->
    ptr <= addr /\ addr + sizeof_uintptr_t <= ptr + m_AlignedElementSize a ->
    reachable dbg a0 mem0 a (<[addr := value]> mem) live.

(** What the pool keeps true of itself when used so: the free list is a
    null-terminated chain, it and the live pointers share out the slots,
    and [m_FreeCount] is its length. *)
Definition invariant (a : t) (mem : gmap Z Z) (live : list Z) : Prop :=
  exists free,
    chain mem (m_FreeList a) free
    /\ free ++ live ≡ₚ slots a
    /\ m_FreeCount a = Z.of_nat (length free).

(** The members fixed at construction. *)
Definition same_pool (a0 a : t) : Prop :=
  m_Buffer a = m_Buffer a0
  /\ m_ElementSize a = m_ElementSize a0
  /\ m_ElementCount a = m_ElementCount a0
  /\ m_AlignedElementSize a = m_AlignedElementSize a0.

End PoolAllocator.

(** ** SystemAllocator *)

Module SystemAllocator.

(** [struct SystemAllocator::AllocationHeader]. [h_file], [h_prev] and
    [h_next] are pointers. *)
Record AllocationHeader := {
  h_size : Z;
  h_alignment : Z;
  h_tag : MemoryTag.t;
  h_file : Z;
  h_line : Z;
  h_prev : Z;
  h_next : Z;
  h_guardValue : Z
}.

Definition GUARD_VALUE : Z := 0xDEADC0DE.

(** [sizeof(AllocationHeader)] on the two supported architectures: eight
    members, each in an 8-byte cell once padded ([tag], [line] and
    [guardValue] are narrower than the pointer-sized member that follows
    or than the struct's alignment). *)
Definition sizeof_AllocationHeader : Z := 64.

Record t := {
  m_Stats : MemoryStats;
  m_TagStats : list MemoryStats;
  m_TrackingEnabled : bool;
  m_FirstAllocation : Z;
  m_LastAllocation : Z
}.

(** The platform heap as the allocator uses it: the blocks obtained from
    the platform and not yet given back, and the headers that sit in
    memory, by address. A block given back loses its header: what its
    memory holds afterwards is not defined. *)
Record Heap := {
  blocks : gset Z;
  headers : gmap Z AllocationHeader
}.

Definition platform_alloc (h : Heap) (memory : Z) : Heap :=
  {| blocks := {[memory]} ∪ blocks h; headers := headers h |}.

Definition platform_free (h : Heap) (memory : Z) : Heap :=
  {| blocks := blocks h ∖ {[memory]}; headers := delete memory (headers h) |}.

(** A store through a header pointer, [p->field = v]; it has no defined
    result when no header lives at [p]. *)
Definition update_header (hs : gmap Z AllocationHeader) (p : Z)
    (f : AllocationHeader -> AllocationHeader)
    : option (gmap Z AllocationHeader) :=
  h ← hs !! p; Some (<[p := f h]> hs).

Definition set_prev (v : Z) (h : AllocationHeader) : AllocationHeader :=
  {| h_size := h_size h; h_alignment := h_alignment h; h_tag := h_tag h;
     h_file := h_file h; h_line := h_line h; h_prev := v;
     h_next := h_next h; h_guardValue := h_guardValue h |}.

Definition set_next (v : Z) (h : AllocationHeader) : AllocationHeader :=
  {| h_size := h_size h; h_alignment := h_alignment h; h_tag := h_tag h;
     h_file := h_file h; h_line := h_line h; h_prev := h_prev h;
     h_next := v; h_guardValue := h_guardValue h |}.

(** [SystemAllocator::SystemAllocator()]. *)
Definition new (EDGE_DEBUG : bool) : t :=
  {| m_Stats := zero_stats;
     m_TagStats := replicate MemoryTag.COUNT zero_stats;
     m_TrackingEnabled := if EDGE_DEBUG then true else false;
     m_FirstAllocation := nullptr;
     m_LastAllocation := nullptr |}.

(** [SystemAllocator::TrackAllocation(header, size, tag)]. *)
Definition TrackAllocation (a : t) (hs : gmap Z AllocationHeader)
    (header size : Z) (tag : MemoryTag.t)
    : option (t * gmap Z AllocationHeader) :=
  let stats := on_allocation (m_Stats a) size in
  let tagIndex : nat := tag in
  let tagStats :=
    if (tagIndex <? MemoryTag.COUNT)%nat
    then alter (fun s => on_allocation s size) tagIndex (m_TagStats a)
    else m_TagStats a in
  if m_FirstAllocation a =? nullptr then
    Some ({| m_Stats := stats; m_TagStats := tagStats;
             m_TrackingEnabled := m_TrackingEnabled a;
             m_FirstAllocation := header; m_LastAllocation := header |},
          hs)
  else
    hs1 ← update_header hs header (set_prev (m_LastAllocation a));
    hs2 ← update_header hs1 (m_LastAllocation a) (set_next header);
    Some ({| m_Stats := stats; m_TagStats := tagStats;
             m_TrackingEnabled := m_TrackingEnabled a;
             m_FirstAllocation := m_FirstAllocation a;
             m_LastAllocation := header |},
          hs2).

(** [SystemAllocator::TrackDeallocation(header)]. Every [header->field]
    is read from memory when the source reads it. *)
Definition TrackDeallocation (a : t) (hs : gmap Z AllocationHeader)
    (header : Z) : option (t * gmap Z AllocationHeader) :=
  h ← hs !! header;
  let stats := on_deallocation (m_Stats a) (h_size h) in
  let tagIndex : nat := h_tag h in
  let tagStats :=
    if (tagIndex <? MemoryTag.COUNT)%nat
    then alter (fun s => on_deallocation s (h_size h)) tagIndex (m_TagStats a)
    else m_TagStats a in
  '(first, hs1) ←
    (if negb (h_prev h =? nullptr)
     then hs' ← update_header hs (h_prev h) (set_next (h_next h));
          Some (m_FirstAllocation a, hs')
     else Some (h_next h, hs));
  h1 ← hs1 !! header;
  '(last, hs2) ←
    (if negb (h_next h1 =? nullptr)
     then hs' ← update_header hs1 (h_next h1) (set_prev (h_prev h1));
          Some (m_LastAllocation a, hs')
     else Some (h_prev h1, hs1));
  Some ({| m_Stats := stats; m_TagStats := tagStats;
           m_TrackingEnabled := m_TrackingEnabled a;
           m_FirstAllocation := first; m_LastAllocation := last |},
        hs2).

Section Build.
Variable EDGE_DEBUG : bool.

(** [SystemAllocator::Allocate(size, tag, alignment)]. [memory] is what
    the platform primitive returned for the request ([size], plus
    [sizeof(AllocationHeader)] when tracking, aligned to [alignment]);
    null when it failed. *)
Definition Allocate (a : t) (heap : Heap) (size : Z) (tag : MemoryTag.t)
    (alignment : Z) (memory : Z) : option (Z * t * Heap * list Report) :=
  if size =? 0 then Some (nullptr, a, heap, [])
  else
    let r :=
      EDGE_ASSERT EDGE_DEBUG
        ((alignment >? 0)
         && (Z.land alignment (to_size_t (alignment - 1)) =? 0))
        "alignment > 0 && (alignment & (alignment - 1)) == 0"
        "Alignment must be a power of two." in
    if memory =? nullptr then
      Some (nullptr, a, heap,
            r ++ EDGE_ASSERT EDGE_DEBUG false "false"
                   "Memory allocation failed!")
    else
      let heap1 := platform_alloc heap memory in
      if m_TrackingEnabled a then
        let header :=
          {| h_size := size; h_alignment := alignment; h_tag := tag;
             h_file := nullptr; h_line := 0;
             h_prev := nullptr; h_next := nullptr;
             h_guardValue := GUARD_VALUE |} in
        '(a', hs) ←
          TrackAllocation a (<[memory := header]> (headers heap1))
            memory size tag;
        Some (memory + sizeof_AllocationHeader, a',
              {| blocks := blocks heap1; headers := hs |}, r)
      else Some (memory, a, heap1, r).

Definition Allocate_untagged (a : t) (heap : Heap) (size alignment : Z)
    (memory : Z) :=
  Allocate a heap size MemoryTag.NoTag alignment memory.

(** [SystemAllocator::Free(ptr)]. *)
Definition Free (a : t) (heap : Heap) (ptr : Z)
    : option (t * Heap * list Report) :=
  if ptr =? nullptr then Some (a, heap, [])
  else if m_TrackingEnabled a then
    let header := ptr - sizeof_AllocationHeader in
    h ← headers heap !! header;
    if negb (h_guardValue h =? GUARD_VALUE) then
      Some (a, heap,
            EDGE_ASSERT EDGE_DEBUG false "false" "Memory corruption detected!")
    else
      '(a', hs) ← TrackDeallocation a (headers heap) header;
      Some (a',
            platform_free {| blocks := blocks heap; headers := hs |} header,
            [])
  else Some (a, platform_free heap ptr, []).

(** [SystemAllocator::Reset()]. *)
Definition Reset (a : t) : t * list Report :=
  ({| m_Stats := zero_stats;
      m_TagStats := replicate MemoryTag.COUNT zero_stats;
      m_TrackingEnabled := m_TrackingEnabled a;
      m_FirstAllocation := nullptr; m_LastAllocation := nullptr |},
   EDGE_ASSERT EDGE_DEBUG
     (allocationCount (m_Stats a) =? freeCount (m_Stats a))
     "m_Stats.allocationCount == m_Stats.freeCount"
     "Cannot reset allocator with active allocations!").

(** [SystemAllocator::SetTrackingEnabled(enabled)]. *)
Definition SetTrackingEnabled (a : t) (enabled : bool) : t * list Report :=
  ({| m_Stats := m_Stats a; m_TagStats := m_TagStats a;
      m_TrackingEnabled := enabled;
      m_FirstAllocation := m_FirstAllocation a;
      m_LastAllocation := m_LastAllocation a |},
   EDGE_ASSERT EDGE_DEBUG
     (allocationCount (m_Stats a) =? freeCount (m_Stats a))
     "m_Stats.allocationCount == m_Stats.freeCount"
     "Cannot change tracking state with active allocations!").
End Build.

Definition IsTrackingEnabled (a : t) : bool := m_TrackingEnabled a.

Definition GetStats (a : t) : MemoryStats := m_Stats a.

(** [SystemAllocator::GetTagStats(tag, stats)]: the value written to
    [stats]. [m_TagStats] is an array of [COUNT] entries. *)
Definition GetTagStats (a : t) (tag : MemoryTag.t) : MemoryStats :=
  let tagIndex : nat := tag in
  if (tagIndex <? MemoryTag.COUNT)%nat
  then default zero_stats (m_TagStats a !! tagIndex)
  else zero_stats.

(** A client's calls. [CallAllocate] carries the platform's answer;
    [CallClobber] is a stray store over the header cell at [addr]. *)
Inductive call :=
| CallAllocate (size : Z) (tag : MemoryTag.t) (alignment memory : Z)
| CallFree (ptr : Z)
| CallReset
| CallSetTrackingEnabled (enabled : bool)
| CallClobber (addr : Z) (h : AllocationHeader).

Definition step (dbg : bool) (s : t * Heap) (c : call) : option (t * Heap) :=
  match c with
  | CallAllocate size tag alignment memory =>
      r ← Allocate dbg s.1 s.2 size tag alignment memory;
      Some (r.1.1.2, r.1.2)
  | CallFree ptr => r ← Free dbg s.1 s.2 ptr; Some r.1
  | CallReset => Some ((Reset dbg s.1).1, s.2)
  | CallSetTrackingEnabled enabled =>
      Some ((SetTrackingEnabled dbg s.1 enabled).1, s.2)
  | CallClobber addr h =>
      Some (s.1, {| blocks := blocks s.2; headers := <[addr := h]> (headers s.2) |})
  end.

Fixpoint run (dbg : bool) (s : t * Heap) (cs : list call)
    : option (t * Heap) :=
  match cs with
  | [] => Some s
  | c :: cs' => s' ← step dbg s c; run dbg s' cs'
  end.

(** What [ReportLeaks] prints: the totals, one line for each tag that has
    more allocations than frees (index, bytes, blocks), and one line for
    each header met on the way from [m_FirstAllocation]. The running
    [leakCount] is the length of [leaks]. *)
Record LeakReport := {
  leaked_bytes : Z;
  reported_allocations : Z;
  reported_frees : Z;
  tag_leaks : list (nat * Z * Z);
  leaks : list AllocationHeader
}.

(** The loop [while (current) { ...; current = current->next; }], with
    [fuel] iterations allowed. It has no result when the fuel runs out
    or when [current] points at no header. *)
Fixpoint walk (fuel : nat) (hs : gmap Z AllocationHeader) (current : Z)
    : option (list AllocationHeader) :=
  if current =? nullptr then Some []
  else
    match fuel with
    | O => None
    | S fuel' =>
        h ← hs !! current;
        rest ← walk fuel' hs (h_next h);
        Some (h :: rest)
    end.

Definition tag_leak (i : nat) (s : MemoryStats) : option (nat * Z * Z) :=
  if allocationCount s >? freeCount s
  then Some (i, to_size_t (totalAllocated s - totalFreed s),
             to_size_t (allocationCount s - freeCount s))
  else None.

(** [SystemAllocator::ReportLeaks()]: [Some None] when it returns at
    once, [Some (Some r)] when it prints [r]. ([EDGE_WARNING] is a
    compile-time pragma.) *)
Definition ReportLeaks (fuel : nat) (a : t) (hs : gmap Z AllocationHeader)
    : option (option LeakReport) :=
  if negb (m_TrackingEnabled a)
     || (allocationCount (m_Stats a) =? freeCount (m_Stats a))
  then Some None
  else
    l ← walk fuel hs (m_FirstAllocation a);
    Some (Some {| leaked_bytes :=
                    to_size_t (totalAllocated (m_Stats a)
                               - totalFreed (m_Stats a));
                  reported_allocations := allocationCount (m_Stats a);
                  reported_frees := freeCount (m_Stats a);
                  tag_leaks :=
                    omap id (imap tag_leak
                               (take MemoryTag.COUNT (m_TagStats a)));
                  leaks := l |}).

(** [SystemAllocator::~SystemAllocator()]. *)
Definition destroy (EDGE_DEBUG : bool) (fuel : nat) (a : t)
    (hs : gmap Z AllocationHeader)
    : option (option LeakReport * list Report) :=
  r ← (if m_TrackingEnabled a
          && (allocationCount (m_Stats a) >? freeCount (m_Stats a))
       then ReportLeaks fuel a hs
       else Some None);
  Some (r,
        EDGE_ASSERT EDGE_DEBUG
          (allocationCount (m_Stats a) =? freeCount (m_Stats a))
          "m_Stats.allocationCount == m_Stats.freeCount"
          "Memory leak detected!").

(** A live tracked allocation as its owner knows it: where the platform
    put the block, and what was asked for. *)
Record live_block := {
  lb_memory : Z;
  lb_size : Z;
  lb_tag : MemoryTag.t;
  lb_alignment : Z
}.

(** The header that block [b] carries when its neighbours in the
    tracking list are at [prev] and [next]. *)
Definition header_of (b : live_block) (prev next : Z) : AllocationHeader :=
  {| h_size := lb_size b; h_alignment := lb_alignment b; h_tag := lb_tag b;
     h_file := nullptr; h_line := 0; h_prev := prev; h_next := next;
     h_guardValue := GUARD_VALUE |}.

Definition first_memory (l : list live_block) : Z :=
  match l with [] => nullptr | b :: _ => lb_memory b end.

Definition last_memory (l : list live_block) : Z :=
  match reverse l with [] => nullptr | b :: _ => lb_memory b end.

(** The headers of [l] sit in memory, doubly linked in this order, the
    first one's [prev] being [prev]. *)
Fixpoint linked (hs : gmap Z AllocationHeader) (prev : Z)
    (l : list live_block) : Prop :=
  match l with
  | [] => True
  | b :: l' =>
      lb_memory b <> nullptr
      /\ hs !! lb_memory b = Some (header_of b prev (first_memory l'))
      /\ linked hs (lb_memory b) l'
  end.

(** The tracking allocator and the heap when [live] are the blocks
    allocated and not yet freed, oldest first. *)
Record tracking_invariant (a : t) (heap : Heap) (live : list live_block)
    : Prop := {
  ti_enabled : m_TrackingEnabled a = true;
  ti_first : m_FirstAllocation a = first_memory live;
  ti_last : m_LastAllocation a = last_memory live;
  ti_distinct : NoDup (lb_memory <$> live);
  ti_linked : linked (headers heap) nullptr live;
  ti_held : forall b, b ∈ live -> lb_memory b ∈ blocks heap;
  ti_pointer :
    forall b, b ∈ live -> lb_memory b + sizeof_AllocationHeader <> nullptr;
  ti_free_range : is_size_t (freeCount (m_Stats a));
  ti_count :
    allocationCount (m_Stats a)
    = to_size_t (freeCount (m_Stats a) + Z.of_nat (length live));
  ti_usage :
    currentUsage (m_Stats a) = to_size_t (foldr Z.add 0 (lb_size <$> live))
}.

(** The tracking allocator used as intended: each block comes fresh
    from the platform, each [Free] is given a pointer that [Allocate]
    returned and that was not freed since, and [Reset] is called with
    nothing outstanding. *)
Inductive tracked (dbg : bool) : t -> Heap -> list live_block -> Prop :=
| tracked_new heap :
    tracked dbg (SetTrackingEnabled dbg (new dbg) true).1 heap []
| tracked_alloc a heap live size tag alignment memory ptr a' heap' rs :
    tracked dbg a heap live ->
    memory ∉ blocks heap ->
    Allocate dbg a heap size tag alignment memory
      = Some (ptr, a', heap', rs) ->
    ptr <> nullptr ->
    tracked dbg a' heap'
      (live ++ [ {| lb_memory := memory; lb_size := size; lb_tag := tag;
                    lb_alignment := alignment |} ])
| tracked_free a heap live1 b live2 a' heap' rs :
    tracked dbg a heap (live1 ++ b :: live2) ->
    Free dbg a heap (lb_memory b + sizeof_AllocationHeader)
      = Some (a', heap', rs) ->
    tracked dbg a' heap' (live1 ++ live2)
| tracked_reset a heap :
    tracked dbg a heap [] ->
    tracked dbg (Reset dbg a).1 heap [].

End SystemAllocator.

(** ** The process-wide allocator (namespace [Memory]) *)

Module Memory.

(** [g_SystemAllocator], null or the allocator it points to, and the
    platform heap that allocator works on. *)
Record State := {
  g_SystemAllocator : option SystemAllocator.t;
  g_heap : SystemAllocator.Heap
}.

Section Build.
Variable EDGE_DEBUG : bool.

Definition Initialize (st : State) : State :=
  match g_SystemAllocator st with
  | None =>
      {| g_SystemAllocator := Some (SystemAllocator.new EDGE_DEBUG);
         g_heap := g_heap st |}
  | Some _ => st
  end.

(** [Shutdown()]: [delete] runs the destructor. *)
Definition Shutdown (fuel : nat) (st : State)
    : option (State * option SystemAllocator.LeakReport * list Report) :=
  match g_SystemAllocator st with
  | Some a =>
      r ← SystemAllocator.destroy EDGE_DEBUG fuel a
            (SystemAllocator.headers (g_heap st));
      Some ({| g_SystemAllocator := None; g_heap := g_heap st |}, r.1, r.2)
  | None => Some (st, None, [])
  end.

(** [GetSystemAllocator()]: the allocator, and the state once it
    exists. *)
Definition GetSystemAllocator (st : State) : SystemAllocator.t * State :=
  match g_SystemAllocator st with
  | Some a => (a, st)
  | None => (SystemAllocator.new EDGE_DEBUG, Initialize st)
  end.

Definition with_allocator (a : SystemAllocator.t)
    (heap : SystemAllocator.Heap) : State :=
  {| g_SystemAllocator := Some a; g_heap := heap |}.

(** [Memory::AllocateTagged]; [memory] is the platform's answer. *)
Definition AllocateTagged (st : State) (size : Z) (tag : MemoryTag.t)
    (alignment memory : Z) : option (Z * State * list Report) :=
  let '(a, st1) := GetSystemAllocator st in
  r ← SystemAllocator.Allocate EDGE_DEBUG a (g_heap st1) size tag alignment
        memory;
  Some (r.1.1.1, with_allocator r.1.1.2 r.1.2, r.2).

(** [Memory::Allocate] and [Memory::AllocateAligned] have the same
    body. *)
Definition Allocate (st : State) (size alignment memory : Z)
    : option (Z * State * list Report) :=
  let '(a, st1) := GetSystemAllocator st in
  r ← SystemAllocator.Allocate_untagged EDGE_DEBUG a (g_heap st1) size
        alignment memory;
  Some (r.1.1.1, with_allocator r.1.1.2 r.1.2, r.2).

Definition AllocateAligned (st : State) (size alignment memory : Z)
    : option (Z * State * list Report) :=
  let '(a, st1) := GetSystemAllocator st in
  r ← SystemAllocator.Allocate_untagged EDGE_DEBUG a (g_heap st1) size
        alignment memory;
  Some (r.1.1.1, with_allocator r.1.1.2 r.1.2, r.2).

(** [Memory::Free] and [Memory::FreeAligned] have the same body. *)
Definition Free (st : State) (ptr : Z) : option (State * list Report) :=
  let '(a, st1) := GetSystemAllocator st in
  r ← SystemAllocator.Free EDGE_DEBUG a (g_heap st1) ptr;
  Some (with_allocator r.1.1 r.1.2, r.2).

Definition FreeAligned (st : State) (ptr : Z)
    : option (State * list Report) :=
  let '(a, st1) := GetSystemAllocator st in
  r ← SystemAllocator.Free EDGE_DEBUG a (g_heap st1) ptr;
  Some (with_allocator r.1.1 r.1.2, r.2).

Definition EnableTracking (st : State) (enabled : bool)
    : State * list Report :=
  let '(a, st1) := GetSystemAllocator st in
  let r := SystemAllocator.SetTrackingEnabled EDGE_DEBUG a enabled in
  (with_allocator r.1 (g_heap st1), r.2).

Definition ReportLeaks (fuel : nat) (st : State)
    : option (option SystemAllocator.LeakReport * State) :=
  let '(a, st1) := GetSystemAllocator st in
  r ← SystemAllocator.ReportLeaks fuel a
        (SystemAllocator.headers (g_heap st1));
  Some (r, st1).

Definition GetStats (st : State) : MemoryStats * State :=
  let '(a, st1) := GetSystemAllocator st in
  (SystemAllocator.GetStats a, st1).

Definition GetTagStats (st : State) (tag : MemoryTag.t)
    : MemoryStats * State :=
  let '(a, st1) := GetSystemAllocator st in
  (SystemAllocator.GetTagStats a tag, st1).

(** [Memory::New<T>]: the storage comes from [Allocate(sizeof(T),
    alignof(T))]; the object built in it is the caller's. *)
Definition New (st : State) (sizeof_T alignof_T memory : Z)
    : option (Z * State * list Report) :=
  Allocate st sizeof_T alignof_T memory.

(** [Memory::Delete<T>]. *)
Definition Delete (st : State) (ptr : Z) : option (State * list Report) :=
  if negb (ptr =? nullptr) then Free st ptr else Some (st, []).
End Build.

End Memory.

(** * Properties *)

(** ** Machine integers *)

Lemma size_t_modulus_pos : 0 < size_t_modulus.
Proof. reflexivity. Qed.

Lemma to_size_t_range x : is_size_t (to_size_t x).
Proof. apply Z.mod_pos_bound, size_t_modulus_pos. Qed.

Lemma to_size_t_small x : is_size_t x -> to_size_t x = x.
Proof. intros H. apply Z.mod_small, H. Qed.

Lemma to_size_t_add_l x y : to_size_t (to_size_t x + y) = to_size_t (x + y).
Proof. apply Zplus_mod_idemp_l. Qed.

Lemma to_size_t_sub_l x y : to_size_t (to_size_t x - y) = to_size_t (x - y).
Proof. apply Zminus_mod_idemp_l. Qed.

Lemma to_size_t_sub_r x y : to_size_t (x - to_size_t y) = to_size_t (x - y).
Proof. apply Zminus_mod_idemp_r. Qed.

(** ** The statistics invariant *)

Lemma zero_stats_consistent : stats_consistent zero_stats.
Proof. reflexivity. Qed.

Lemma on_allocation_consistent s size :
  stats_consistent s -> stats_consistent (on_allocation s size).
Proof.
  unfold stats_consistent, on_allocation; simpl; intros ->.
  rewrite to_size_t_add_l, to_size_t_sub_l. f_equal; lia.
Qed.

Lemma on_deallocation_consistent s size :
  stats_consistent s -> stats_consistent (on_deallocation s size).
Proof.
  unfold stats_consistent, on_deallocation; simpl; intros ->.
  rewrite to_size_t_sub_l, to_size_t_sub_r. f_equal; lia.
Qed.

Lemma on_reset_consistent s :
  stats_consistent s -> stats_consistent (on_reset s).
Proof.
  unfold stats_consistent, on_reset; simpl; intros ->.
  rewrite to_size_t_sub_r.
  replace (totalAllocated s - (totalFreed s
             + to_size_t (totalAllocated s - totalFreed s)))
    with ((totalAllocated s - totalFreed s)
          - to_size_t (totalAllocated s - totalFreed s)) by lia.
  rewrite to_size_t_sub_r, Z.sub_diag. reflexivity.
Qed.

(** When no more was freed than allocated and the total fits a [size_t],
    the wrapped difference is the difference of the integers. *)
Lemma stats_consistent_exact s :
  stats_consistent s ->
  0 <= totalFreed s <= totalAllocated s -> totalAllocated s < size_t_modulus ->
  currentUsage s = totalAllocated s - totalFreed s.
Proof.
  unfold stats_consistent; intros -> H1 H2.
  apply to_size_t_small. unfold is_size_t; lia.
Qed.

Lemma linear_step_consistent dbg a c :
  stats_consistent (LinearAllocator.m_Stats a) ->
  stats_consistent (LinearAllocator.m_Stats (LinearAllocator.step dbg a c)).
Proof.
  intros H. destruct c as [size tag alignment | ptr | ]; simpl.
  - unfold LinearAllocator.Allocate.
    destruct (size =? 0); [exact H |].
    match goal with |- context [if ?b then _ else _] => destruct b end;
      simpl; [exact H | apply on_allocation_consistent, H].
  - exact H.
  - apply on_reset_consistent, H.
Qed.

Lemma linear_run_consistent dbg cs : forall a,
  stats_consistent (LinearAllocator.m_Stats a) ->
  stats_consistent (LinearAllocator.m_Stats (LinearAllocator.run dbg a cs)).
Proof.
  unfold LinearAllocator.run.
  induction cs as [| c cs IH]; intros a H; simpl; [exact H |].
  apply IH, linear_step_consistent, H.
Qed.

Lemma pool_step_consistent dbg s c s' :
  PoolAllocator.step dbg s c = Some s' ->
  stats_consistent (PoolAllocator.m_Stats s.1) ->
  stats_consistent (PoolAllocator.m_Stats s'.1).
Proof.
  destruct s as [a mem]; intros Hs H; simpl in *.
  destruct c as [size tag alignment | ptr | | addr value]; simpl in Hs.
  - unfold PoolAllocator.Allocate in Hs.
    destruct (size >? PoolAllocator.m_ElementSize a);
      [injection Hs as <-; exact H |].
    destruct (PoolAllocator.m_FreeList a =? nullptr);
      [injection Hs as <-; exact H |].
    destruct (mem !! PoolAllocator.m_FreeList a) as [next |];
      [| discriminate].
    injection Hs as <-; simpl. apply on_allocation_consistent, H.
  - injection Hs as <-. unfold PoolAllocator.Free.
    destruct (ptr =? nullptr); [exact H |].
    match goal with |- context [if ?b then _ else _] => destruct b end;
      simpl; [exact H | apply on_deallocation_consistent, H].
  - injection Hs as <-; simpl. apply on_reset_consistent, H.
  - injection Hs as <-; exact H.
Qed.

Lemma pool_run_consistent dbg cs : forall s s',
  PoolAllocator.run dbg s cs = Some s' ->
  stats_consistent (PoolAllocator.m_Stats s.1) ->
  stats_consistent (PoolAllocator.m_Stats s'.1).
Proof.
  induction cs as [| c cs IH]; intros s s' Hr H; simpl in Hr.
  - injection Hr as <-; exact H.
  - destruct (PoolAllocator.step dbg s c) as [s1 |] eqn:Hs; [| discriminate].
    simpl in Hr. eapply IH; [exact Hr |].
    eapply pool_step_consistent; eauto.
Qed.

Lemma TrackAllocation_consistent a hs header size tag a' hs' :
  SystemAllocator.TrackAllocation a hs header size tag = Some (a', hs') ->
  stats_consistent (SystemAllocator.m_Stats a) ->
  stats_consistent (SystemAllocator.m_Stats a').
Proof.
  unfold SystemAllocator.TrackAllocation; intros Ht H.
  destruct (SystemAllocator.m_FirstAllocation a =? nullptr).
  - injection Ht as <- _; simpl. apply on_allocation_consistent, H.
  - destruct (SystemAllocator.update_header hs header _) as [hs1 |];
      [| discriminate]; simpl in Ht.
    destruct (SystemAllocator.update_header hs1 _ _) as [hs2 |];
      [| discriminate]; simpl in Ht.
    injection Ht as <- _; simpl. apply on_allocation_consistent, H.
Qed.

Lemma TrackDeallocation_stats a hs header a' hs' :
  SystemAllocator.TrackDeallocation a hs header = Some (a', hs') ->
  exists h, hs !! header = Some h /\
    SystemAllocator.m_Stats a'
    = on_deallocation (SystemAllocator.m_Stats a) (SystemAllocator.h_size h).
Proof.
  unfold SystemAllocator.TrackDeallocation; intros Ht.
  destruct (hs !! header) as [h |]; [| discriminate]; simpl in Ht.
  exists h; split; [reflexivity |].
  match type of Ht with
  | mbind _ ?m = _ => destruct m as [[first hs1] |]; [| discriminate]
  end; simpl in Ht.
  destruct (hs1 !! header) as [h1 |]; [| discriminate]; simpl in Ht.
  match type of Ht with
  | mbind _ ?m = _ => destruct m as [[last hs2] |]; [| discriminate]
  end; simpl in Ht.
  injection Ht as <- _; reflexivity.
Qed.

Lemma system_step_consistent dbg s c s' :
  SystemAllocator.step dbg s c = Some s' ->
  stats_consistent (SystemAllocator.m_Stats s.1) ->
  stats_consistent (SystemAllocator.m_Stats s'.1).
Proof.
  destruct s as [a heap]; intros Hs H; simpl in *.
  destruct c as [size tag alignment memory | ptr | | enabled | addr h];
    simpl in Hs.
  - unfold SystemAllocator.Allocate in Hs.
    destruct (size =? 0); [injection Hs as <-; exact H |].
    destruct (memory =? nullptr); [injection Hs as <-; exact H |].
    destruct (SystemAllocator.m_TrackingEnabled a);
      [| injection Hs as <-; exact H].
    destruct (SystemAllocator.TrackAllocation a _ memory size tag)
      as [[a1 hs1] |] eqn:Ht; [| discriminate].
    injection Hs as <-; simpl.
    eapply TrackAllocation_consistent; eauto.
  - unfold SystemAllocator.Free in Hs.
    destruct (ptr =? nullptr); [injection Hs as <-; exact H |].
    destruct (SystemAllocator.m_TrackingEnabled a);
      [| injection Hs as <-; exact H].
    destruct (SystemAllocator.headers heap !! _) as [h |];
      [| discriminate]; simpl in Hs.
    destruct (negb _); [injection Hs as <-; exact H |].
    destruct (SystemAllocator.TrackDeallocation a _ _)
      as [[a1 hs1] |] eqn:Ht; [| discriminate].
    injection Hs as <-; simpl.
    apply TrackDeallocation_stats in Ht as (h' & _ & ->).
    apply on_deallocation_consistent, H.
  - injection Hs as <-; simpl. apply zero_stats_consistent.
  - injection Hs as <-; exact H.
  - injection Hs as <-; exact H.
Qed.

Lemma system_run_consistent dbg cs : forall s s',
  SystemAllocator.run dbg s cs = Some s' ->
  stats_consistent (SystemAllocator.m_Stats s.1) ->
  stats_consistent (SystemAllocator.m_Stats s'.1).
Proof.
  induction cs as [| c cs IH]; intros s s' Hr H; simpl in Hr.
  - injection Hr as <-; exact H.
  - destruct (SystemAllocator.step dbg s c) as [s1 |] eqn:Hs; [| discriminate].
    simpl in Hr. eapply IH; [exact Hr |].
    eapply system_step_consistent; eauto.
Qed.

(** C1. For every allocator strategy and every sequence of allocate and
    free calls (and resets, changes of the tracking switch and stray
    stores besides) made on a freshly constructed allocator, the
    statistics snapshot satisfies
    [currentUsage == totalAllocated - totalFreed], the subtraction being
    the one of [size_t]. A sequence stands for each of its prefixes, so
    the equation holds after every call. *)
Theorem stats_consistent_after_every_call (dbg : bool) :
  (forall heap cs a heap',
     SystemAllocator.run dbg (SystemAllocator.new dbg, heap) cs
       = Some (a, heap') ->
     stats_consistent (SystemAllocator.GetStats a))
  /\ (forall size buffer cs,
        stats_consistent
          (LinearAllocator.GetStats
             (LinearAllocator.run dbg
                (LinearAllocator.new dbg size buffer).1 cs)))
  /\ (forall elementSize elementCount alignment buffer mem cs a mem',
        PoolAllocator.run dbg
          (PoolAllocator.new dbg elementSize elementCount alignment buffer
             mem).1 cs
          = Some (a, mem') ->
        stats_consistent (PoolAllocator.GetStats a)).
Proof.
  split; [| split].
  - intros heap cs a heap' Hr.
    apply (system_run_consistent dbg cs _ _ Hr), zero_stats_consistent.
  - intros size buffer cs.
    apply linear_run_consistent, zero_stats_consistent.
  - intros elementSize elementCount alignment buffer mem cs a mem' Hr.
    apply (pool_run_consistent dbg cs _ _ Hr), zero_stats_consistent.
Qed.

(** ** Rounding to a power of two *)

Lemma power_of_two_bounds a : power_of_two a -> 1 <= a <= 2 ^ 63.
Proof.
  intros (k & Hk & ->). split.
  - change 1 with (2 ^ 0). apply Z.pow_le_mono_r; lia.
  - apply Z.pow_le_mono_r; lia.
Qed.

Lemma power_of_two_mask a :
  power_of_two a -> to_size_t (a - 1) = a - 1.
Proof.
  intros H. apply power_of_two_bounds in H.
  apply to_size_t_small. unfold is_size_t, size_t_modulus.
  change (2 ^ 64) with (2 * 2 ^ 63). lia.
Qed.

(** Masking with [~(a - 1)] clears the low bits: it rounds down to a
    multiple of [a]. *)
Lemma land_not_mask a x :
  power_of_two a -> is_size_t x ->
  Z.land x (size_t_not (to_size_t (a - 1))) = a * (x / a).
Proof.
  intros Ha Hx. rewrite (power_of_two_mask a Ha).
  destruct Ha as (k & Hk & ->).
  unfold size_t_not, to_size_t, size_t_modulus.
  rewrite <- Z.land_ones by lia.
  rewrite Z.land_assoc, (Z.land_comm x), <- Z.land_assoc.
  rewrite (Z.land_ones x 64) by lia.
  rewrite (Z.mod_small x) by exact Hx.
  rewrite Z.land_comm, <- Z.ldiff_land.
  replace (2 ^ k - 1) with (Z.ones k) by (rewrite Z.ones_equiv; lia).
  rewrite Z.ldiff_ones_r by lia.
  rewrite Z.shiftl_mul_pow2, Z.shiftr_div_pow2 by lia. lia.
Qed.

Lemma land_not_mask_aligned a x :
  power_of_two a -> is_size_t x ->
  Z.land x (size_t_not (to_size_t (a - 1))) mod a = 0.
Proof.
  intros Ha Hx. rewrite land_not_mask by assumption.
  rewrite Z.mul_comm. apply Z_mod_mult.
Qed.

(** Rounding [x] up, when [x + a - 1] does not wrap. *)
Lemma round_up_bounds a x :
  power_of_two a -> 0 <= x -> x + (a - 1) < size_t_modulus ->
  let r := Z.land (to_size_t (x + to_size_t (a - 1)))
                  (size_t_not (to_size_t (a - 1))) in
  x <= r < x + a /\ r mod a = 0.
Proof.
  intros Ha Hx Hlt r. subst r.
  pose proof (power_of_two_bounds a Ha) as Hb.
  split; [| apply land_not_mask_aligned; [exact Ha | apply to_size_t_range]].
  assert (E : Z.land (to_size_t (x + to_size_t (a - 1)))
                     (size_t_not (to_size_t (a - 1)))
              = a * ((x + (a - 1)) / a)).
  { rewrite land_not_mask by (try assumption; apply to_size_t_range).
    rewrite (power_of_two_mask a Ha).
    rewrite to_size_t_small by (unfold is_size_t; lia). reflexivity. }
  rewrite E.
  pose proof (Z.div_mod (x + (a - 1)) a ltac:(lia)) as Hd.
  pose proof (Z.mod_pos_bound (x + (a - 1)) a ltac:(lia)) as Hm.
  lia.
Qed.

Lemma round_up_aligned a x :
  power_of_two a -> 0 <= x -> x + (a - 1) < size_t_modulus -> x mod a = 0 ->
  Z.land (to_size_t (x + to_size_t (a - 1)))
         (size_t_not (to_size_t (a - 1))) = x.
Proof.
  intros Ha Hx Hlt Hmod.
  destruct (round_up_bounds a x Ha Hx Hlt) as [Hr Hr0].
  pose proof (power_of_two_bounds a Ha) as Hb.
  set (r := Z.land _ _) in *.
  apply Z.mod_divide in Hmod as [q Hq]; [| lia].
  apply Z.mod_divide in Hr0 as [q' Hq']; [| lia].
  assert (q <= q') by (apply (Z.mul_le_mono_pos_r _ _ a); lia).
  assert (q' < q + 1) by (apply (Z.mul_lt_mono_pos_r a); lia).
  replace q' with q in Hq' by lia. lia.
Qed.

(** ** LinearAllocator *)

Lemma linear_alignedOffset_bounds a alignment :
  power_of_two alignment ->
  0 <= LinearAllocator.m_Offset a ->
  LinearAllocator.m_Offset a + (alignment - 1) < size_t_modulus ->
  LinearAllocator.m_Offset a <= LinearAllocator.alignedOffset a alignment
    < LinearAllocator.m_Offset a + alignment
  /\ LinearAllocator.alignedOffset a alignment mod alignment = 0.
Proof. intros. apply round_up_bounds; assumption. Qed.

Lemma linear_alignedOffset_aligned a alignment :
  power_of_two alignment ->
  0 <= LinearAllocator.m_Offset a ->
  LinearAllocator.m_Offset a + (alignment - 1) < size_t_modulus ->
  LinearAllocator.m_Offset a mod alignment = 0 ->
  LinearAllocator.alignedOffset a alignment = LinearAllocator.m_Offset a.
Proof. intros. apply round_up_aligned; assumption. Qed.

Lemma linear_Allocate_full dbg a size tag alignment :
  to_size_t (LinearAllocator.alignedOffset a alignment + size)
    > LinearAllocator.m_Size a ->
  (LinearAllocator.Allocate dbg a size tag alignment).1 = (nullptr, a).
Proof.
  intros H. unfold LinearAllocator.Allocate.
  destruct (size =? 0); [reflexivity |].
  rewrite (proj2 (Z.gtb_gt _ _)) by exact H. reflexivity.
Qed.

Lemma linear_Allocate_fits dbg a size tag alignment :
  size <> 0 ->
  to_size_t (LinearAllocator.alignedOffset a alignment + size)
    <= LinearAllocator.m_Size a ->
  LinearAllocator.Allocate dbg a size tag alignment
  = (LinearAllocator.m_Buffer a + LinearAllocator.alignedOffset a alignment,
     {| LinearAllocator.m_Buffer := LinearAllocator.m_Buffer a;
        LinearAllocator.m_Size := LinearAllocator.m_Size a;
        LinearAllocator.m_Offset :=
          to_size_t (LinearAllocator.alignedOffset a alignment + size);
        LinearAllocator.m_Stats :=
          on_allocation (LinearAllocator.m_Stats a) size |},
     []).
Proof.
  intros Hs H. unfold LinearAllocator.Allocate.
  rewrite (proj2 (Z.eqb_neq _ _)) by exact Hs.
  destruct (Z.gtb_spec
              (to_size_t (LinearAllocator.alignedOffset a alignment + size))
              (LinearAllocator.m_Size a)); [lia | reflexivity].
Qed.

Lemma multiple_in_window_unique a x r1 r2 :
  0 < a -> x <= r1 < x + a -> x <= r2 < x + a ->
  r1 mod a = 0 -> r2 mod a = 0 -> r1 = r2.
Proof.
  intros Ha H1 H2 M1 M2.
  apply Z.mod_divide in M1 as [q1 ->]; [| lia].
  apply Z.mod_divide in M2 as [q2 ->]; [| lia].
  assert (q1 < q2 + 1) by (apply (Z.mul_lt_mono_pos_r a); lia).
  assert (q2 < q1 + 1) by (apply (Z.mul_lt_mono_pos_r a); lia).
  f_equal; lia.
Qed.

(** Out of memory, where the sum does not wrap. A LinearAllocator whose
    aligned offset plus the requested size exceeds the buffer size (the
    sum being the [size_t] sum that the
    source compares) returns null and is left as it was, offset and
    statistics included. For a power-of-two alignment the aligned offset
    is the multiple of the alignment next to the offset from above, and as
    long as that multiple plus the size fits a [size_t] the sum is the sum
    of the integers. On a buffer of 100 bytes: [allocate(60)] is
    served at offset 0, a following [allocate(50)] fails and leaves the
    offset at 60, and a following [allocate(40)] is served at offset 60
    when 60 is a multiple of the alignment asked for. *)
Theorem linear_allocate_out_of_memory (dbg : bool) :
  (forall a size tag alignment,
     to_size_t (LinearAllocator.alignedOffset a alignment + size)
       > LinearAllocator.m_Size a ->
     (LinearAllocator.Allocate dbg a size tag alignment).1 = (nullptr, a))
  /\ (forall a size tag alignment r,
        power_of_two alignment ->
        0 <= LinearAllocator.m_Offset a ->
        LinearAllocator.m_Offset a + (alignment - 1) < size_t_modulus ->
        LinearAllocator.m_Offset a <= r
          < LinearAllocator.m_Offset a + alignment ->
        r mod alignment = 0 ->
        0 <= size -> r + size < size_t_modulus ->
        r + size > LinearAllocator.m_Size a ->
        (LinearAllocator.Allocate dbg a size tag alignment).1 = (nullptr, a))
  /\ (forall buffer tag al1 al2 al3,
        power_of_two al1 -> power_of_two al2 -> power_of_two al3 ->
        60 mod al3 = 0 ->
        let a0 := (LinearAllocator.new dbg 100 buffer).1 in
        let r1 := LinearAllocator.Allocate dbg a0 60 tag al1 in
        let r2 := LinearAllocator.Allocate dbg r1.1.2 50 tag al2 in
        let r3 := LinearAllocator.Allocate dbg r2.1.2 40 tag al3 in
        r1.1.1 = buffer + 0 /\ LinearAllocator.m_Offset r1.1.2 = 60
        /\ r2.1.1 = nullptr /\ r2.1.2 = r1.1.2
        /\ LinearAllocator.m_Offset r2.1.2 = 60
        /\ r3.1.1 = buffer + 60 /\ LinearAllocator.m_Offset r3.1.2 = 100).
Proof.
  split; [intros; apply linear_Allocate_full; assumption |].
  split.
  { intros a size tag alignment r Hp Ho Hw Hr Hm Hs Hfit Hgt.
    destruct (linear_alignedOffset_bounds a alignment Hp Ho Hw) as [Hb Hm'].
    pose proof (power_of_two_bounds _ Hp) as Hbd.
    rewrite (multiple_in_window_unique alignment _ _ _ ltac:(lia) Hr Hb Hm Hm')
      in Hfit, Hgt.
    apply linear_Allocate_full.
    rewrite to_size_t_small by (unfold is_size_t; lia). exact Hgt. }
  intros buffer tag al1 al2 al3 H1 H2 H3 H60 a0 r1 r2 r3.
  pose proof (power_of_two_bounds _ H1) as B1.
  pose proof (power_of_two_bounds _ H2) as B2.
  pose proof (power_of_two_bounds _ H3) as B3.
  assert (M : size_t_modulus = 2 * 2 ^ 63) by reflexivity.
  assert (E1 : LinearAllocator.alignedOffset a0 al1 = 0).
  { apply linear_alignedOffset_aligned; simpl; try lia; try assumption.
    apply Z.mod_0_l; lia. }
  assert (R1 : r1 = (buffer + 0,
                     {| LinearAllocator.m_Buffer := buffer;
                        LinearAllocator.m_Size := 100;
                        LinearAllocator.m_Offset := 60;
                        LinearAllocator.m_Stats := on_allocation zero_stats 60 |},
                     [])).
  { subst r1. rewrite linear_Allocate_fits; rewrite ?E1; simpl;
      [reflexivity | lia | vm_compute; discriminate]. }
  set (a1 := r1.1.2). assert (A1 : a1 = r1.1.2) by reflexivity.
  rewrite R1 in A1; simpl in A1.
  destruct (linear_alignedOffset_bounds a1 al2 H2) as [E2 _];
    [rewrite A1; simpl; lia | rewrite A1; simpl; lia |].
  assert (O1 : LinearAllocator.m_Offset a1 = 60) by (rewrite A1; reflexivity).
  rewrite O1 in E2.
  assert (R2 : r2.1 = (nullptr, a1)).
  { subst r2. apply linear_Allocate_full.
    rewrite to_size_t_small by (unfold is_size_t; lia).
    rewrite A1 at 2; simpl. lia. }
  assert (A2 : r2.1.2 = a1) by (rewrite R2; reflexivity).
  assert (E3 : LinearAllocator.alignedOffset a1 al3 = 60).
  { transitivity (LinearAllocator.m_Offset a1); [| exact O1].
    apply linear_alignedOffset_aligned; rewrite ?O1; try lia; assumption. }
  assert (R3 : r3 = (buffer + 60,
                     {| LinearAllocator.m_Buffer := buffer;
                        LinearAllocator.m_Size := 100;
                        LinearAllocator.m_Offset := 100;
                        LinearAllocator.m_Stats :=
                          on_allocation (on_allocation zero_stats 60) 40 |},
                     [])).
  { subst r3. rewrite A2.
    rewrite linear_Allocate_fits; rewrite ?E3, ?A1; simpl;
      [reflexivity | lia | vm_compute; discriminate]. }
  rewrite R2, R3, O1. fold a1. rewrite R1. simpl. tauto.
Qed.

(** [LinearAllocator::Allocate] compares [alignedOffset + size], a
    [size_t] sum, with [m_Size] and has no test for the sum passing 2^64.
    A request whose size takes the aligned offset past 2^64 exceeds the
    buffer, yet when the wrapped sum is at most [m_Size] it is served:
    the pointer returned is the buffer start plus the aligned offset, the
    offset moves back to the wrapped sum, and the statistics count the
    allocation. *)
Lemma linear_Allocate_wraps dbg a size tag alignment :
  power_of_two alignment ->
  0 <= LinearAllocator.m_Offset a ->
  LinearAllocator.m_Offset a + (alignment - 1) < size_t_modulus ->
  0 < size < size_t_modulus ->
  LinearAllocator.m_Size a < size_t_modulus ->
  let r := LinearAllocator.alignedOffset a alignment in
  size_t_modulus <= r + size ->
  r + size - size_t_modulus <= LinearAllocator.m_Size a ->
  r + size > LinearAllocator.m_Size a
  /\ exists a',
       LinearAllocator.Allocate dbg a size tag alignment
       = (LinearAllocator.m_Buffer a + r, a', [])
       /\ LinearAllocator.m_Offset a' = r + size - size_t_modulus
       /\ LinearAllocator.m_Offset a' < r
       /\ totalAllocated (LinearAllocator.m_Stats a')
          = to_size_t (totalAllocated (LinearAllocator.m_Stats a) + size)
       /\ currentUsage (LinearAllocator.m_Stats a')
          = to_size_t (currentUsage (LinearAllocator.m_Stats a) + size)
       /\ allocationCount (LinearAllocator.m_Stats a')
          = to_size_t (allocationCount (LinearAllocator.m_Stats a) + 1).
Proof.
  intros Hp Ho Hw Hs Hsz r Hwrap Hfit.
  destruct (linear_alignedOffset_bounds a alignment Hp Ho Hw) as [Hb _].
  fold r in Hb.
  assert (E : to_size_t (r + size) = r + size - size_t_modulus).
  { unfold to_size_t. symmetry. apply (Z.mod_unique_pos _ _ 1); lia. }
  split; [lia |]. eexists.
  split; [| split; [| split; [| split; [| split]]]].
  - apply linear_Allocate_fits; [lia |]. fold r. rewrite E. exact Hfit.
  - simpl. fold r. exact E.
  - simpl. fold r. rewrite E. lia.
  - reflexivity.
  - reflexivity.
  - reflexivity.
Qed.

(** C6 fails where the sum wraps. On a buffer of 100 bytes at 4096 with
    60 bytes taken, a request of 2^64 - 10 bytes with alignment 1 has its
    aligned offset at 60, and 60 plus the size exceeds 100; the [size_t]
    sum that [LinearAllocator::Allocate] compares with [m_Size] is 50.
    The request is served: the pointer returned is 4156, no assertion is
    raised, the offset moves back from 60 to 50, and the statistics count
    a second allocation, with [totalAllocated] and [currentUsage] wrapped
    to 50. *)
Theorem linear_allocate_size_wraps (dbg : bool) :
  let a0 := (LinearAllocator.new dbg 100 4096).1 in
  let a1 := (LinearAllocator.Allocate dbg a0 60 MemoryTag.NoTag 1).1.2 in
  let size := size_t_modulus - 10 in
  let r := LinearAllocator.Allocate dbg a1 size MemoryTag.NoTag 1 in
  is_size_t size
  /\ LinearAllocator.m_Size a1 = 100
  /\ LinearAllocator.m_Offset a1 = 60
  /\ LinearAllocator.alignedOffset a1 1 = 60
  /\ LinearAllocator.alignedOffset a1 1 + size > LinearAllocator.m_Size a1
  /\ to_size_t (LinearAllocator.alignedOffset a1 1 + size) = 50
  /\ LinearAllocator.GetStats a1
     = {| totalAllocated := 60; totalFreed := 0; currentUsage := 60;
          peakUsage := 60; allocationCount := 1; freeCount := 0 |}
  /\ r.1.1 = 4156 /\ r.1.1 <> nullptr /\ r.2 = []
  /\ LinearAllocator.m_Offset r.1.2 = 50
  /\ LinearAllocator.GetStats r.1.2
     = {| totalAllocated := 50; totalFreed := 0; currentUsage := 50;
          peakUsage := 60; allocationCount := 2; freeCount := 0 |}.
Proof.
  cbv zeta. unfold is_size_t.
  split; [vm_compute; split; [discriminate | reflexivity] |].
  destruct dbg; repeat split; vm_compute; congruence.
Qed.

(** ** PoolAllocator: the slots *)

Section PoolSlots.
Variable a : PoolAllocator.t.
Hypothesis wf : PoolAllocator.well_formed a.

Local Abbreviation buffer := (PoolAllocator.m_Buffer a).
Local Abbreviation aligned := (PoolAllocator.m_AlignedElementSize a).
Local Abbreviation count := (PoolAllocator.m_ElementCount a).

Lemma pool_block_exact i :
  0 <= i < count ->
  PoolAllocator.block buffer aligned i = buffer + i * aligned.
Proof using wf.
  intros Hi. destruct wf. unfold PoolAllocator.block, PoolAllocator.sizeof_uintptr_t in *.
  rewrite to_size_t_small; [reflexivity |]. unfold is_size_t. nia.
Qed.

Lemma pool_count_size_t : is_size_t count /\ is_size_t (aligned * count).
Proof using wf.
  destruct wf. unfold is_size_t, PoolAllocator.sizeof_uintptr_t in *. nia.
Qed.

Lemma pool_elem_of_slots p :
  p ∈ PoolAllocator.slots a <->
  exists i, 0 <= i < count /\ p = buffer + i * aligned.
Proof using wf.
  unfold PoolAllocator.slots. rewrite list_elem_of_fmap. split.
  - intros (n & -> & Hn). apply elem_of_seq in Hn.
    exists (Z.of_nat n).
    assert (0 <= Z.of_nat n < count) by lia.
    split; [assumption |]. apply pool_block_exact; assumption.
  - intros (i & Hi & ->). exists (Z.to_nat i). split.
    + rewrite Z2Nat.id by lia. symmetry. apply pool_block_exact; assumption.
    + apply elem_of_seq. lia.
Qed.

Lemma pool_slots_length :
  Z.of_nat (length (PoolAllocator.slots a)) = count.
Proof using wf.
  unfold PoolAllocator.slots. rewrite length_map, length_seq.
  destruct wf. lia.
Qed.

Lemma pool_slots_NoDup : NoDup (PoolAllocator.slots a).
Proof using wf.
  unfold PoolAllocator.slots. apply NoDup_fmap_2_strong; [| apply NoDup_seq].
  intros n m Hn Hm E. apply elem_of_seq in Hn, Hm.
  rewrite !pool_block_exact in E by lia.
  destruct wf. unfold PoolAllocator.sizeof_uintptr_t in *.
  nia.
Qed.

Lemma pool_slot_nonnull p : p ∈ PoolAllocator.slots a -> p <> nullptr.
Proof using wf.
  rewrite pool_elem_of_slots. intros (i & Hi & ->).
  destruct wf. unfold PoolAllocator.sizeof_uintptr_t, nullptr in *. nia.
Qed.

Lemma pool_slot_in_range p :
  p ∈ PoolAllocator.slots a -> buffer <= p < buffer + aligned * count.
Proof using wf.
  rewrite pool_elem_of_slots. intros (i & Hi & ->).
  destruct wf. unfold PoolAllocator.sizeof_uintptr_t in *. nia.
Qed.

(** Two different slots do not overlap. *)
Lemma pool_slots_apart p q :
  p ∈ PoolAllocator.slots a -> q ∈ PoolAllocator.slots a -> p <> q ->
  p + aligned <= q \/ q + aligned <= p.
Proof using wf.
  rewrite !pool_elem_of_slots. intros (i & Hi & ->) (j & Hj & ->) Hne.
  destruct wf. unfold PoolAllocator.sizeof_uintptr_t in *.
  assert (i < j \/ j < i) as [H | H] by (destruct (Z.eq_dec i j); [subst; congruence | lia]);
    [left | right]; nia.
Qed.

End PoolSlots.

(** ** PoolAllocator: threading the free list *)

Lemma link_blocks_other buffer aligned p : forall n i mem,
  (forall j, i <= j < i + Z.of_nat n ->
             PoolAllocator.block buffer aligned j <> p) ->
  PoolAllocator.link_blocks n i buffer aligned mem !! p = mem !! p.
Proof.
  induction n as [| n IH]; intros i mem Hp; simpl; [reflexivity |].
  rewrite IH by (intros j Hj; apply Hp; lia).
  apply lookup_insert_ne, Hp. lia.
Qed.

Lemma link_blocks_lookup buffer aligned lo hi :
  (forall j k, lo <= j <= hi -> lo <= k <= hi ->
     PoolAllocator.block buffer aligned j = PoolAllocator.block buffer aligned k ->
     j = k) ->
  forall n i mem j,
    lo <= i -> i + Z.of_nat n <= hi -> i <= j < i + Z.of_nat n ->
    PoolAllocator.link_blocks n i buffer aligned mem
      !! PoolAllocator.block buffer aligned j
    = Some (PoolAllocator.block buffer aligned (j + 1)).
Proof.
  intros Hinj. induction n as [| n IH]; intros i mem j Hlo Hhi Hj; [lia |].
  simpl. destruct (Z.eq_dec j i) as [-> | Hne].
  - rewrite link_blocks_other.
    + apply lookup_insert_eq.
    + intros k Hk E. apply Hinj in E; lia.
  - apply IH; lia.
Qed.

Section PoolThread.
Variable a : PoolAllocator.t.
Hypothesis wf : PoolAllocator.well_formed a.
Variable mem : gmap Z Z.

Local Abbreviation buffer := (PoolAllocator.m_Buffer a).
Local Abbreviation aligned := (PoolAllocator.m_AlignedElementSize a).
Local Abbreviation count := (PoolAllocator.m_ElementCount a).
Local Abbreviation threaded :=
  (PoolAllocator.thread_free_list buffer aligned count mem).

Lemma pool_block_inj j k :
  0 <= j <= count - 1 -> 0 <= k <= count - 1 ->
  PoolAllocator.block buffer aligned j = PoolAllocator.block buffer aligned k ->
  j = k.
Proof using wf.
  intros Hj Hk. rewrite !(pool_block_exact a wf) by lia.
  destruct wf. unfold PoolAllocator.sizeof_uintptr_t in *. nia.
Qed.

Lemma pool_last_index : to_size_t (count - 1) = count - 1.
Proof using wf.
  pose proof (pool_count_size_t a wf) as [Hc _].
  destruct wf. apply to_size_t_small. unfold is_size_t in *. lia.
Qed.

(** Each slot but the last holds the address of the next one. *)
Lemma thread_lookup_next i :
  0 <= i < count - 1 ->
  threaded !! (buffer + i * aligned) = Some (buffer + (i + 1) * aligned).
Proof using wf.
  intros Hi. unfold PoolAllocator.thread_free_list.
  rewrite pool_last_index.
  rewrite <- !(pool_block_exact a wf) by lia.
  rewrite lookup_insert_ne by (intros E; apply pool_block_inj in E; lia).
  apply (link_blocks_lookup buffer aligned 0 (count - 1) pool_block_inj);
    lia.
Qed.

(** The last slot holds null. *)
Lemma thread_lookup_last :
  threaded !! (buffer + (count - 1) * aligned) = Some 0.
Proof using wf.
  unfold PoolAllocator.thread_free_list. rewrite pool_last_index.
  destruct wf.
  rewrite <- !(pool_block_exact a wf) by lia.
  apply lookup_insert_eq.
Qed.

Lemma thread_chain_from : forall (m i : nat),
  (i + S m)%nat = Z.to_nat count ->
  PoolAllocator.chain threaded
    (PoolAllocator.block buffer aligned (Z.of_nat i))
    (map (fun i => PoolAllocator.block buffer aligned (Z.of_nat i))
         (seq i (S m))).
Proof using wf.
  pose proof wf as [Hc Ha Hb Hx].
  induction m as [| m IH]; intros i Hi.
  - simpl. eapply PoolAllocator.chain_cons.
    + apply (pool_slot_nonnull a wf), (pool_elem_of_slots a wf).
      exists (Z.of_nat i). split; [lia |]. apply pool_block_exact; [exact wf | lia].
    + rewrite (pool_block_exact a wf) by lia.
      replace (Z.of_nat i) with (count - 1) by lia.
      apply thread_lookup_last.
    + apply PoolAllocator.chain_nil.
  - cbn [seq map]. eapply PoolAllocator.chain_cons.
    + apply (pool_slot_nonnull a wf), (pool_elem_of_slots a wf).
      exists (Z.of_nat i). split; [lia |]. apply pool_block_exact; [exact wf | lia].
    + rewrite (pool_block_exact a wf) by lia.
      apply thread_lookup_next. lia.
    + replace (buffer + (Z.of_nat i + 1) * aligned)
        with (PoolAllocator.block buffer aligned (Z.of_nat (S i)))
        by (rewrite (pool_block_exact a wf) by lia; f_equal; lia).
      apply (IH (S i)). lia.
Qed.

(** After threading, the free list is every slot, in buffer order. *)
Lemma thread_chain :
  PoolAllocator.chain threaded buffer (PoolAllocator.slots a).
Proof using wf.
  pose proof wf as [Hc Ha Hb Hx].
  unfold PoolAllocator.slots.
  destruct (Z.to_nat count) as [| m] eqn:E; [lia |].
  replace buffer with (PoolAllocator.block buffer aligned (Z.of_nat 0)) at 2
    by (rewrite (pool_block_exact a wf) by lia; simpl; lia).
  apply thread_chain_from. lia.
Qed.

End PoolThread.

(** ** PoolAllocator: the operations *)

Lemma pool_Allocate_inv dbg a mem size tag alignment ptr a' rs :
  PoolAllocator.Allocate dbg a mem size tag alignment = Some (ptr, a', rs) ->
  (ptr = nullptr /\ a' = a)
  \/ (ptr <> nullptr /\ size <= PoolAllocator.m_ElementSize a
      /\ ptr = PoolAllocator.m_FreeList a
      /\ mem !! ptr = Some (PoolAllocator.m_FreeList a')
      /\ PoolAllocator.same_pool a a'
      /\ PoolAllocator.m_FreeCount a'
         = to_size_t (PoolAllocator.m_FreeCount a - 1)
      /\ PoolAllocator.m_Stats a'
         = on_allocation (PoolAllocator.m_Stats a)
             (PoolAllocator.m_ElementSize a)
      /\ rs = []).
Proof.
  unfold PoolAllocator.Allocate. intros H.
  destruct (Z.gtb_spec size (PoolAllocator.m_ElementSize a)) as [Hgt | Hle];
    [injection H as <- <- _; left; split; reflexivity |].
  destruct (Z.eqb_spec (PoolAllocator.m_FreeList a) nullptr) as [Hnull | Hnn];
    [injection H as <- <- _; left; split; reflexivity |].
  destruct (mem !! PoolAllocator.m_FreeList a) as [next |] eqn:Hnext;
    [| discriminate].
  injection H as <- <- <-. right. unfold PoolAllocator.same_pool. simpl.
  repeat split; assumption.
Qed.

Lemma pool_Free_accepted dbg a mem ptr :
  ptr <> nullptr ->
  PoolAllocator.m_Buffer a <= ptr
    < PoolAllocator.m_Buffer a
      + to_size_t (PoolAllocator.m_AlignedElementSize a
                   * PoolAllocator.m_ElementCount a) ->
  PoolAllocator.Free dbg a mem ptr
  = ({| PoolAllocator.m_Buffer := PoolAllocator.m_Buffer a;
        PoolAllocator.m_FreeList := ptr;
        PoolAllocator.m_ElementSize := PoolAllocator.m_ElementSize a;
        PoolAllocator.m_ElementCount := PoolAllocator.m_ElementCount a;
        PoolAllocator.m_AlignedElementSize :=
          PoolAllocator.m_AlignedElementSize a;
        PoolAllocator.m_FreeCount :=
          to_size_t (PoolAllocator.m_FreeCount a + 1);
        PoolAllocator.m_Stats :=
          on_deallocation (PoolAllocator.m_Stats a)
            (PoolAllocator.m_ElementSize a) |},
     <[ptr := PoolAllocator.m_FreeList a]> mem,
     []).
Proof.
  intros Hnn Hr. unfold PoolAllocator.Free.
  rewrite (proj2 (Z.eqb_neq _ _)) by exact Hnn.
  rewrite (proj2 (Z.ltb_ge _ _)) by lia.
  destruct (Z.geb_spec ptr
              (PoolAllocator.m_Buffer a
               + to_size_t (PoolAllocator.m_AlignedElementSize a
                            * PoolAllocator.m_ElementCount a)));
    [lia | reflexivity].
Qed.

(** ** PoolAllocator: the free list *)

Lemma chain_null mem l : PoolAllocator.chain mem nullptr l -> l = [].
Proof. inversion 1; [reflexivity | congruence]. Qed.

Lemma chain_head mem p l :
  PoolAllocator.chain mem p l -> p <> nullptr ->
  exists q l', l = p :: l' /\ mem !! p = Some q /\ PoolAllocator.chain mem q l'.
Proof. inversion 1; [congruence | eauto]. Qed.

Lemma chain_functional mem p l1 :
  PoolAllocator.chain mem p l1 ->
  forall l2, PoolAllocator.chain mem p l2 -> l1 = l2.
Proof.
  induction 1 as [| p q l Hp Hq Hc IH]; intros l2 H2.
  - symmetry. eapply chain_null, H2.
  - apply chain_head in H2 as (q' & l' & -> & Hq' & Hc'); [| exact Hp].
    rewrite Hq in Hq'. injection Hq' as <-. f_equal. apply IH, Hc'.
Qed.

(** A store outside the free list leaves it as it is. *)
Lemma chain_insert mem p l addr value :
  PoolAllocator.chain mem p l -> addr ∉ l ->
  PoolAllocator.chain (<[addr := value]> mem) p l.
Proof.
  induction 1 as [| p q l Hp Hq Hc IH]; intros Hn.
  - constructor.
  - apply not_elem_of_cons in Hn as [Hne Hn].
    econstructor; [exact Hp | | apply IH, Hn].
    rewrite lookup_insert_ne by congruence. exact Hq.
Qed.

Lemma same_pool_refl a : PoolAllocator.same_pool a a.
Proof. repeat split. Qed.

Lemma same_pool_trans a b c :
  PoolAllocator.same_pool a b -> PoolAllocator.same_pool b c ->
  PoolAllocator.same_pool a c.
Proof.
  unfold PoolAllocator.same_pool.
  intros (? & ? & ? & ?) (? & ? & ? & ?). repeat split; congruence.
Qed.

Lemma same_pool_well_formed a0 a :
  PoolAllocator.same_pool a0 a -> PoolAllocator.well_formed a0 ->
  PoolAllocator.well_formed a.
Proof.
  intros (Hb & He & Hc & Ha) [? ? ? ?].
  constructor; rewrite ?Hb, ?He, ?Hc, ?Ha; assumption.
Qed.

Lemma same_pool_slots a0 a :
  PoolAllocator.same_pool a0 a ->
  PoolAllocator.slots a = PoolAllocator.slots a0.
Proof.
  intros (Hb & He & Hc & Ha). unfold PoolAllocator.slots.
  rewrite Hb, Hc, Ha. reflexivity.
Qed.

(** ** PoolAllocator: the invariant *)

Lemma invariant_counts a live free :
  PoolAllocator.well_formed a ->
  free ++ live ≡ₚ PoolAllocator.slots a ->
  Z.of_nat (length free) + Z.of_nat (length live)
    = PoolAllocator.m_ElementCount a
  /\ NoDup (free ++ live)
  /\ is_size_t (PoolAllocator.m_ElementCount a).
Proof.
  intros wf Hp. split; [| split].
  - rewrite <- (pool_slots_length a wf), <- Hp, length_app. lia.
  - rewrite Hp. apply pool_slots_NoDup, wf.
  - apply (pool_count_size_t a wf).
Qed.

Lemma invariant_new dbg elementSize elementCount alignment buffer mem :
  let r := PoolAllocator.new dbg elementSize elementCount alignment buffer mem in
  PoolAllocator.well_formed r.1.1 ->
  PoolAllocator.invariant r.1.1 r.1.2 [].
Proof.
  intros r wf. exists (PoolAllocator.slots r.1.1).
  split; [| split].
  - apply (thread_chain r.1.1 wf).
  - rewrite app_nil_r. reflexivity.
  - symmetry. apply (pool_slots_length r.1.1 wf).
Qed.

Lemma invariant_Reset a mem :
  PoolAllocator.well_formed a ->
  PoolAllocator.invariant (PoolAllocator.Reset a mem).1
    (PoolAllocator.Reset a mem).2 [].
Proof.
  intros wf. exists (PoolAllocator.slots a). split; [| split].
  - apply (thread_chain a wf).
  - rewrite app_nil_r. reflexivity.
  - symmetry. apply (pool_slots_length a wf).
Qed.

Lemma invariant_Allocate dbg a mem live size tag alignment ptr a' rs :
  PoolAllocator.well_formed a ->
  PoolAllocator.invariant a mem live ->
  PoolAllocator.Allocate dbg a mem size tag alignment = Some (ptr, a', rs) ->
  ptr <> nullptr ->
  PoolAllocator.invariant a' mem (ptr :: live).
Proof.
  intros wf (free & Hc & Hp & Hn) HA Hnn.
  apply pool_Allocate_inv in HA
    as [[-> _] | (_ & _ & -> & Hw & Hsame & Hfc & _ & _)]; [congruence |].
  apply chain_head in Hc as (q & l' & -> & Hq & Hc); [| exact Hnn].
  rewrite Hw in Hq. injection Hq as <-.
  destruct (invariant_counts a live _ wf Hp) as (Hlen & _ & Hsz).
  exists l'. split; [exact Hc | split].
  - rewrite (same_pool_slots a a' Hsame), <- Hp.
    simpl. symmetry. apply Permutation_middle.
  - rewrite Hfc, Hn. simpl length in *.
    rewrite to_size_t_small; [lia |]. unfold is_size_t in *. lia.
Qed.

Lemma invariant_live_slot a mem live ptr :
  PoolAllocator.well_formed a ->
  PoolAllocator.invariant a mem live -> ptr ∈ live ->
  ptr ∈ PoolAllocator.slots a.
Proof.
  intros wf (free & _ & Hp & _) Hl.
  rewrite <- Hp. apply elem_of_app. right; exact Hl.
Qed.

Lemma invariant_Free dbg a mem live1 ptr live2 :
  PoolAllocator.well_formed a ->
  PoolAllocator.invariant a mem (live1 ++ ptr :: live2) ->
  PoolAllocator.same_pool a (PoolAllocator.Free dbg a mem ptr).1.1
  /\ PoolAllocator.invariant (PoolAllocator.Free dbg a mem ptr).1.1
       (PoolAllocator.Free dbg a mem ptr).1.2 (live1 ++ live2).
Proof.
  intros wf Hinv.
  assert (Hslot : ptr ∈ PoolAllocator.slots a).
  { apply (invariant_live_slot a mem _ ptr wf Hinv).
    apply elem_of_app. right. apply elem_of_cons. left; reflexivity. }
  destruct Hinv as (free & Hc & Hp & Hn).
  destruct (invariant_counts a _ _ wf Hp) as (Hlen & Hnd & Hsz).
  pose proof (pool_slot_nonnull a wf ptr Hslot) as Hnn.
  pose proof (pool_slot_in_range a wf ptr Hslot) as Hr.
  pose proof (pool_count_size_t a wf) as [_ Hext].
  rewrite pool_Free_accepted
    by (try assumption; rewrite to_size_t_small by exact Hext; exact Hr).
  simpl. split; [repeat split |].
  exists (ptr :: free). split; [| split].
  - econstructor; [exact Hnn | apply lookup_insert_eq |].
    apply chain_insert; [exact Hc |].
    apply NoDup_app in Hnd as (_ & Hdis & _).
    intros Hin. apply (Hdis ptr Hin).
    apply elem_of_app. right. apply elem_of_cons. left; reflexivity.
  - rewrite <- Hp. simpl.
    rewrite !app_assoc. apply Permutation_middle.
  - simpl PoolAllocator.m_FreeCount. rewrite Hn.
    rewrite length_app in Hlen. simpl length in *.
    rewrite to_size_t_small; [lia |]. unfold is_size_t in *. lia.
Qed.

Lemma invariant_write a mem live ptr addr value :
  PoolAllocator.well_formed a ->
  PoolAllocator.invariant a mem live ->
  ptr ∈ live ->
  ptr <= addr /\
  addr + PoolAllocator.sizeof_uintptr_t
    <= ptr + PoolAllocator.m_AlignedElementSize a ->
  PoolAllocator.invariant a (<[addr := value]> mem) live.
Proof.
  intros wf Hinv Hl Haddr.
  pose proof (invariant_live_slot a mem live ptr wf Hinv Hl) as Hslot.
  destruct Hinv as (free & Hc & Hp & Hn).
  destruct (invariant_counts a _ _ wf Hp) as (_ & Hnd & _).
  exists free. split; [| split; assumption].
  apply chain_insert; [exact Hc |]. intros Hin.
  assert (Hq : addr ∈ PoolAllocator.slots a)
    by (rewrite <- Hp; apply elem_of_app; left; exact Hin).
  apply NoDup_app in Hnd as (_ & Hdis & _).
  assert (Hne : addr <> ptr) by (intros ->; exact (Hdis ptr Hin Hl)).
  destruct (pool_slots_apart a wf addr ptr Hq Hslot Hne);
    unfold PoolAllocator.sizeof_uintptr_t in *; lia.
Qed.

(** Every state of a pool used as intended keeps the members fixed at
    construction and satisfies the invariant. *)
Lemma reachable_invariant dbg a0 mem0 :
  PoolAllocator.well_formed a0 ->
  PoolAllocator.invariant a0 mem0 [] ->
  forall a mem live,
    PoolAllocator.reachable dbg a0 mem0 a mem live ->
    PoolAllocator.same_pool a0 a /\ PoolAllocator.invariant a mem live.
Proof.
  intros wf0 Hinv0 a mem live Hr.
  induction Hr as [| a mem live size tag alignment ptr a' rs Hr [Hs Hi] HA Hnn
                   | a mem live size tag alignment a' rs Hr [Hs Hi] HA
                   | a mem live1 ptr live2 Hr [Hs Hi]
                   | a mem live Hr [Hs Hi]
                   | a mem live ptr addr value Hr [Hs Hi] Hl Haddr].
  - split; [apply same_pool_refl | exact Hinv0].
  - pose proof (same_pool_well_formed a0 a Hs wf0) as wf.
    split; [| eapply invariant_Allocate; eassumption].
    apply pool_Allocate_inv in HA as [[-> _] | (_ & _ & _ & _ & Hs' & _)];
      [congruence |].
    eapply same_pool_trans; eassumption.
  - apply pool_Allocate_inv in HA as [[_ ->] | (Hnn & _)];
      [split; assumption | congruence].
  - pose proof (same_pool_well_formed a0 a Hs wf0) as wf.
    destruct (invariant_Free dbg a mem live1 ptr live2 wf Hi) as [Hs' Hi'].
    split; [eapply same_pool_trans; eassumption | exact Hi'].
  - pose proof (same_pool_well_formed a0 a Hs wf0) as wf.
    split; [| apply invariant_Reset, wf].
    eapply same_pool_trans; [exact Hs |]. repeat split.
  - pose proof (same_pool_well_formed a0 a Hs wf0) as wf.
    split; [exact Hs |]. eapply invariant_write; eassumption.
Qed.

(** C7. [PoolAllocator::Allocate] returns null, and leaves the pool as it
    was, when the size asked for exceeds [elementSize] and when the free
    list is empty. An allocation that succeeds returns the head of the
    free list, makes the word stored there the new head, takes one off
    the free count, and counts [elementSize] bytes in the statistics
    whatever size was asked for: [totalAllocated] and [currentUsage] grow
    by [elementSize], [allocationCount] by one, [peakUsage] is raised to
    the new usage where that is larger, and [totalFreed] and [freeCount]
    stay.
    In a pool built by the constructor and used as intended, the free list
    is empty exactly when [elementCount] pointers are live, an allowed size
    is always served while a slot is free, and the pointer returned is a
    slot that no live pointer occupies or overlaps. *)
Theorem pool_allocate_correct (dbg : bool) :
  (forall a mem size tag alignment,
     size > PoolAllocator.m_ElementSize a ->
     exists rs,
       PoolAllocator.Allocate dbg a mem size tag alignment
       = Some (nullptr, a, rs))
  /\ (forall a mem size tag alignment,
        PoolAllocator.m_FreeList a = nullptr ->
        exists rs,
          PoolAllocator.Allocate dbg a mem size tag alignment
          = Some (nullptr, a, rs))
  /\ (forall a mem size tag alignment ptr a' rs,
        PoolAllocator.Allocate dbg a mem size tag alignment
          = Some (ptr, a', rs) ->
        ptr <> nullptr ->
        ptr = PoolAllocator.m_FreeList a
        /\ mem !! ptr = Some (PoolAllocator.m_FreeList a')
        /\ PoolAllocator.m_Stats a'
           = on_allocation (PoolAllocator.m_Stats a)
               (PoolAllocator.m_ElementSize a)
        /\ size <= PoolAllocator.m_ElementSize a
        /\ PoolAllocator.m_FreeCount a'
           = to_size_t (PoolAllocator.m_FreeCount a - 1)
        /\ totalAllocated (PoolAllocator.m_Stats a')
           = to_size_t (totalAllocated (PoolAllocator.m_Stats a)
                        + PoolAllocator.m_ElementSize a)
        /\ currentUsage (PoolAllocator.m_Stats a')
           = to_size_t (currentUsage (PoolAllocator.m_Stats a)
                        + PoolAllocator.m_ElementSize a)
        /\ peakUsage (PoolAllocator.m_Stats a')
           = Z.max (peakUsage (PoolAllocator.m_Stats a))
               (currentUsage (PoolAllocator.m_Stats a'))
        /\ allocationCount (PoolAllocator.m_Stats a')
           = to_size_t (allocationCount (PoolAllocator.m_Stats a) + 1)
        /\ totalFreed (PoolAllocator.m_Stats a')
           = totalFreed (PoolAllocator.m_Stats a)
        /\ freeCount (PoolAllocator.m_Stats a')
           = freeCount (PoolAllocator.m_Stats a)
        /\ rs = [])
  /\ (forall elementSize elementCount alignment buffer mem0 a mem live,
        let r := PoolAllocator.new dbg elementSize elementCount alignment
                   buffer mem0 in
        PoolAllocator.well_formed r.1.1 ->
        PoolAllocator.reachable dbg r.1.1 r.1.2 a mem live ->
        (PoolAllocator.m_FreeList a = nullptr
         <-> Z.of_nat (length live) = elementCount)
        /\ (forall size tag requested,
              size <= PoolAllocator.m_ElementSize a ->
              PoolAllocator.m_FreeList a <> nullptr ->
              exists a',
                PoolAllocator.Allocate dbg a mem size tag requested
                = Some (PoolAllocator.m_FreeList a, a', []))
        /\ (forall size tag requested ptr a' rs,
              PoolAllocator.Allocate dbg a mem size tag requested
                = Some (ptr, a', rs) ->
              ptr <> nullptr ->
              ptr ∈ PoolAllocator.slots a /\ (ptr ∉ live)
              /\ (forall q, q ∈ live ->
                    q + PoolAllocator.m_AlignedElementSize a <= ptr
                    \/ ptr + PoolAllocator.m_AlignedElementSize a <= q))).
Proof.
  split; [| split; [| split]].
  - intros a mem size tag alignment H. unfold PoolAllocator.Allocate.
    rewrite (proj2 (Z.gtb_gt _ _)) by exact H. eauto.
  - intros a mem size tag alignment H. unfold PoolAllocator.Allocate.
    rewrite H. simpl. destruct (size >? _); eauto.
  - intros a mem size tag alignment ptr a' rs HA Hnn.
    apply pool_Allocate_inv in HA
      as [[-> _] | (_ & Hsz & Hp & Hw & _ & Hfc & Hst & Hrs)];
      [congruence |].
    split; [exact Hp |]. split; [exact Hw |]. split; [exact Hst |].
    split; [exact Hsz |]. split; [exact Hfc |]. rewrite Hst. simpl.
    repeat split; try assumption.
    destruct (Z.gtb_spec
                (to_size_t (currentUsage (PoolAllocator.m_Stats a)
                            + PoolAllocator.m_ElementSize a))
                (peakUsage (PoolAllocator.m_Stats a))); lia.
  - intros elementSize elementCount alignment buffer mem0 a mem live r wf0 Hr.
    destruct (reachable_invariant dbg r.1.1 r.1.2 wf0
                (invariant_new dbg _ _ _ _ _ wf0) a mem live Hr)
      as [Hs Hinv].
    pose proof (same_pool_well_formed _ _ Hs wf0) as wf.
    assert (Hcount : PoolAllocator.m_ElementCount a = elementCount)
      by (destruct Hs as (_ & _ & -> & _); reflexivity).
    destruct Hinv as (free & Hc & Hp & Hn).
    destruct (invariant_counts a live free wf Hp) as (Hlen & Hnd & _).
    split; [| split].
    + rewrite <- Hcount. split.
      * intros Hnull. rewrite Hnull in Hc. apply chain_null in Hc as ->.
        simpl in Hlen. lia.
      * intros Hfull. destruct free as [| p free];
          [inversion Hc; congruence | simpl in Hlen; lia].
    + intros size tag requested Hsz Hnn.
      apply chain_head in Hc as (q & l' & -> & Hq & _); [| exact Hnn].
      unfold PoolAllocator.Allocate.
      destruct (Z.gtb_spec size (PoolAllocator.m_ElementSize a)); [lia |].
      rewrite (proj2 (Z.eqb_neq _ _)) by exact Hnn.
      rewrite Hq. simpl. eauto.
    + intros size tag requested ptr a' rs HA Hnn.
      apply pool_Allocate_inv in HA
        as [[-> _] | (_ & _ & -> & _)]; [congruence |].
      apply chain_head in Hc as (q & l' & -> & Hq & _); [| exact Hnn].
      assert (Hin : PoolAllocator.m_FreeList a ∈ PoolAllocator.slots a)
        by (rewrite <- Hp; apply elem_of_cons; left; reflexivity).
      apply NoDup_app in Hnd as (_ & Hdis & _).
      assert (Hfresh : PoolAllocator.m_FreeList a ∉ live)
        by (apply Hdis, elem_of_cons; left; reflexivity).
      split; [exact Hin | split; [exact Hfresh |]].
      intros q' Hq'. apply (pool_slots_apart a wf); [| exact Hin |].
      * rewrite <- Hp. apply elem_of_app. right; exact Hq'.
      * intros ->. exact (Hfresh Hq').
Qed.

(** C8. Freeing a pointer that lies inside the pool's buffer and
    allocating right after returns that very pointer: [Free] makes it the
    head of the free list, storing the old head in its leading word, and
    the next [Allocate] of an allowed size pops it, which brings the old
    head back. This holds in particular for each live pointer of a pool
    used as intended. *)
Theorem pool_free_then_allocate (dbg : bool) :
  (forall a mem ptr size tag alignment,
     ptr <> nullptr ->
     PoolAllocator.m_Buffer a <= ptr
       < PoolAllocator.m_Buffer a
         + to_size_t (PoolAllocator.m_AlignedElementSize a
                      * PoolAllocator.m_ElementCount a) ->
     size <= PoolAllocator.m_ElementSize a ->
     let f := PoolAllocator.Free dbg a mem ptr in
     PoolAllocator.m_FreeList f.1.1 = ptr
     /\ f.1.2 !! ptr = Some (PoolAllocator.m_FreeList a)
     /\ exists a',
          PoolAllocator.Allocate dbg f.1.1 f.1.2 size tag alignment
            = Some (ptr, a', [])
          /\ PoolAllocator.m_FreeList a' = PoolAllocator.m_FreeList a)
  /\ (forall elementSize elementCount alignment buffer mem0 a mem live1 ptr
             live2 size tag requested,
        let r := PoolAllocator.new dbg elementSize elementCount alignment
                   buffer mem0 in
        PoolAllocator.well_formed r.1.1 ->
        PoolAllocator.reachable dbg r.1.1 r.1.2 a mem (live1 ++ ptr :: live2) ->
        size <= PoolAllocator.m_ElementSize a ->
        let f := PoolAllocator.Free dbg a mem ptr in
        exists a',
          PoolAllocator.Allocate dbg f.1.1 f.1.2 size tag requested
            = Some (ptr, a', [])).
Proof.
  assert (General : forall a mem ptr size tag alignment,
    ptr <> nullptr ->
    PoolAllocator.m_Buffer a <= ptr
      < PoolAllocator.m_Buffer a
        + to_size_t (PoolAllocator.m_AlignedElementSize a
                     * PoolAllocator.m_ElementCount a) ->
    size <= PoolAllocator.m_ElementSize a ->
    let f := PoolAllocator.Free dbg a mem ptr in
    PoolAllocator.m_FreeList f.1.1 = ptr
    /\ f.1.2 !! ptr = Some (PoolAllocator.m_FreeList a)
    /\ exists a',
         PoolAllocator.Allocate dbg f.1.1 f.1.2 size tag alignment
           = Some (ptr, a', [])
         /\ PoolAllocator.m_FreeList a' = PoolAllocator.m_FreeList a).
  { intros a mem ptr size tag alignment Hnn Hr Hsz f. subst f.
    rewrite pool_Free_accepted by assumption. simpl.
    split; [reflexivity | split; [apply lookup_insert_eq |]].
    unfold PoolAllocator.Allocate. simpl.
    destruct (Z.gtb_spec size (PoolAllocator.m_ElementSize a)); [lia |].
    rewrite (proj2 (Z.eqb_neq _ _)) by exact Hnn.
    rewrite lookup_insert_eq. simpl. eexists; split; reflexivity. }
  split; [exact General |].
  intros elementSize elementCount alignment buffer mem0 a mem live1 ptr live2
         size tag requested r wf0 Hr Hsz f.
  destruct (reachable_invariant dbg r.1.1 r.1.2 wf0
              (invariant_new dbg _ _ _ _ _ wf0) a mem _ Hr) as [Hs Hinv].
  pose proof (same_pool_well_formed _ _ Hs wf0) as wf.
  assert (Hslot : ptr ∈ PoolAllocator.slots a).
  { apply (invariant_live_slot a mem _ ptr wf Hinv).
    apply elem_of_app. right. apply elem_of_cons. left; reflexivity. }
  destruct (General a mem ptr size tag requested) as (_ & _ & a' & HA & _).
  - apply (pool_slot_nonnull a wf ptr Hslot).
  - rewrite to_size_t_small by apply (pool_count_size_t a wf).
    apply (pool_slot_in_range a wf ptr Hslot).
  - exact Hsz.
  - exists a'. exact HA.
Qed.

(** C9. [PoolAllocator::Reset] leaves the free list that the constructor
    built, whatever the free list, the counters and the memory were
    before: the head is the start of the buffer, each slot but the last
    holds the address of the next one, the last holds null, and
    [m_FreeCount] is [elementCount]. The free list is then every slot in
    buffer order, as after construction, and each slot's leading word is
    the one the constructor wrote. *)
Theorem pool_reset_rebuilds_free_list (dbg : bool)
    (elementSize elementCount alignment buffer : Z) (mem0 : gmap Z Z)
    (a : PoolAllocator.t) (mem : gmap Z Z) :
  let r := PoolAllocator.new dbg elementSize elementCount alignment buffer
             mem0 in
  let aligned := AlignUp elementSize alignment in
  PoolAllocator.well_formed r.1.1 ->
  PoolAllocator.same_pool r.1.1 a ->
  let s := PoolAllocator.Reset a mem in
  PoolAllocator.m_FreeList s.1 = buffer
  /\ (forall i, 0 <= i < elementCount - 1 ->
        s.2 !! (buffer + i * aligned) = Some (buffer + (i + 1) * aligned))
  /\ s.2 !! (buffer + (elementCount - 1) * aligned) = Some nullptr
  /\ PoolAllocator.m_FreeCount s.1 = elementCount
  /\ PoolAllocator.m_FreeList s.1 = PoolAllocator.m_FreeList r.1.1
  /\ PoolAllocator.m_FreeCount s.1 = PoolAllocator.m_FreeCount r.1.1
  /\ PoolAllocator.chain s.2 (PoolAllocator.m_FreeList s.1)
       (PoolAllocator.slots r.1.1)
  /\ PoolAllocator.chain r.1.2 (PoolAllocator.m_FreeList r.1.1)
       (PoolAllocator.slots r.1.1)
  /\ (forall p, p ∈ PoolAllocator.slots r.1.1 -> s.2 !! p = r.1.2 !! p).
Proof.
  intros r aligned wf0 Hs s. subst aligned.
  pose proof (same_pool_well_formed _ _ Hs wf0) as wf.
  pose proof Hs as (Hb & He & Hc & Ha). simpl in Hb, He, Hc, Ha.
  assert (Hnext : forall i, 0 <= i < elementCount - 1 ->
            s.2 !! (buffer + i * AlignUp elementSize alignment)
            = Some (buffer + (i + 1) * AlignUp elementSize alignment)).
  { intros i Hi. subst s; simpl. rewrite <- Hb, <- Ha.
    apply (thread_lookup_next a wf). lia. }
  assert (Hlast : s.2 !! (buffer + (elementCount - 1)
                                    * AlignUp elementSize alignment)
                  = Some nullptr).
  { subst s; simpl. rewrite <- Hb, <- Ha, <- Hc.
    apply (thread_lookup_last a wf). }
  repeat split; try assumption.
  - rewrite <- (same_pool_slots _ _ Hs). apply (thread_chain a wf).
  - apply (thread_chain r.1.1 wf0).
  - intros p Hp. apply (pool_elem_of_slots r.1.1 wf0) in Hp as (i & Hi & ->).
    simpl in Hi.
    change (PoolAllocator.m_Buffer r.1.1) with buffer.
    change (PoolAllocator.m_AlignedElementSize r.1.1)
      with (AlignUp elementSize alignment).
    destruct (Z.eq_dec i (elementCount - 1)) as [-> | Hne].
    + rewrite Hlast. symmetry. apply (thread_lookup_last r.1.1 wf0).
    + rewrite Hnext by lia. symmetry.
      apply (thread_lookup_next r.1.1 wf0). simpl. lia.
Qed.

(** ** Alignment of the pointers returned *)

Lemma AlignUp_aligned size alignment :
  power_of_two alignment -> AlignUp size alignment mod alignment = 0.
Proof.
  intros Ha. unfold AlignUp.
  apply land_not_mask_aligned; [exact Ha | apply to_size_t_range].
Qed.

Lemma mod_add_multiple a x y k :
  a <> 0 -> x mod a = 0 -> y mod a = 0 -> (x + k * y) mod a = 0.
Proof.
  intros Ha Hx Hy.
  apply Z.mod_divide in Hx, Hy; try exact Ha.
  apply Z.mod_divide; [exact Ha |].
  apply Z.divide_add_r; [exact Hx | apply Z.divide_mul_r, Hy].
Qed.

(** A power of two up to 64 divides 64, the size of the header and of a
    cache line. *)
Lemma power_of_two_divides_64 a :
  power_of_two a -> a <= 64 -> 64 mod a = 0.
Proof.
  intros (k & Hk & ->) Hle.
  assert (Hk6 : k <= 6).
  { destruct (Z_le_gt_dec k 6) as [H | H]; [exact H | exfalso].
    assert (2 ^ 7 <= 2 ^ k) by (apply Z.pow_le_mono_r; lia).
    change (2 ^ 7) with 128 in *. lia. }
  apply Z.mod_divide; [apply Z.pow_nonzero; lia |].
  exists (2 ^ (6 - k)). rewrite <- Z.pow_add_r by lia.
  replace (6 - k + k) with 6 by lia. reflexivity.
Qed.

(** With tracking on, the pointer returned is the platform's block moved
    past the header. *)
Lemma system_Allocate_tracked dbg a heap size tag alignment memory ptr a'
    heap' rs :
  SystemAllocator.m_TrackingEnabled a = true ->
  SystemAllocator.Allocate dbg a heap size tag alignment memory
    = Some (ptr, a', heap', rs) ->
  ptr <> nullptr ->
  ptr = memory + SystemAllocator.sizeof_AllocationHeader.
Proof.
  unfold SystemAllocator.Allocate. intros Ht H Hnn. rewrite Ht in H.
  destruct (size =? 0); [injection H as <-; congruence |].
  destruct (memory =? nullptr); [injection H as <-; congruence |].
  destruct (SystemAllocator.TrackAllocation _ _ _ _ _) as [[a1 hs] |];
    [| discriminate].
  injection H as <-. reflexivity.
Qed.

Lemma system_Allocate_untracked dbg a heap size tag alignment memory ptr a'
    heap' rs :
  SystemAllocator.m_TrackingEnabled a = false ->
  SystemAllocator.Allocate dbg a heap size tag alignment memory
    = Some (ptr, a', heap', rs) ->
  ptr <> nullptr ->
  ptr = memory.
Proof.
  unfold SystemAllocator.Allocate. intros Ht H Hnn. rewrite Ht in H.
  destruct (size =? 0); [injection H as <-; congruence |].
  destruct (memory =? nullptr); [injection H as <-; congruence |].
  injection H as <-. reflexivity.
Qed.

(** C2, as the code has it. A non-null pointer returned by [Allocate] for
    a power-of-two alignment is a multiple of that alignment when it
    comes from a SystemAllocator with tracking off (it is the platform's
    block, aligned as asked), when it comes from a SystemAllocator with
    tracking on and the alignment is at most [sizeof(AllocationHeader)]
    (it is the platform's block moved past the header, 64 bytes), and
    when it comes from a LinearAllocator whose buffer starts at a
    multiple of it, as the buffer does for every alignment up to
    [EDGE_CACHE_LINE_SIZE], with which it is allocated. A PoolAllocator
    does not read the alignment it is asked for: the pointer it returns
    is a multiple of the alignment given to its constructor, provided the
    buffer starts at one. *)
Theorem allocate_alignment_by_strategy (dbg : bool) :
  (forall a heap size tag alignment memory ptr a' heap' rs,
     SystemAllocator.m_TrackingEnabled a = false ->
     power_of_two alignment ->
     memory mod alignment = 0 ->
     SystemAllocator.Allocate dbg a heap size tag alignment memory
       = Some (ptr, a', heap', rs) ->
     ptr <> nullptr ->
     ptr mod alignment = 0)
  /\ (forall a size tag alignment ptr a' rs,
        power_of_two alignment ->
        LinearAllocator.m_Buffer a mod alignment = 0 ->
        LinearAllocator.Allocate dbg a size tag alignment = (ptr, a', rs) ->
        ptr <> nullptr ->
        ptr mod alignment = 0)
  /\ (forall elementSize elementCount alignment buffer mem0 a mem live
             size tag requested ptr a' rs,
        let r := PoolAllocator.new dbg elementSize elementCount alignment
                   buffer mem0 in
        PoolAllocator.well_formed r.1.1 ->
        power_of_two alignment ->
        buffer mod alignment = 0 ->
        PoolAllocator.reachable dbg r.1.1 r.1.2 a mem live ->
        PoolAllocator.Allocate dbg a mem size tag requested
          = Some (ptr, a', rs) ->
        ptr <> nullptr ->
        ptr mod alignment = 0)
  /\ (forall a heap size tag alignment memory ptr a' heap' rs,
        SystemAllocator.m_TrackingEnabled a = true ->
        power_of_two alignment ->
        alignment <= SystemAllocator.sizeof_AllocationHeader ->
        memory mod alignment = 0 ->
        SystemAllocator.Allocate dbg a heap size tag alignment memory
          = Some (ptr, a', heap', rs) ->
        ptr <> nullptr ->
        ptr = memory + SystemAllocator.sizeof_AllocationHeader
        /\ ptr mod alignment = 0)
  /\ (forall a size tag alignment ptr a' rs,
        power_of_two alignment ->
        alignment <= EDGE_CACHE_LINE_SIZE ->
        LinearAllocator.m_Buffer a mod EDGE_CACHE_LINE_SIZE = 0 ->
        LinearAllocator.Allocate dbg a size tag alignment = (ptr, a', rs) ->
        ptr <> nullptr ->
        ptr mod alignment = 0).
Proof.
  assert (Linear : forall a size tag alignment ptr a' rs,
            power_of_two alignment ->
            LinearAllocator.m_Buffer a mod alignment = 0 ->
            LinearAllocator.Allocate dbg a size tag alignment
              = (ptr, a', rs) ->
            ptr <> nullptr ->
            ptr mod alignment = 0).
  { intros a size tag alignment ptr a' rs Hp Hb HA Hnn.
    pose proof (power_of_two_bounds _ Hp) as Hbd.
    unfold LinearAllocator.Allocate in HA.
    destruct (size =? 0); [injection HA as <-; congruence |].
    destruct (_ >? _); [injection HA as <-; congruence |].
    injection HA as <- _ _.
    replace (LinearAllocator.alignedOffset a alignment)
      with (1 * LinearAllocator.alignedOffset a alignment) by lia.
    apply mod_add_multiple; [lia | exact Hb |].
    apply land_not_mask_aligned; [exact Hp | apply to_size_t_range]. }
  split; [| split; [| split; [| split]]].
  - intros a heap size tag alignment memory ptr a' heap' rs Ht _ Hm HA Hnn.
    rewrite (system_Allocate_untracked _ _ _ _ _ _ _ _ _ _ _ Ht HA Hnn).
    exact Hm.
  - exact Linear.
  - intros elementSize elementCount alignment buffer mem0 a mem live
           size tag requested ptr a' rs r wf0 Hp Hb Hr HA Hnn.
    pose proof (power_of_two_bounds _ Hp) as Hbd.
    destruct (reachable_invariant dbg r.1.1 r.1.2 wf0
                (invariant_new dbg _ _ _ _ _ wf0) a mem live Hr)
      as [Hs (free & Hc & Hperm & _)].
    apply pool_Allocate_inv in HA
      as [[-> _] | (_ & _ & -> & _)]; [congruence |].
    apply chain_head in Hc as (q & l' & -> & _); [| exact Hnn].
    assert (Hin : PoolAllocator.m_FreeList a ∈ PoolAllocator.slots r.1.1).
    { rewrite <- (same_pool_slots _ _ Hs), <- Hperm.
      apply elem_of_cons. left; reflexivity. }
    apply (pool_elem_of_slots r.1.1 wf0) in Hin as (i & _ & ->). simpl.
    apply mod_add_multiple; [lia | exact Hb | apply AlignUp_aligned, Hp].
  - intros a heap size tag alignment memory ptr a' heap' rs Ht Hp Hle Hm HA
           Hnn.
    pose proof (power_of_two_bounds _ Hp) as Hbd.
    rewrite (system_Allocate_tracked _ _ _ _ _ _ _ _ _ _ _ Ht HA Hnn).
    split; [reflexivity |].
    replace (memory + SystemAllocator.sizeof_AllocationHeader)
      with (memory + 1 * SystemAllocator.sizeof_AllocationHeader) by lia.
    apply mod_add_multiple; [lia | exact Hm |].
    apply (power_of_two_divides_64 _ Hp Hle).
  - intros a size tag alignment ptr a' rs Hp Hle Hb HA Hnn.
    pose proof (power_of_two_bounds _ Hp) as Hbd.
    apply (Linear a size tag alignment ptr a' rs Hp); [| exact HA | exact Hnn].
    pose proof (power_of_two_divides_64 _ Hp Hle) as Hd.
    apply Z.mod_divide in Hd, Hb; try lia; try discriminate.
    apply Z.mod_divide; [lia |].
    exact (Z.divide_trans _ _ _ Hd Hb).
Qed.

(** C2, as stated, fails in three places. A tracking SystemAllocator
    asked for 8 bytes aligned to 128 and given the platform block at 128
    returns 192, and 192 is not a multiple of 128: the header is 64 bytes
    whatever the alignment. A pool of four 32-byte slots built with
    alignment 16 at 4096 and asked twice for 32 bytes aligned to 64
    returns 4128 the second time. A LinearAllocator whose buffer sits at
    4160, a multiple of the cache line size its constructor asks for,
    returns 4160 for 8 bytes aligned to 128: it aligns the offset, not
    the address. *)
Lemma allocate_alignment_counterexample :
  (exists ptr a' heap' rs,
     power_of_two 128 /\ 128 mod 128 = 0
     /\ SystemAllocator.Allocate true (SystemAllocator.new true)
          {| SystemAllocator.blocks := ∅; SystemAllocator.headers := ∅ |}
          8 MemoryTag.NoTag 128 128
        = Some (ptr, a', heap', rs)
     /\ ptr <> nullptr /\ ptr mod 128 <> 0)
  /\ (exists ptr1 a1 ptr2 a2,
        let r := PoolAllocator.new false 32 4 16 4096 ∅ in
        power_of_two 64 /\ 4096 mod 64 = 0
        /\ PoolAllocator.Allocate false r.1.1 r.1.2 32 MemoryTag.NoTag 64
           = Some (ptr1, a1, [])
        /\ PoolAllocator.Allocate false a1 r.1.2 32 MemoryTag.NoTag 64
           = Some (ptr2, a2, [])
        /\ ptr2 <> nullptr /\ ptr2 mod 64 <> 0)
  /\ (exists a',
        let a := (LinearAllocator.new false 256 4160).1 in
        power_of_two 128 /\ 4160 mod EDGE_CACHE_LINE_SIZE = 0
        /\ LinearAllocator.Allocate false a 8 MemoryTag.NoTag 128
           = (4160, a', [])
        /\ 4160 <> nullptr /\ 4160 mod 128 <> 0).
Proof.
  split; [| split].
  - eexists _, _, _, _. split; [exists 7; split; [lia | reflexivity] |].
    split; [reflexivity |]. split; [vm_compute; reflexivity |].
    split; vm_compute; discriminate.
  - eexists _, _, _, _. cbv zeta.
    split; [exists 6; split; [lia | reflexivity] |].
    split; [reflexivity |]. split; [vm_compute; reflexivity |].
    split; [vm_compute; reflexivity |].
    split; vm_compute; discriminate.
  - eexists. cbv zeta.
    split; [exists 7; split; [lia | reflexivity] |].
    split; [reflexivity |]. split; [vm_compute; reflexivity |].
    split; vm_compute; discriminate.
Qed.

(** ** Requests of size zero *)

Lemma system_Allocate_zero dbg a heap tag alignment memory :
  SystemAllocator.Allocate dbg a heap 0 tag alignment memory
  = Some (nullptr, a, heap, []).
Proof. reflexivity. Qed.

Lemma linear_Allocate_zero dbg a tag alignment :
  LinearAllocator.Allocate dbg a 0 tag alignment = (nullptr, a, []).
Proof. reflexivity. Qed.

(** C3 fails for the pool. [PoolAllocator::Allocate] has no test for a
    size of zero, which its two siblings have: on a new pool of four
    32-byte slots at 4096 a request of 0 bytes is served like any other.
    It returns the first slot, 4096, moves the head of the free list to
    4128, takes the free count to 3 and counts 32 bytes allocated. *)
Theorem pool_allocate_zero_size (dbg : bool) :
  let r := PoolAllocator.new dbg 32 4 16 4096 ∅ in
  exists a',
    PoolAllocator.Allocate dbg r.1.1 r.1.2 0 MemoryTag.NoTag 16
      = Some (4096, a', [])
    /\ 4096 <> nullptr
    /\ PoolAllocator.m_FreeList r.1.1 = 4096
    /\ PoolAllocator.m_FreeList a' = 4128
    /\ PoolAllocator.m_FreeCount r.1.1 = 4
    /\ PoolAllocator.m_FreeCount a' = 3
    /\ PoolAllocator.GetStats r.1.1 = zero_stats
    /\ PoolAllocator.GetStats a'
       = {| totalAllocated := 32; totalFreed := 0; currentUsage := 32;
            peakUsage := 32; allocationCount := 1; freeCount := 0 |}.
Proof.
  intros r. eexists. split; [destruct dbg; vm_compute; reflexivity |].
  repeat split; discriminate.
Qed.

(** ** SystemAllocator *)

(** C5. With tracking on, a [Free] whose recovered header does not hold
    the guard value returns at once: the allocator (statistics, per-tag
    statistics, tracking list) and the heap (blocks held, headers) are
    those from before the call. In a debug build the corruption is
    reported; nothing else happens. *)
Theorem system_free_guard_mismatch (dbg : bool) (a : SystemAllocator.t)
    (heap : SystemAllocator.Heap) (ptr : Z)
    (h : SystemAllocator.AllocationHeader) :
  SystemAllocator.m_TrackingEnabled a = true ->
  ptr <> nullptr ->
  SystemAllocator.headers heap
    !! (ptr - SystemAllocator.sizeof_AllocationHeader) = Some h ->
  SystemAllocator.h_guardValue h <> SystemAllocator.GUARD_VALUE ->
  SystemAllocator.Free dbg a heap ptr
  = Some (a, heap,
          EDGE_ASSERT dbg false "false" "Memory corruption detected!").
Proof.
  intros Ht Hnn Hh Hg. unfold SystemAllocator.Free.
  rewrite (proj2 (Z.eqb_neq _ _)) by exact Hnn.
  rewrite Ht, Hh. simpl.
  rewrite (proj2 (Z.eqb_neq _ _)) by exact Hg. reflexivity.
Qed.

Lemma TrackAllocation_tag_length a hs header size tag a' hs' :
  SystemAllocator.TrackAllocation a hs header size tag = Some (a', hs') ->
  length (SystemAllocator.m_TagStats a')
  = length (SystemAllocator.m_TagStats a).
Proof.
  unfold SystemAllocator.TrackAllocation; intros Ht.
  assert (L : length (if (tag <? MemoryTag.COUNT)%nat
                      then alter (fun s => on_allocation s size) tag
                             (SystemAllocator.m_TagStats a)
                      else SystemAllocator.m_TagStats a)
              = length (SystemAllocator.m_TagStats a))
    by (destruct (tag <? MemoryTag.COUNT)%nat;
        [apply length_alter | reflexivity]).
  destruct (SystemAllocator.m_FirstAllocation a =? nullptr).
  - injection Ht as <- _; exact L.
  - destruct (SystemAllocator.update_header hs header _) as [hs1 |];
      [| discriminate]; simpl in Ht.
    destruct (SystemAllocator.update_header hs1 _ _) as [hs2 |];
      [| discriminate]; simpl in Ht.
    injection Ht as <- _; exact L.
Qed.

Lemma TrackDeallocation_tag_length a hs header a' hs' :
  SystemAllocator.TrackDeallocation a hs header = Some (a', hs') ->
  length (SystemAllocator.m_TagStats a')
  = length (SystemAllocator.m_TagStats a).
Proof.
  unfold SystemAllocator.TrackDeallocation; intros Ht.
  destruct (hs !! header) as [h |]; [| discriminate]; simpl in Ht.
  match type of Ht with
  | mbind _ ?m = _ => destruct m as [[first hs1] |]; [| discriminate]
  end; simpl in Ht.
  destruct (hs1 !! header) as [h1 |]; [| discriminate]; simpl in Ht.
  match type of Ht with
  | mbind _ ?m = _ => destruct m as [[last hs2] |]; [| discriminate]
  end; simpl in Ht.
  injection Ht as <- _; simpl.
  destruct (_ <? _)%nat; [apply length_alter | reflexivity].
Qed.

Lemma system_step_tag_length dbg s c s' :
  SystemAllocator.step dbg s c = Some s' ->
  length (SystemAllocator.m_TagStats s.1) = MemoryTag.COUNT ->
  length (SystemAllocator.m_TagStats s'.1) = MemoryTag.COUNT.
Proof.
  destruct s as [a heap]; intros Hs H; simpl in *.
  destruct c as [size tag alignment memory | ptr | | enabled | addr h];
    simpl in Hs.
  - unfold SystemAllocator.Allocate in Hs.
    destruct (size =? 0); [injection Hs as <-; exact H |].
    destruct (memory =? nullptr); [injection Hs as <-; exact H |].
    destruct (SystemAllocator.m_TrackingEnabled a);
      [| injection Hs as <-; exact H].
    destruct (SystemAllocator.TrackAllocation a _ memory size tag)
      as [[a1 hs1] |] eqn:Ht; [| discriminate].
    injection Hs as <-; simpl.
    rewrite (TrackAllocation_tag_length _ _ _ _ _ _ _ Ht). exact H.
  - unfold SystemAllocator.Free in Hs.
    destruct (ptr =? nullptr); [injection Hs as <-; exact H |].
    destruct (SystemAllocator.m_TrackingEnabled a);
      [| injection Hs as <-; exact H].
    destruct (SystemAllocator.headers heap !! _) as [h |];
      [| discriminate]; simpl in Hs.
    destruct (negb _); [injection Hs as <-; exact H |].
    destruct (SystemAllocator.TrackDeallocation a _ _)
      as [[a1 hs1] |] eqn:Ht; [| discriminate].
    injection Hs as <-; simpl.
    rewrite (TrackDeallocation_tag_length _ _ _ _ _ Ht). exact H.
  - injection Hs as <-; reflexivity.
  - injection Hs as <-; exact H.
  - injection Hs as <-; exact H.
Qed.

Lemma system_run_tag_length dbg cs : forall s s',
  SystemAllocator.run dbg s cs = Some s' ->
  length (SystemAllocator.m_TagStats s.1) = MemoryTag.COUNT ->
  length (SystemAllocator.m_TagStats s'.1) = MemoryTag.COUNT.
Proof.
  induction cs as [| c cs IH]; intros s s' Hr H; simpl in Hr.
  - injection Hr as <-; exact H.
  - destruct (SystemAllocator.step dbg s c) as [s1 |] eqn:Hs; [| discriminate].
    simpl in Hr. eapply IH; [exact Hr |].
    eapply system_step_tag_length; eauto.
Qed.

(** C10. [GetTagStats] writes zeroed statistics for a tag whose index is
    [COUNT] or more, whatever the allocator holds; for a tag below
    [COUNT] it writes the entry that [m_TagStats] holds for it, and the
    array of an allocator obtained from the constructor by any calls has
    such an entry for every tag below [COUNT]. *)
Theorem system_GetTagStats (a : SystemAllocator.t) (tag : MemoryTag.t) :
  ((MemoryTag.COUNT <= tag)%nat ->
     SystemAllocator.GetTagStats a tag = zero_stats)
  /\ ((tag < MemoryTag.COUNT)%nat ->
      forall s, SystemAllocator.m_TagStats a !! tag = Some s ->
                SystemAllocator.GetTagStats a tag = s)
  /\ ((tag < MemoryTag.COUNT)%nat ->
      forall dbg heap cs heap',
        SystemAllocator.run dbg (SystemAllocator.new dbg, heap) cs
          = Some (a, heap') ->
        exists s, SystemAllocator.m_TagStats a !! tag = Some s
                  /\ SystemAllocator.GetTagStats a tag = s).
Proof.
  unfold SystemAllocator.GetTagStats, MemoryTag.t in *. split; [| split].
  - intros H. rewrite (proj2 (Nat.ltb_ge _ _)) by exact H. reflexivity.
  - intros H s Hs. rewrite (proj2 (Nat.ltb_lt _ _)) by exact H.
    rewrite Hs. reflexivity.
  - intros H dbg heap cs heap' Hr.
    rewrite (proj2 (Nat.ltb_lt _ _)) by exact H.
    apply system_run_tag_length in Hr; [| apply length_replicate].
    simpl in Hr.
    destruct (lookup_lt_is_Some_2 (SystemAllocator.m_TagStats a) tag)
      as [s Hs]; [rewrite Hr; exact H |].
    exists s. rewrite Hs. split; reflexivity.
Qed.

(** ** Reset *)

(** C4, as stated, fails for each strategy: with one allocation
    outstanding, [Reset] goes through and changes the allocator. The
    linear allocator's offset goes from 60 back to 0; the pool's free
    list, down to three slots, is rebuilt from the buffer start; the
    system allocator (a release build with tracking switched on) has its
    statistics zeroed and reports nothing. *)
Lemma reset_with_live_allocations_counterexample :
  (let a := (LinearAllocator.Allocate false
               (LinearAllocator.new false 100 4096).1 60 MemoryTag.NoTag 4).1.2 in
   allocationCount (LinearAllocator.GetStats a)
     > freeCount (LinearAllocator.GetStats a)
   /\ LinearAllocator.m_Offset a = 60
   /\ LinearAllocator.m_Offset (LinearAllocator.Reset a) = 0)
  /\ (exists ptr a,
        let r := PoolAllocator.new false 32 4 16 4096 ∅ in
        PoolAllocator.Allocate false r.1.1 r.1.2 32 MemoryTag.NoTag 16
          = Some (ptr, a, [])
        /\ allocationCount (PoolAllocator.GetStats a)
             > freeCount (PoolAllocator.GetStats a)
        /\ PoolAllocator.m_FreeList a = 4128
        /\ PoolAllocator.m_FreeList (PoolAllocator.Reset a r.1.2).1 = 4096
        /\ PoolAllocator.m_FreeCount a = 3
        /\ PoolAllocator.m_FreeCount (PoolAllocator.Reset a r.1.2).1 = 4)
  /\ (exists ptr a heap,
        SystemAllocator.Allocate false
          (SystemAllocator.SetTrackingEnabled false
             (SystemAllocator.new false) true).1
          {| SystemAllocator.blocks := ∅; SystemAllocator.headers := ∅ |}
          8 MemoryTag.NoTag 16 128
          = Some (ptr, a, heap, [])
        /\ allocationCount (SystemAllocator.GetStats a)
             > freeCount (SystemAllocator.GetStats a)
        /\ SystemAllocator.m_FirstAllocation a = 128
        /\ (SystemAllocator.Reset false a).2 = []
        /\ SystemAllocator.GetStats (SystemAllocator.Reset false a).1
           = zero_stats
        /\ SystemAllocator.m_FirstAllocation (SystemAllocator.Reset false a).1
           = nullptr).
Proof.
  split; [| split].
  - cbv zeta. repeat split; vm_compute; reflexivity.
  - eexists _, _. cbv zeta. split; [vm_compute; reflexivity |].
    repeat split; vm_compute; reflexivity.
  - eexists _, _, _. split; [vm_compute; reflexivity |].
    repeat split; vm_compute; reflexivity.
Qed.

Lemma to_size_t_add_neq f c :
  0 <= f -> f < c -> c < size_t_modulus -> to_size_t (f + c) <> f.
Proof.
  intros Hf Hc Hm E. unfold to_size_t in E.
  destruct (Z_lt_le_dec (f + c) size_t_modulus) as [Hlt | Hge].
  - rewrite Z.mod_small in E by lia. lia.
  - assert (E' : (f + c) mod size_t_modulus = f + c - size_t_modulus)
      by (symmetry; apply (Z.mod_unique_pos _ _ 1); lia).
    lia.
Qed.

(** C4, as the code has it. With allocations outstanding
    ([allocationCount > freeCount]) [LinearAllocator::Reset] and
    [PoolAllocator::Reset] check nothing, report nothing and change the
    allocator, in every build: the offset goes to 0, or the free list is
    rebuilt over every slot with the free count at [elementCount]; the
    current usage is added to [totalFreed] and then set to 0, the
    allocation count is added to [freeCount], which thereby changes, and
    [totalAllocated], [peakUsage] and [allocationCount] stay.
    [SystemAllocator::Reset] has one check, an [EDGE_ASSERT]. A release
    build does not contain it: the reset reports nothing, zeroes the
    statistics, global and per tag, and empties the tracking list. A
    debug build reports the failed assertion at [Error] level and calls
    [DebugBreak()]. *)
Theorem reset_with_live_allocations :
  (forall a,
     0 <= freeCount (LinearAllocator.m_Stats a) ->
     allocationCount (LinearAllocator.m_Stats a) < size_t_modulus ->
     allocationCount (LinearAllocator.m_Stats a)
       > freeCount (LinearAllocator.m_Stats a) ->
     let r := LinearAllocator.Reset a in
     LinearAllocator.m_Buffer r = LinearAllocator.m_Buffer a
     /\ LinearAllocator.m_Size r = LinearAllocator.m_Size a
     /\ LinearAllocator.m_Offset r = 0
     /\ totalAllocated (LinearAllocator.m_Stats r)
        = totalAllocated (LinearAllocator.m_Stats a)
     /\ totalFreed (LinearAllocator.m_Stats r)
        = to_size_t (totalFreed (LinearAllocator.m_Stats a)
                     + currentUsage (LinearAllocator.m_Stats a))
     /\ currentUsage (LinearAllocator.m_Stats r) = 0
     /\ peakUsage (LinearAllocator.m_Stats r)
        = peakUsage (LinearAllocator.m_Stats a)
     /\ allocationCount (LinearAllocator.m_Stats r)
        = allocationCount (LinearAllocator.m_Stats a)
     /\ freeCount (LinearAllocator.m_Stats r)
        = to_size_t (freeCount (LinearAllocator.m_Stats a)
                     + allocationCount (LinearAllocator.m_Stats a))
     /\ freeCount (LinearAllocator.m_Stats r)
        <> freeCount (LinearAllocator.m_Stats a))
  /\ (forall a mem,
        PoolAllocator.well_formed a ->
        0 <= freeCount (PoolAllocator.m_Stats a) ->
        allocationCount (PoolAllocator.m_Stats a) < size_t_modulus ->
        allocationCount (PoolAllocator.m_Stats a)
          > freeCount (PoolAllocator.m_Stats a) ->
        let s := PoolAllocator.Reset a mem in
        PoolAllocator.m_FreeList s.1 = PoolAllocator.m_Buffer a
        /\ PoolAllocator.m_FreeCount s.1 = PoolAllocator.m_ElementCount a
        /\ PoolAllocator.chain s.2 (PoolAllocator.m_FreeList s.1)
             (PoolAllocator.slots a)
        /\ totalAllocated (PoolAllocator.m_Stats s.1)
           = totalAllocated (PoolAllocator.m_Stats a)
        /\ totalFreed (PoolAllocator.m_Stats s.1)
           = to_size_t (totalFreed (PoolAllocator.m_Stats a)
                        + currentUsage (PoolAllocator.m_Stats a))
        /\ currentUsage (PoolAllocator.m_Stats s.1) = 0
        /\ peakUsage (PoolAllocator.m_Stats s.1)
           = peakUsage (PoolAllocator.m_Stats a)
        /\ allocationCount (PoolAllocator.m_Stats s.1)
           = allocationCount (PoolAllocator.m_Stats a)
        /\ freeCount (PoolAllocator.m_Stats s.1)
           = to_size_t (freeCount (PoolAllocator.m_Stats a)
                        + allocationCount (PoolAllocator.m_Stats a))
        /\ freeCount (PoolAllocator.m_Stats s.1)
           <> freeCount (PoolAllocator.m_Stats a))
  /\ (forall a,
        0 <= freeCount (SystemAllocator.m_Stats a) ->
        allocationCount (SystemAllocator.m_Stats a)
          > freeCount (SystemAllocator.m_Stats a) ->
        SystemAllocator.Reset false a
        = ({| SystemAllocator.m_Stats :=
                {| totalAllocated := 0; totalFreed := 0; currentUsage := 0;
                   peakUsage := 0; allocationCount := 0; freeCount := 0 |};
              SystemAllocator.m_TagStats :=
                replicate MemoryTag.COUNT
                  {| totalAllocated := 0; totalFreed := 0;
                     currentUsage := 0; peakUsage := 0;
                     allocationCount := 0; freeCount := 0 |};
              SystemAllocator.m_TrackingEnabled :=
                SystemAllocator.m_TrackingEnabled a;
              SystemAllocator.m_FirstAllocation := nullptr;
              SystemAllocator.m_LastAllocation := nullptr |},
           [])
        /\ allocationCount
             (SystemAllocator.m_Stats (SystemAllocator.Reset false a).1)
           <> allocationCount (SystemAllocator.m_Stats a))
  /\ (forall a,
        allocationCount (SystemAllocator.m_Stats a)
          > freeCount (SystemAllocator.m_Stats a) ->
        (SystemAllocator.Reset true a).2
        = [ {| info :=
                 {| condition :=
                      "m_Stats.allocationCount == m_Stats.freeCount";
                    message :=
                      "Cannot reset allocator with active allocations!";
                    level := Error |};
               debug_break := true |} ]).
Proof.
  split; [| split; [| split]].
  - intros a Hf Hc Hlive r. subst r. simpl.
    repeat (split; [reflexivity |]). apply to_size_t_add_neq; lia.
  - intros a mem wf Hf Hc Hlive s. subst s. simpl.
    split; [reflexivity |]. split; [reflexivity |].
    split; [apply (thread_chain a wf) |].
    repeat (split; [reflexivity |]). apply to_size_t_add_neq; lia.
  - intros a Hf Hlive. split; [reflexivity |]. simpl. lia.
  - intros a Hlive. unfold SystemAllocator.Reset, EDGE_ASSERT,
      EDGE_ASSERT_IMPL. simpl.
    rewrite (proj2 (Z.eqb_neq _ _)) by lia. reflexivity.
Qed.

(** ** Scenarios of the specification *)

(** Three blocks allocated under one tag and one of them freed: the tag's
    statistics count three allocations, one free and the two sizes that
    remain, and the tracking list links the two live headers. *)
Example system_tag_scenario :
  exists a heap,
    SystemAllocator.run true
      (SystemAllocator.new true,
       {| SystemAllocator.blocks := ∅; SystemAllocator.headers := ∅ |})
      [SystemAllocator.CallAllocate 10 MemoryTag.Physics 16 1024;
       SystemAllocator.CallAllocate 20 MemoryTag.Physics 16 2048;
       SystemAllocator.CallAllocate 30 MemoryTag.Physics 16 4096;
       SystemAllocator.CallFree (2048 + 64)]
    = Some (a, heap)
    /\ SystemAllocator.GetTagStats a MemoryTag.Physics
       = {| totalAllocated := 60; totalFreed := 20; currentUsage := 10 + 30;
            peakUsage := 60; allocationCount := 3; freeCount := 1 |}
    /\ SystemAllocator.m_FirstAllocation a = 1024
    /\ SystemAllocator.m_LastAllocation a = 4096
    /\ SystemAllocator.h_next <$> SystemAllocator.headers heap !! 1024
       = Some 4096
    /\ SystemAllocator.h_prev <$> SystemAllocator.headers heap !! 4096
       = Some 1024
    /\ SystemAllocator.blocks heap = {[1024; 4096]}.
Proof.
  eexists _, _. split; [vm_compute; reflexivity |].
  repeat split; vm_compute; reflexivity.
Qed.

(** A pool of four 32-byte slots: four allocations return the four slots,
    the fifth returns null, and after one is freed the next allocation
    returns it. *)
Example pool_scenario :
  let r := PoolAllocator.new false 32 4 16 4096 ∅ in
  exists a1 a2 a3 a4 a6,
    PoolAllocator.Allocate false r.1.1 r.1.2 32 MemoryTag.NoTag 16
      = Some (4096, a1, [])
    /\ PoolAllocator.Allocate false a1 r.1.2 32 MemoryTag.NoTag 16
       = Some (4128, a2, [])
    /\ PoolAllocator.Allocate false a2 r.1.2 32 MemoryTag.NoTag 16
       = Some (4160, a3, [])
    /\ PoolAllocator.Allocate false a3 r.1.2 32 MemoryTag.NoTag 16
       = Some (4192, a4, [])
    /\ PoolAllocator.Allocate false a4 r.1.2 32 MemoryTag.NoTag 16
       = Some (nullptr, a4, [])
    /\ PoolAllocator.Allocate false
         (PoolAllocator.Free false a4 r.1.2 4128).1.1
         (PoolAllocator.Free false a4 r.1.2 4128).1.2 32 MemoryTag.NoTag 16
       = Some (4128, a6, []).
Proof.
  cbv zeta. eexists _, _, _, _, _.
  repeat split; vm_compute; reflexivity.
Qed.

(** ** The statements above at concrete inputs *)

Lemma stats_consistent_after_every_call_witness :
  exists a mem',
    PoolAllocator.run false (PoolAllocator.new false 32 4 16 4096 ∅).1
      [PoolAllocator.CallAllocate 32 MemoryTag.NoTag 16;
       PoolAllocator.CallAllocate 8 MemoryTag.Physics 16;
       PoolAllocator.CallFree 4096;
       PoolAllocator.CallFree 4096;
       PoolAllocator.CallReset;
       PoolAllocator.CallFree 4128]
    = Some (a, mem')
    /\ stats_consistent (PoolAllocator.GetStats a).
Proof.
  eexists _, _. split; [vm_compute; reflexivity |].
  eapply (proj2 (proj2 (stats_consistent_after_every_call false))
            32 4 16 4096 ∅
            [PoolAllocator.CallAllocate 32 MemoryTag.NoTag 16;
             PoolAllocator.CallAllocate 8 MemoryTag.Physics 16;
             PoolAllocator.CallFree 4096;
             PoolAllocator.CallFree 4096;
             PoolAllocator.CallReset;
             PoolAllocator.CallFree 4128]).
  vm_compute; reflexivity.
Defined.

Lemma example_pool_well_formed dbg :
  PoolAllocator.well_formed (PoolAllocator.new dbg 32 4 16 4096 ∅).1.1.
Proof. constructor; vm_compute; intuition discriminate. Qed.

Lemma allocate_alignment_by_strategy_witness :
  let r := PoolAllocator.new false 32 4 16 4096 ∅ in
  let heap0 :=
    {| SystemAllocator.blocks := ∅; SystemAllocator.headers := ∅ |} in
  (PoolAllocator.well_formed r.1.1 /\ power_of_two 16 /\ 4096 mod 16 = 0
   /\ PoolAllocator.reachable false r.1.1 r.1.2 r.1.1 r.1.2 []
   /\ exists a',
        PoolAllocator.Allocate false r.1.1 r.1.2 32 MemoryTag.NoTag 64
          = Some (4096, a', [])
        /\ 4096 <> nullptr /\ 4096 mod 16 = 0)
  /\ (SystemAllocator.m_TrackingEnabled (SystemAllocator.new true) = true
      /\ power_of_two 32
      /\ 32 <= SystemAllocator.sizeof_AllocationHeader
      /\ 4128 mod 32 = 0
      /\ exists a' heap',
           SystemAllocator.Allocate true (SystemAllocator.new true) heap0
             8 MemoryTag.NoTag 32 4128
             = Some (4192, a', heap', [])
           /\ 4192 <> nullptr
           /\ 4192 = 4128 + SystemAllocator.sizeof_AllocationHeader
           /\ 4192 mod 32 = 0).
Proof.
  intros r heap0. split.
  - assert (wf : PoolAllocator.well_formed r.1.1)
      by apply example_pool_well_formed.
    assert (Hp : power_of_two 16) by (exists 4; split; [lia | reflexivity]).
    assert (Hr : PoolAllocator.reachable false r.1.1 r.1.2 r.1.1 r.1.2 [])
      by constructor.
    split; [exact wf |]. split; [exact Hp |]. split; [reflexivity |].
    split; [exact Hr |]. eexists.
    assert (HA : PoolAllocator.Allocate false r.1.1 r.1.2 32
                   MemoryTag.NoTag 64
                 = Some (4096,
                         {| PoolAllocator.m_Buffer := 4096;
                            PoolAllocator.m_FreeList := 4128;
                            PoolAllocator.m_ElementSize := 32;
                            PoolAllocator.m_ElementCount := 4;
                            PoolAllocator.m_AlignedElementSize := 32;
                            PoolAllocator.m_FreeCount := 3;
                            PoolAllocator.m_Stats :=
                              on_allocation zero_stats 32 |},
                         []))
      by (vm_compute; reflexivity).
    split; [exact HA |]. split; [discriminate |].
    apply (proj1 (proj2 (proj2 (allocate_alignment_by_strategy false)))
             32 4 16 4096 ∅ r.1.1 r.1.2 [] 32 MemoryTag.NoTag 64 4096 _ []
             wf Hp eq_refl Hr HA).
    discriminate.
  - assert (Hp : power_of_two 32) by (exists 5; split; [lia | reflexivity]).
    assert (Hle : 32 <= SystemAllocator.sizeof_AllocationHeader)
      by (vm_compute; discriminate).
    assert (Hnn : 4192 <> nullptr) by discriminate.
    assert (HA : exists a' heap',
              SystemAllocator.Allocate true (SystemAllocator.new true) heap0
                8 MemoryTag.NoTag 32 4128
              = Some (4192, a', heap', []))
      by (vm_compute; eauto).
    destruct HA as (a' & heap' & HA).
    split; [reflexivity |]. split; [exact Hp |]. split; [exact Hle |].
    split; [reflexivity |]. exists a', heap'.
    split; [exact HA |]. split; [exact Hnn |].
    exact (proj1 (proj2 (proj2 (proj2 (allocate_alignment_by_strategy true))))
             (SystemAllocator.new true) heap0 8 MemoryTag.NoTag 32 4128 4192
             a' heap' [] eq_refl Hp Hle eq_refl HA Hnn).
Defined.

Lemma reset_with_live_allocations_witness :
  let a := (LinearAllocator.Allocate false
              (LinearAllocator.new false 100 4096).1 60 MemoryTag.NoTag 4).1.2 in
  let p :=
    {| PoolAllocator.m_Buffer := 4096; PoolAllocator.m_FreeList := 4128;
       PoolAllocator.m_ElementSize := 32; PoolAllocator.m_ElementCount := 4;
       PoolAllocator.m_AlignedElementSize := 32;
       PoolAllocator.m_FreeCount := 3;
       PoolAllocator.m_Stats :=
         {| totalAllocated := 32; totalFreed := 0; currentUsage := 32;
            peakUsage := 32; allocationCount := 1; freeCount := 0 |} |} in
  let s :=
    {| SystemAllocator.m_Stats :=
         {| totalAllocated := 8; totalFreed := 0; currentUsage := 8;
            peakUsage := 8; allocationCount := 1; freeCount := 0 |};
       SystemAllocator.m_TagStats :=
         {| totalAllocated := 8; totalFreed := 0; currentUsage := 8;
            peakUsage := 8; allocationCount := 1; freeCount := 0 |}
           :: replicate 25 zero_stats;
       SystemAllocator.m_TrackingEnabled := true;
       SystemAllocator.m_FirstAllocation := 128;
       SystemAllocator.m_LastAllocation := 128 |} in
  (allocationCount (LinearAllocator.m_Stats a)
     > freeCount (LinearAllocator.m_Stats a)
   /\ LinearAllocator.m_Offset a = 60
   /\ LinearAllocator.m_Offset (LinearAllocator.Reset a) = 0
   /\ freeCount (LinearAllocator.m_Stats (LinearAllocator.Reset a))
      = to_size_t (0 + 1))
  /\ (PoolAllocator.well_formed p
      /\ allocationCount (PoolAllocator.m_Stats p)
           > freeCount (PoolAllocator.m_Stats p)
      /\ PoolAllocator.m_FreeList (PoolAllocator.Reset p ∅).1 = 4096
      /\ totalFreed (PoolAllocator.m_Stats (PoolAllocator.Reset p ∅).1)
         = to_size_t (0 + 32))
  /\ (allocationCount (SystemAllocator.m_Stats s)
        > freeCount (SystemAllocator.m_Stats s)
      /\ SystemAllocator.m_Stats (SystemAllocator.Reset false s).1
         = zero_stats
      /\ (SystemAllocator.Reset false s).2 = []
      /\ debug_break <$> (SystemAllocator.Reset true s).2 = [true]).
Proof.
  intros a p s.
  assert (Ha : allocationCount (LinearAllocator.m_Stats a)
               > freeCount (LinearAllocator.m_Stats a))
    by (vm_compute; reflexivity).
  assert (Hp : allocationCount (PoolAllocator.m_Stats p)
               > freeCount (PoolAllocator.m_Stats p))
    by (vm_compute; reflexivity).
  assert (Hs : allocationCount (SystemAllocator.m_Stats s)
               > freeCount (SystemAllocator.m_Stats s))
    by (vm_compute; reflexivity).
  assert (wf : PoolAllocator.well_formed p)
    by (constructor; vm_compute; intuition discriminate).
  split; [| split].
  - destruct (proj1 reset_with_live_allocations a
                ltac:(vm_compute; discriminate)
                ltac:(vm_compute; reflexivity) Ha)
      as (_ & _ & Ho & _ & _ & _ & _ & _ & Hf & _).
    split; [exact Ha |]. split; [reflexivity |]. split; [exact Ho |].
    exact Hf.
  - destruct (proj1 (proj2 reset_with_live_allocations) p ∅ wf
                ltac:(vm_compute; discriminate)
                ltac:(vm_compute; reflexivity) Hp)
      as (Hl & _ & _ & _ & Hf & _).
    split; [exact wf |]. split; [exact Hp |]. split; [exact Hl |].
    exact Hf.
  - destruct (proj1 (proj2 (proj2 reset_with_live_allocations)) s
                ltac:(vm_compute; discriminate) Hs) as (Hr & _).
    pose proof (proj2 (proj2 (proj2 reset_with_live_allocations)) s Hs)
      as Hd.
    split; [exact Hs |]. rewrite Hr, Hd. repeat split.
Defined.

Lemma system_free_guard_mismatch_witness :
  let h := {| SystemAllocator.h_size := 8; SystemAllocator.h_alignment := 16;
              SystemAllocator.h_tag := MemoryTag.AudioSFX;
              SystemAllocator.h_file := nullptr; SystemAllocator.h_line := 0;
              SystemAllocator.h_prev := nullptr;
              SystemAllocator.h_next := nullptr;
              SystemAllocator.h_guardValue := 0 |} in
  let heap := {| SystemAllocator.blocks := {[128]};
                 SystemAllocator.headers := {[128 := h]} |} in
  let a := SystemAllocator.new true in
  SystemAllocator.Free true a heap 192
  = Some (a, heap,
          EDGE_ASSERT true false "false" "Memory corruption detected!").
Proof.
  intros h heap a.
  apply (system_free_guard_mismatch true a heap 192 h);
    [reflexivity | discriminate | reflexivity | discriminate].
Defined.

Lemma linear_allocate_out_of_memory_witness :
  let a := (LinearAllocator.Allocate true
              (LinearAllocator.new true 100 4096).1 60 MemoryTag.NoTag 16).1.2 in
  to_size_t (LinearAllocator.alignedOffset a 16 + 50)
    > LinearAllocator.m_Size a
  /\ LinearAllocator.m_Offset a = 60
  /\ (LinearAllocator.Allocate true a 50 MemoryTag.NoTag 16).1 = (nullptr, a).
Proof.
  intros a.
  assert (H : to_size_t (LinearAllocator.alignedOffset a 16 + 50)
              > LinearAllocator.m_Size a) by (vm_compute; reflexivity).
  split; [exact H |]. split; [reflexivity |].
  exact (proj1 (linear_allocate_out_of_memory true) a 50 MemoryTag.NoTag 16 H).
Defined.

Lemma pool_allocate_correct_witness :
  let r := PoolAllocator.new false 32 4 16 4096 ∅ in
  let a1 :=
    {| PoolAllocator.m_Buffer := 4096; PoolAllocator.m_FreeList := 4128;
       PoolAllocator.m_ElementSize := 32; PoolAllocator.m_ElementCount := 4;
       PoolAllocator.m_AlignedElementSize := 32;
       PoolAllocator.m_FreeCount := 3;
       PoolAllocator.m_Stats := on_allocation zero_stats 32 |} in
  let a2 :=
    {| PoolAllocator.m_Buffer := 4096; PoolAllocator.m_FreeList := 4160;
       PoolAllocator.m_ElementSize := 32; PoolAllocator.m_ElementCount := 4;
       PoolAllocator.m_AlignedElementSize := 32;
       PoolAllocator.m_FreeCount := 2;
       PoolAllocator.m_Stats :=
         on_allocation (on_allocation zero_stats 32) 32 |} in
  PoolAllocator.well_formed r.1.1
  /\ PoolAllocator.reachable false r.1.1 r.1.2 a1 r.1.2 [4096]
  /\ PoolAllocator.Allocate false a1 r.1.2 8 MemoryTag.NoTag 64
     = Some (4128, a2, [])
  /\ 4128 <> nullptr
  /\ 4128 = PoolAllocator.m_FreeList a1
  /\ totalAllocated (PoolAllocator.m_Stats a2)
     = to_size_t (totalAllocated (PoolAllocator.m_Stats a1)
                  + PoolAllocator.m_ElementSize a1)
  /\ 4128 ∈ PoolAllocator.slots a1
  /\ (4128 ∉ [4096])
  /\ (PoolAllocator.m_FreeList a1 = nullptr
      <-> Z.of_nat (length [4096]) = 4).
Proof.
  intros r a1 a2.
  assert (wf : PoolAllocator.well_formed r.1.1)
    by apply example_pool_well_formed.
  assert (Hr : PoolAllocator.reachable false r.1.1 r.1.2 a1 r.1.2 [4096]).
  { apply (PoolAllocator.reach_alloc false r.1.1 r.1.2 r.1.1 r.1.2 []
             32 MemoryTag.NoTag 16 4096 a1 []);
      [apply PoolAllocator.reach_init | vm_compute; reflexivity
      | discriminate]. }
  assert (HA : PoolAllocator.Allocate false a1 r.1.2 8 MemoryTag.NoTag 64
               = Some (4128, a2, []))
    by (vm_compute; reflexivity).
  assert (Hnn : 4128 <> nullptr) by discriminate.
  destruct (proj1 (proj2 (proj2 (pool_allocate_correct false)))
              a1 r.1.2 8 MemoryTag.NoTag 64 4128 a2 [] HA Hnn)
    as (Hhead & _ & _ & _ & _ & Htotal & _).
  destruct (proj2 (proj2 (proj2 (pool_allocate_correct false)))
              32 4 16 4096 ∅ a1 r.1.2 [4096] wf Hr)
    as (Hfull & _ & Hslot).
  destruct (Hslot 8 MemoryTag.NoTag 64 4128 a2 [] HA Hnn)
    as (Hin & Hfresh & _).
  repeat (split; [assumption |]). exact Hfull.
Defined.

Lemma pool_free_then_allocate_witness :
  let r := PoolAllocator.new false 32 4 16 4096 ∅ in
  let f := PoolAllocator.Free false r.1.1 r.1.2 4160 in
  4160 <> nullptr
  /\ PoolAllocator.m_Buffer r.1.1 <= 4160
       < PoolAllocator.m_Buffer r.1.1
         + to_size_t (PoolAllocator.m_AlignedElementSize r.1.1
                      * PoolAllocator.m_ElementCount r.1.1)
  /\ 32 <= PoolAllocator.m_ElementSize r.1.1
  /\ PoolAllocator.m_FreeList f.1.1 = 4160
  /\ f.1.2 !! 4160 = Some (PoolAllocator.m_FreeList r.1.1)
  /\ exists a',
       PoolAllocator.Allocate false f.1.1 f.1.2 32 MemoryTag.NoTag 16
         = Some (4160, a', [])
       /\ PoolAllocator.m_FreeList a' = PoolAllocator.m_FreeList r.1.1.
Proof.
  intros r f.
  assert (H1 : 4160 <> nullptr) by discriminate.
  assert (H2 : PoolAllocator.m_Buffer r.1.1 <= 4160
               < PoolAllocator.m_Buffer r.1.1
                 + to_size_t (PoolAllocator.m_AlignedElementSize r.1.1
                              * PoolAllocator.m_ElementCount r.1.1))
    by (vm_compute; split; [discriminate | reflexivity]).
  assert (H3 : 32 <= PoolAllocator.m_ElementSize r.1.1)
    by (vm_compute; discriminate).
  split; [exact H1 |]. split; [exact H2 |]. split; [exact H3 |].
  exact (proj1 (pool_free_then_allocate false) r.1.1 r.1.2 4160 32
           MemoryTag.NoTag 16 H1 H2 H3).
Defined.

Lemma pool_reset_rebuilds_free_list_witness :
  let r := PoolAllocator.new false 32 4 16 4096 ∅ in
  let a := {| PoolAllocator.m_Buffer := 4096;
              PoolAllocator.m_FreeList := 4160;
              PoolAllocator.m_ElementSize := 32;
              PoolAllocator.m_ElementCount := 4;
              PoolAllocator.m_AlignedElementSize := 32;
              PoolAllocator.m_FreeCount := 2;
              PoolAllocator.m_Stats :=
                on_allocation (on_allocation zero_stats 32) 32 |} in
  let mem := <[4096 := 77]> r.1.2 in
  PoolAllocator.well_formed r.1.1
  /\ PoolAllocator.same_pool r.1.1 a
  /\ PoolAllocator.m_FreeList (PoolAllocator.Reset a mem).1 = 4096
  /\ PoolAllocator.chain (PoolAllocator.Reset a mem).2
       (PoolAllocator.m_FreeList (PoolAllocator.Reset a mem).1)
       (PoolAllocator.slots r.1.1).
Proof.
  intros r a mem.
  assert (wf : PoolAllocator.well_formed r.1.1)
    by apply example_pool_well_formed.
  assert (Hs : PoolAllocator.same_pool r.1.1 a) by (repeat split).
  split; [exact wf |]. split; [exact Hs |].
  pose proof (pool_reset_rebuilds_free_list false 32 4 16 4096 ∅ a mem wf Hs)
    as (H1 & _ & _ & _ & _ & _ & H7 & _).
  split; [exact H1 | exact H7].
Defined.

Lemma system_GetTagStats_witness :
  (MemoryTag.COUNT <= 200)%nat
  /\ SystemAllocator.GetTagStats (SystemAllocator.new true) 200%nat
     = zero_stats.
Proof.
  assert (H : (MemoryTag.COUNT <= 200)%nat) by (unfold MemoryTag.COUNT; lia).
  split; [exact H |].
  exact (proj1 (system_GetTagStats (SystemAllocator.new true) 200%nat) H).
Defined.

(** * Further properties of the code *)

(** ** [Memory::AlignUp] and [Memory::AlignPointer] *)

Lemma AlignUp_round_up_form size alignment :
  power_of_two alignment ->
  AlignUp size alignment
  = Z.land (to_size_t (size + to_size_t (alignment - 1)))
           (size_t_not (to_size_t (alignment - 1))).
Proof.
  intros Ha. unfold AlignUp. rewrite (power_of_two_mask _ Ha).
  rewrite to_size_t_sub_l. do 2 f_equal. lia.
Qed.

Lemma AlignUp_range size alignment :
  power_of_two alignment -> is_size_t (AlignUp size alignment).
Proof.
  intros Ha. unfold AlignUp.
  pose proof (to_size_t_range (to_size_t (size + alignment) - 1)) as Hx.
  pose proof (power_of_two_bounds _ Ha) as Hb.
  rewrite land_not_mask by assumption.
  unfold is_size_t in *.
  pose proof (Z.mul_div_le (to_size_t (to_size_t (size + alignment) - 1))
                alignment ltac:(lia)).
  split; [apply Z.mul_nonneg_nonneg; [lia | apply Z.div_pos; lia] | lia].
Qed.

(** A multiple of a power of two that fits a [size_t] leaves room for
    the rounding term. *)
Lemma aligned_size_t_room a x :
  power_of_two a -> is_size_t x -> x mod a = 0 ->
  x + (a - 1) < size_t_modulus.
Proof.
  intros (k & Hk & ->) Hx Hm.
  assert (Hpos : 0 < 2 ^ k) by (apply Z.pow_pos_nonneg; lia).
  apply Z.mod_divide in Hm as [q ->]; [| lia].
  assert (Hsplit : size_t_modulus = 2 ^ (64 - k) * 2 ^ k).
  { unfold size_t_modulus. rewrite <- Z.pow_add_r by lia. f_equal; lia. }
  unfold is_size_t in Hx. rewrite Hsplit in *.
  assert (q < 2 ^ (64 - k)) by (apply (Z.mul_lt_mono_pos_r (2 ^ k)); lia).
  nia.
Qed.

Lemma AlignUp_bounds size alignment :
  power_of_two alignment ->
  0 <= size -> size + (alignment - 1) < size_t_modulus ->
  size <= AlignUp size alignment < size + alignment.
Proof.
  intros Ha Hs Hfit. rewrite (AlignUp_round_up_form _ _ Ha).
  apply (round_up_bounds alignment size Ha Hs Hfit).
Qed.

(** X1. For a power-of-two alignment and a size whose rounding does not
    wrap, [AlignUp] returns the least multiple of the alignment that is
    at least the size; [AlignPointer] does the same to an address. *)
Theorem AlignUp_least_multiple (size alignment : Z) :
  power_of_two alignment ->
  0 <= size -> size + (alignment - 1) < size_t_modulus ->
  size <= AlignUp size alignment < size + alignment
  /\ AlignUp size alignment mod alignment = 0
  /\ (forall m, size <= m -> m mod alignment = 0 ->
        AlignUp size alignment <= m)
  /\ AlignPointer size alignment = AlignUp size alignment.
Proof.
  intros Ha Hs Hfit.
  pose proof (power_of_two_bounds _ Ha) as Hb.
  assert (HP : AlignPointer size alignment = AlignUp size alignment)
    by reflexivity.
  rewrite HP. rewrite (AlignUp_round_up_form _ _ Ha).
  destruct (round_up_bounds alignment size Ha Hs Hfit) as [Hr Hm].
  cbv zeta in Hr, Hm.
  split; [exact Hr |]. split; [exact Hm |]. split; [| reflexivity].
  intros m Hle Hmm.
  destruct (Z_lt_le_dec m (Z.land (to_size_t (size + to_size_t (alignment - 1)))
                             (size_t_not (to_size_t (alignment - 1)))))
    as [Hlt | Hge]; [| exact Hge].
  exfalso.
  assert (E : m = Z.land (to_size_t (size + to_size_t (alignment - 1)))
                    (size_t_not (to_size_t (alignment - 1))))
    by (apply (multiple_in_window_unique alignment size); lia).
  lia.
Qed.

(** X2. [AlignUp] is idempotent, and leaves a multiple of the alignment
    as it is, for every [size_t] and every power-of-two alignment. *)
Theorem AlignUp_idempotent (size alignment : Z) :
  power_of_two alignment ->
  AlignUp (AlignUp size alignment) alignment = AlignUp size alignment
  /\ (is_size_t size -> size mod alignment = 0 ->
      AlignUp size alignment = size).
Proof.
  intros Ha.
  assert (Fix : forall x, is_size_t x -> x mod alignment = 0 ->
                          AlignUp x alignment = x).
  { intros x Hx Hm. rewrite (AlignUp_round_up_form _ _ Ha).
    apply round_up_aligned; try assumption; [apply Hx |].
    apply aligned_size_t_room; assumption. }
  split; [| apply Fix].
  apply Fix; [apply AlignUp_range, Ha | apply AlignUp_aligned, Ha].
Qed.

(** X3. A size within [alignment - 1] of the top of the [size_t] range
    is rounded to 0: the addition wraps before the mask is applied. *)
Theorem AlignUp_wraps_to_zero (size alignment : Z) :
  power_of_two alignment ->
  size_t_modulus - alignment < size < size_t_modulus ->
  AlignUp size alignment = 0.
Proof.
  intros Ha Hs. pose proof (power_of_two_bounds _ Ha) as Hb.
  assert (M : size_t_modulus = 2 * 2 ^ 63) by reflexivity.
  unfold AlignUp.
  assert (E1 : to_size_t (size + alignment)
               = size + alignment - size_t_modulus).
  { unfold to_size_t. symmetry. apply (Z.mod_unique_pos _ _ 1); lia. }
  rewrite E1.
  rewrite (to_size_t_small (size + alignment - size_t_modulus - 1))
    by (unfold is_size_t; lia).
  rewrite land_not_mask by (try assumption; unfold is_size_t; lia).
  rewrite Z.div_small by lia. lia.
Qed.

(** ** LinearAllocator: bounds *)

Lemma linear_step_bounds dbg a c :
  0 <= LinearAllocator.m_Offset a <= LinearAllocator.m_Size a ->
  let a' := LinearAllocator.step dbg a c in
  LinearAllocator.m_Buffer a' = LinearAllocator.m_Buffer a
  /\ LinearAllocator.m_Size a' = LinearAllocator.m_Size a
  /\ 0 <= LinearAllocator.m_Offset a' <= LinearAllocator.m_Size a'.
Proof.
  intros H. destruct c as [size tag alignment | ptr | ]; simpl.
  - unfold LinearAllocator.Allocate.
    destruct (size =? 0); [simpl; auto |].
    destruct (Z.gtb_spec
                (to_size_t (LinearAllocator.alignedOffset a alignment + size))
                (LinearAllocator.m_Size a)); simpl; [auto |].
    pose proof (to_size_t_range
                  (LinearAllocator.alignedOffset a alignment + size)) as [? _].
    auto.
  - auto.
  - lia.
Qed.

(** X4. Whatever is called on a LinearAllocator built over [size] bytes,
    its buffer and size stay those of the constructor and its offset
    stays between 0 and the size. *)
Theorem linear_offset_within_size (dbg : bool) (size buffer : Z)
    (cs : list LinearAllocator.call) :
  0 <= size ->
  let a := LinearAllocator.run dbg (LinearAllocator.new dbg size buffer).1 cs in
  LinearAllocator.m_Buffer a = buffer
  /\ LinearAllocator.m_Size a = size
  /\ 0 <= LinearAllocator.m_Offset a <= size.
Proof.
  intros Hs. unfold LinearAllocator.run.
  set (a0 := (LinearAllocator.new dbg size buffer).1).
  assert (H0 : LinearAllocator.m_Buffer a0 = buffer
               /\ LinearAllocator.m_Size a0 = size
               /\ 0 <= LinearAllocator.m_Offset a0 <= size)
    by (simpl; lia).
  clearbody a0. revert a0 H0.
  induction cs as [| c cs IH]; intros a0 H0; simpl; [exact H0 |].
  apply IH. destruct H0 as (Hb & Hz & Ho).
  destruct (linear_step_bounds dbg a0 c) as (Hb' & Hz' & Ho'); [lia |].
  repeat split; lia.
Qed.

(** X5. A successful allocation with a power-of-two alignment, when
    offset, alignment and size together do not leave the [size_t] range,
    lies inside the buffer, starts at or after the old offset with less
    than [alignment] bytes of padding, at a multiple of the alignment
    from the buffer start, and moves the offset to its end. *)
Theorem linear_allocation_in_buffer (dbg : bool) (a : LinearAllocator.t)
    (size : Z) (tag : MemoryTag.t) (alignment ptr : Z)
    (a' : LinearAllocator.t) (rs : list Report) :
  power_of_two alignment ->
  0 <= LinearAllocator.m_Offset a -> 0 <= size ->
  LinearAllocator.m_Offset a + alignment + size <= size_t_modulus ->
  LinearAllocator.Allocate dbg a size tag alignment = (ptr, a', rs) ->
  ptr <> nullptr ->
  LinearAllocator.m_Buffer a + LinearAllocator.m_Offset a <= ptr
  /\ ptr < LinearAllocator.m_Buffer a + LinearAllocator.m_Offset a + alignment
  /\ ptr + size <= LinearAllocator.m_Buffer a + LinearAllocator.m_Size a
  /\ (ptr - LinearAllocator.m_Buffer a) mod alignment = 0
  /\ LinearAllocator.m_Buffer a + LinearAllocator.m_Offset a' = ptr + size.
Proof.
  intros Hp Ho Hs Hfit HA Hnn.
  pose proof (power_of_two_bounds _ Hp) as Hb.
  destruct (linear_alignedOffset_bounds a alignment Hp Ho) as [Hr Hm];
    [lia |].
  unfold LinearAllocator.Allocate in HA.
  destruct (size =? 0); [injection HA as <-; congruence |].
  destruct (Z.gtb_spec
              (to_size_t (LinearAllocator.alignedOffset a alignment + size))
              (LinearAllocator.m_Size a)) as [Hgt | Hle];
    [injection HA as <-; congruence |].
  injection HA as <- <- _. simpl.
  rewrite to_size_t_small in * by (unfold is_size_t; lia).
  replace (LinearAllocator.m_Buffer a
           + LinearAllocator.alignedOffset a alignment
           - LinearAllocator.m_Buffer a)
    with (LinearAllocator.alignedOffset a alignment) by lia.
  repeat split; lia.
Qed.

(** X6. Right after [Reset], a request of at most the buffer size, with
    any power-of-two alignment, is served at the start of the buffer,
    whatever was allocated before. *)
Theorem linear_allocate_after_reset (dbg : bool) (a : LinearAllocator.t)
    (size : Z) (tag : MemoryTag.t) (alignment : Z) :
  power_of_two alignment ->
  0 < size <= LinearAllocator.m_Size a ->
  LinearAllocator.m_Size a < size_t_modulus ->
  LinearAllocator.Allocate dbg (LinearAllocator.Reset a) size tag alignment
  = (LinearAllocator.m_Buffer a + 0,
     {| LinearAllocator.m_Buffer := LinearAllocator.m_Buffer a;
        LinearAllocator.m_Size := LinearAllocator.m_Size a;
        LinearAllocator.m_Offset := size;
        LinearAllocator.m_Stats :=
          on_allocation (on_reset (LinearAllocator.m_Stats a)) size |},
     []).
Proof.
  intros Hp Hs Hz. pose proof (power_of_two_bounds _ Hp) as Hb.
  assert (M : size_t_modulus = 2 * 2 ^ 63) by reflexivity.
  assert (E : LinearAllocator.alignedOffset (LinearAllocator.Reset a) alignment
              = 0).
  { apply linear_alignedOffset_aligned; simpl; try lia; try assumption.
    apply Z.mod_0_l; lia. }
  rewrite linear_Allocate_fits; rewrite ?E; simpl;
    rewrite ?to_size_t_small by (unfold is_size_t; lia);
    [reflexivity | lia | lia].
Qed.

(** X7. An alignment of 0 is not refused: the mask becomes all ones, the
    aligned offset 0, and a request that fits the buffer is placed at
    the buffer start whatever the offset was, over what was allocated
    before. *)
Theorem linear_allocate_alignment_zero (dbg : bool) (a : LinearAllocator.t)
    (size : Z) (tag : MemoryTag.t) :
  0 < size <= LinearAllocator.m_Size a ->
  LinearAllocator.m_Size a < size_t_modulus ->
  LinearAllocator.alignedOffset a 0 = 0
  /\ LinearAllocator.Allocate dbg a size tag 0
     = (LinearAllocator.m_Buffer a + 0,
        {| LinearAllocator.m_Buffer := LinearAllocator.m_Buffer a;
           LinearAllocator.m_Size := LinearAllocator.m_Size a;
           LinearAllocator.m_Offset := size;
           LinearAllocator.m_Stats :=
             on_allocation (LinearAllocator.m_Stats a) size |},
        []).
Proof.
  intros Hs Hz.
  assert (E : LinearAllocator.alignedOffset a 0 = 0).
  { unfold LinearAllocator.alignedOffset.
    replace (size_t_not (to_size_t (0 - 1))) with 0 by reflexivity.
    apply Z.land_0_r. }
  split; [exact E |].
  rewrite linear_Allocate_fits; rewrite ?E; simpl;
    rewrite ?to_size_t_small by (unfold is_size_t; lia);
    [reflexivity | lia | lia].
Qed.

(** ** Statistics: resets and peaks *)

(** X8. [Reset] adds the whole allocation count to [freeCount], each
    time it is called. A second [Reset] in a row leaves the linear
    allocator's offset and every other statistic as the first one left
    them and adds the allocation count to [freeCount] once more; the
    pool's statistics behave the same. *)
Theorem reset_twice_counts_frees_twice :
  (forall a,
     let r1 := LinearAllocator.Reset a in
     let r2 := LinearAllocator.Reset r1 in
     LinearAllocator.m_Offset r2 = LinearAllocator.m_Offset r1
     /\ totalAllocated (LinearAllocator.m_Stats r2)
        = totalAllocated (LinearAllocator.m_Stats r1)
     /\ totalFreed (LinearAllocator.m_Stats r2)
        = totalFreed (LinearAllocator.m_Stats r1)
     /\ currentUsage (LinearAllocator.m_Stats r2) = 0
     /\ peakUsage (LinearAllocator.m_Stats r2)
        = peakUsage (LinearAllocator.m_Stats r1)
     /\ allocationCount (LinearAllocator.m_Stats r2)
        = allocationCount (LinearAllocator.m_Stats a)
     /\ freeCount (LinearAllocator.m_Stats r2)
        = to_size_t (freeCount (LinearAllocator.m_Stats a)
                     + 2 * allocationCount (LinearAllocator.m_Stats a)))
  /\ (forall a mem,
        let r1 := PoolAllocator.Reset a mem in
        let r2 := PoolAllocator.Reset r1.1 r1.2 in
        totalFreed (PoolAllocator.m_Stats r2.1)
        = totalFreed (PoolAllocator.m_Stats r1.1)
        /\ allocationCount (PoolAllocator.m_Stats r2.1)
           = allocationCount (PoolAllocator.m_Stats a)
        /\ freeCount (PoolAllocator.m_Stats r2.1)
           = to_size_t (freeCount (PoolAllocator.m_Stats a)
                        + 2 * allocationCount (PoolAllocator.m_Stats a))).
Proof.
  assert (F : forall s,
    totalFreed (on_reset (on_reset s)) = totalFreed (on_reset s)
    /\ freeCount (on_reset (on_reset s))
       = to_size_t (freeCount s + 2 * allocationCount s)).
  { intros s. simpl. rewrite Z.add_0_r. split.
    - apply to_size_t_small, to_size_t_range.
    - rewrite to_size_t_add_l. f_equal; lia. }
  split.
  - intros a r1 r2. subst r1 r2. simpl LinearAllocator.m_Stats.
    destruct (F (LinearAllocator.m_Stats a)) as [F1 F2].
    repeat split; assumption.
  - intros a mem r1 r2. subst r1 r2. simpl PoolAllocator.m_Stats.
    destruct (F (PoolAllocator.m_Stats a)) as [F1 F2].
    repeat split; assumption.
Qed.

Lemma on_allocation_peak s size :
  peakUsage s <= peakUsage (on_allocation s size)
  /\ currentUsage (on_allocation s size) <= peakUsage (on_allocation s size).
Proof.
  unfold on_allocation; simpl.
  destruct (Z.gtb_spec (to_size_t (currentUsage s + size)) (peakUsage s)); lia.
Qed.

Lemma TrackAllocation_stats a hs header size tag a' hs' :
  SystemAllocator.TrackAllocation a hs header size tag = Some (a', hs') ->
  SystemAllocator.m_Stats a' = on_allocation (SystemAllocator.m_Stats a) size.
Proof.
  unfold SystemAllocator.TrackAllocation; intros Ht.
  destruct (SystemAllocator.m_FirstAllocation a =? nullptr).
  - injection Ht as <- _; reflexivity.
  - destruct (SystemAllocator.update_header hs header _) as [hs1 |];
      [| discriminate]; simpl in Ht.
    destruct (SystemAllocator.update_header hs1 _ _) as [hs2 |];
      [| discriminate]; simpl in Ht.
    injection Ht as <- _; reflexivity.
Qed.

(** X9. [peakUsage] never goes down: not under any call on a linear or
    pool allocator, and not under any call on the system allocator other
    than [Reset], which zeroes it. On a linear allocator the current
    usage never exceeds it. *)
Theorem peak_usage_never_decreases (dbg : bool) :
  (forall a c,
     peakUsage (LinearAllocator.m_Stats a)
     <= peakUsage (LinearAllocator.m_Stats (LinearAllocator.step dbg a c)))
  /\ (forall s c s',
        PoolAllocator.step dbg s c = Some s' ->
        peakUsage (PoolAllocator.m_Stats s.1)
        <= peakUsage (PoolAllocator.m_Stats s'.1))
  /\ (forall s c s',
        SystemAllocator.step dbg s c = Some s' ->
        c <> SystemAllocator.CallReset ->
        peakUsage (SystemAllocator.m_Stats s.1)
        <= peakUsage (SystemAllocator.m_Stats s'.1))
  /\ (forall size buffer cs,
        let a := LinearAllocator.run dbg
                   (LinearAllocator.new dbg size buffer).1 cs in
        0 <= currentUsage (LinearAllocator.m_Stats a)
          <= peakUsage (LinearAllocator.m_Stats a)).
Proof.
  split; [| split; [| split]].
  - intros a c. destruct c as [size tag alignment | ptr | ];
      [| reflexivity | reflexivity].
    simpl. unfold LinearAllocator.Allocate.
    destruct (size =? 0); [simpl; lia |].
    destruct (_ >? _); simpl; [lia | apply on_allocation_peak].
  - intros [a mem] c s' Hs. simpl.
    destruct c as [size tag alignment | ptr | | addr value]; simpl in Hs.
    + unfold PoolAllocator.Allocate in Hs.
      destruct (size >? _); [injection Hs as <-; simpl; lia |].
      destruct (_ =? nullptr); [injection Hs as <-; simpl; lia |].
      destruct (mem !! _); [| discriminate].
      injection Hs as <-; simpl. apply on_allocation_peak.
    + injection Hs as <-. unfold PoolAllocator.Free.
      destruct (ptr =? nullptr); [simpl; lia |].
      destruct (_ || _); simpl; lia.
    + injection Hs as <-; simpl; lia.
    + injection Hs as <-; simpl; lia.
  - intros [a heap] c s' Hs Hc. simpl.
    destruct c as [size tag alignment memory | ptr | | enabled | addr h];
      simpl in Hs; [| | congruence | |].
    + unfold SystemAllocator.Allocate in Hs.
      destruct (size =? 0); [injection Hs as <-; simpl; lia |].
      destruct (memory =? nullptr); [injection Hs as <-; simpl; lia |].
      destruct (SystemAllocator.m_TrackingEnabled a);
        [| injection Hs as <-; simpl; lia].
      destruct (SystemAllocator.TrackAllocation a _ memory size tag)
        as [[a1 hs1] |] eqn:Ht; [| discriminate].
      injection Hs as <-; simpl.
      rewrite (TrackAllocation_stats _ _ _ _ _ _ _ Ht).
      apply on_allocation_peak.
    + unfold SystemAllocator.Free in Hs.
      destruct (ptr =? nullptr); [injection Hs as <-; simpl; lia |].
      destruct (SystemAllocator.m_TrackingEnabled a);
        [| injection Hs as <-; simpl; lia].
      destruct (SystemAllocator.headers heap !! _) as [h |];
        [| discriminate]; simpl in Hs.
      destruct (negb _); [injection Hs as <-; simpl; lia |].
      destruct (SystemAllocator.TrackDeallocation a _ _)
        as [[a1 hs1] |] eqn:Ht; [| discriminate].
      injection Hs as <-; simpl.
      apply TrackDeallocation_stats in Ht as (h' & _ & ->). simpl; lia.
    + injection Hs as <-; simpl; lia.
    + injection Hs as <-; simpl; lia.
  - intros size buffer cs. unfold LinearAllocator.run.
    set (a0 := (LinearAllocator.new dbg size buffer).1).
    assert (H0 : 0 <= currentUsage (LinearAllocator.m_Stats a0)
                   <= peakUsage (LinearAllocator.m_Stats a0))
      by (simpl; lia).
    clearbody a0. revert a0 H0.
    induction cs as [| c cs IH]; intros a0 H0; simpl; [exact H0 |].
    apply IH. destruct c as [sz tag alignment | ptr | ]; simpl;
      [| exact H0 | lia].
    unfold LinearAllocator.Allocate.
    destruct (sz =? 0); [exact H0 |].
    destruct (_ >? _); simpl; [exact H0 |].
    pose proof (on_allocation_peak (LinearAllocator.m_Stats a0) sz) as [_ Hp].
    pose proof (to_size_t_range
                  (currentUsage (LinearAllocator.m_Stats a0) + sz)) as [Hn _].
    simpl in Hp |- *. lia.
Qed.

(** ** Assertions in the two builds *)

Lemma EDGE_ASSERT_release cond text msg :
  EDGE_ASSERT false cond text msg = [].
Proof. reflexivity. Qed.

Lemma EDGE_ASSERT_reports dbg cond text msg r :
  r ∈ EDGE_ASSERT dbg cond text msg ->
  dbg = true /\ cond = false /\ level (info r) = Error /\ debug_break r = true.
Proof.
  unfold EDGE_ASSERT, EDGE_ASSERT_IMPL.
  destruct dbg; [| intros H; inversion H].
  destruct cond; [intros H; inversion H |].
  intros H. apply list_elem_of_singleton in H as ->. simpl. auto.
Qed.

(** X10. A release build says nothing: no operation of any allocator
    raises an assertion there, so a failure shows only in the null
    result. In a debug build every assertion an allocator operation
    raises is of level [Error] and asks for a break. *)
Theorem assertions_by_build :
  (forall a size tag alignment,
     (LinearAllocator.Allocate false a size tag alignment).2 = [])
  /\ (forall a mem size tag alignment r,
        PoolAllocator.Allocate false a mem size tag alignment = Some r ->
        r.2 = [])
  /\ (forall a mem ptr, (PoolAllocator.Free false a mem ptr).2 = [])
  /\ (forall a heap size tag alignment memory r,
        SystemAllocator.Allocate false a heap size tag alignment memory
          = Some r ->
        r.2 = [])
  /\ (forall a heap ptr r,
        SystemAllocator.Free false a heap ptr = Some r -> r.2 = [])
  /\ (forall a, (SystemAllocator.Reset false a).2 = [])
  /\ (forall a enabled,
        (SystemAllocator.SetTrackingEnabled false a enabled).2 = [])
  /\ (forall cond text msg r,
        r ∈ EDGE_ASSERT true cond text msg ->
        cond = false /\ level (info r) = Error /\ debug_break r = true).
Proof.
  repeat split.
  - intros a size tag alignment. unfold LinearAllocator.Allocate.
    destruct (size =? 0); [reflexivity |]. destruct (_ >? _); reflexivity.
  - intros a mem size tag alignment r. unfold PoolAllocator.Allocate.
    destruct (size >? _); [intros [= <-]; reflexivity |].
    destruct (_ =? nullptr); [intros [= <-]; reflexivity |].
    destruct (mem !! _); [intros [= <-]; reflexivity | discriminate].
  - intros a mem ptr. unfold PoolAllocator.Free.
    destruct (ptr =? nullptr); [reflexivity |].
    destruct (_ || _); reflexivity.
  - intros a heap size tag alignment memory r.
    unfold SystemAllocator.Allocate.
    destruct (size =? 0); [intros [= <-]; reflexivity |].
    destruct (memory =? nullptr); [intros [= <-]; reflexivity |].
    destruct (SystemAllocator.m_TrackingEnabled a);
      [| intros [= <-]; reflexivity].
    destruct (SystemAllocator.TrackAllocation _ _ _ _ _) as [[a1 hs1] |];
      [intros [= <-]; reflexivity | discriminate].
  - intros a heap ptr r. unfold SystemAllocator.Free.
    destruct (ptr =? nullptr); [intros [= <-]; reflexivity |].
    destruct (SystemAllocator.m_TrackingEnabled a);
      [| intros [= <-]; reflexivity].
    destruct (SystemAllocator.headers heap !! _) as [h |];
      [| discriminate]; simpl.
    destruct (negb _); [intros [= <-]; reflexivity |].
    destruct (SystemAllocator.TrackDeallocation _ _ _) as [[a1 hs1] |];
      [intros [= <-]; reflexivity | discriminate].
  - apply (EDGE_ASSERT_reports true cond text msg r H).
  - apply (EDGE_ASSERT_reports true cond text msg r H).
  - apply (EDGE_ASSERT_reports true cond text msg r H).
Qed.

(** ** PoolAllocator: bookkeeping *)

(** X11. In a pool built by the constructor and used as intended, the
    free list is a null-terminated chain without repetition, the slots
    on it and the live pointers are, together, exactly the slots of the
    buffer, and [m_FreeCount] is the length of the chain, that is
    [elementCount] less the number of live pointers. *)
Theorem pool_free_list_bookkeeping (dbg : bool)
    (elementSize elementCount alignment buffer : Z) (mem0 : gmap Z Z)
    (a : PoolAllocator.t) (mem : gmap Z Z) (live : list Z) :
  let r := PoolAllocator.new dbg elementSize elementCount alignment buffer
             mem0 in
  PoolAllocator.well_formed r.1.1 ->
  PoolAllocator.reachable dbg r.1.1 r.1.2 a mem live ->
  exists free,
    PoolAllocator.chain mem (PoolAllocator.m_FreeList a) free
    /\ NoDup (free ++ live)
    /\ free ++ live ≡ₚ PoolAllocator.slots r.1.1
    /\ PoolAllocator.m_FreeCount a = Z.of_nat (length free)
    /\ PoolAllocator.m_FreeCount a
       = elementCount - Z.of_nat (length live).
Proof.
  intros r wf0 Hr.
  destruct (reachable_invariant dbg r.1.1 r.1.2 wf0
              (invariant_new dbg _ _ _ _ _ wf0) a mem live Hr)
    as [Hs (free & Hc & Hp & Hn)].
  pose proof (same_pool_well_formed _ _ Hs wf0) as wf.
  destruct (invariant_counts a live free wf Hp) as (Hlen & Hnd & _).
  exists free. rewrite <- (same_pool_slots _ _ Hs).
  destruct Hs as (_ & _ & Hcount & _). simpl in Hcount.
  repeat split; try assumption. lia.
Qed.

Lemma reachable_usage dbg a0 mem0 :
  PoolAllocator.well_formed a0 ->
  PoolAllocator.invariant a0 mem0 [] ->
  currentUsage (PoolAllocator.m_Stats a0) = 0 ->
  forall a mem live,
    PoolAllocator.reachable dbg a0 mem0 a mem live ->
    currentUsage (PoolAllocator.m_Stats a)
    = to_size_t (PoolAllocator.m_ElementSize a0 * Z.of_nat (length live)).
Proof.
  intros wf0 Hinv0 Hz a mem live Hr.
  induction Hr as [| a mem live size tag alignment ptr a' rs Hr IH HA Hnn
                   | a mem live size tag alignment a' rs Hr IH HA
                   | a mem live1 ptr live2 Hr IH
                   | a mem live Hr IH
                   | a mem live ptr addr value Hr IH Hl Haddr].
  - rewrite Hz, Z.mul_0_r. reflexivity.
  - destruct (reachable_invariant dbg a0 mem0 wf0 Hinv0 _ _ _ Hr)
      as [(_ & He & _) _].
    apply pool_Allocate_inv in HA
      as [[-> _] | (_ & _ & _ & _ & _ & _ & -> & _)]; [congruence |].
    simpl. rewrite IH, He, to_size_t_add_l. f_equal.
    rewrite Nat2Z.inj_succ. lia.
  - apply pool_Allocate_inv in HA as [[_ ->] | (Hnn & _)];
      [exact IH | congruence].
  - destruct (reachable_invariant dbg a0 mem0 wf0 Hinv0 _ _ _ Hr)
      as [Hs Hi].
    pose proof (same_pool_well_formed _ _ Hs wf0) as wf.
    assert (Hslot : ptr ∈ PoolAllocator.slots a).
    { apply (invariant_live_slot a mem _ ptr wf Hi).
      apply elem_of_app. right. apply elem_of_cons. left; reflexivity. }
    rewrite pool_Free_accepted.
    + simpl. destruct Hs as (_ & He & _). rewrite IH, He, to_size_t_sub_l.
      f_equal. rewrite !length_app. simpl length.
      rewrite !Nat2Z.inj_add, Nat2Z.inj_succ. lia.
    + apply (pool_slot_nonnull a wf ptr Hslot).
    + rewrite to_size_t_small by apply (pool_count_size_t a wf).
      apply (pool_slot_in_range a wf ptr Hslot).
  - simpl. rewrite Z.mul_0_r. reflexivity.
  - exact IH.
Qed.

(** X12. In a pool built by the constructor and used as intended, the
    current usage is [elementSize] times the number of live pointers
    (as a [size_t]), whatever sizes were asked for. *)
Theorem pool_current_usage (dbg : bool)
    (elementSize elementCount alignment buffer : Z) (mem0 : gmap Z Z)
    (a : PoolAllocator.t) (mem : gmap Z Z) (live : list Z) :
  let r := PoolAllocator.new dbg elementSize elementCount alignment buffer
             mem0 in
  PoolAllocator.well_formed r.1.1 ->
  PoolAllocator.reachable dbg r.1.1 r.1.2 a mem live ->
  currentUsage (PoolAllocator.GetStats a)
  = to_size_t (elementSize * Z.of_nat (length live)).
Proof.
  intros r wf0 Hr.
  apply (reachable_usage dbg r.1.1 r.1.2 wf0
           (invariant_new dbg _ _ _ _ _ wf0) eq_refl a mem live Hr).
Qed.

(** X13. Allocating from a pool and freeing the pointer at once puts the
    pool back: the same head of the free list, the same free count, the
    same memory, the same current usage; the totals and the counts have
    each grown by one slot. *)
Theorem pool_allocate_then_free (dbg : bool) (a : PoolAllocator.t)
    (mem : gmap Z Z) (size : Z) (tag : MemoryTag.t) (alignment next : Z) :
  size <= PoolAllocator.m_ElementSize a ->
  PoolAllocator.m_FreeList a <> nullptr ->
  PoolAllocator.m_Buffer a <= PoolAllocator.m_FreeList a
    < PoolAllocator.m_Buffer a
      + to_size_t (PoolAllocator.m_AlignedElementSize a
                   * PoolAllocator.m_ElementCount a) ->
  mem !! PoolAllocator.m_FreeList a = Some next ->
  1 <= PoolAllocator.m_FreeCount a < size_t_modulus ->
  is_size_t (currentUsage (PoolAllocator.m_Stats a)) ->
  exists a',
    PoolAllocator.Allocate dbg a mem size tag alignment
      = Some (PoolAllocator.m_FreeList a, a', [])
    /\ let f := PoolAllocator.Free dbg a' mem (PoolAllocator.m_FreeList a) in
       f.2 = [] /\ f.1.2 = mem
       /\ PoolAllocator.m_FreeList f.1.1 = PoolAllocator.m_FreeList a
       /\ PoolAllocator.m_FreeCount f.1.1 = PoolAllocator.m_FreeCount a
       /\ currentUsage (PoolAllocator.m_Stats f.1.1)
          = currentUsage (PoolAllocator.m_Stats a)
       /\ totalAllocated (PoolAllocator.m_Stats f.1.1)
          = to_size_t (totalAllocated (PoolAllocator.m_Stats a)
                       + PoolAllocator.m_ElementSize a)
       /\ totalFreed (PoolAllocator.m_Stats f.1.1)
          = to_size_t (totalFreed (PoolAllocator.m_Stats a)
                       + PoolAllocator.m_ElementSize a)
       /\ allocationCount (PoolAllocator.m_Stats f.1.1)
          = to_size_t (allocationCount (PoolAllocator.m_Stats a) + 1)
       /\ freeCount (PoolAllocator.m_Stats f.1.1)
          = to_size_t (freeCount (PoolAllocator.m_Stats a) + 1).
Proof.
  intros Hsz Hnn Hr Hnext Hfc Hcu.
  unfold PoolAllocator.Allocate.
  destruct (Z.gtb_spec size (PoolAllocator.m_ElementSize a)); [lia |].
  rewrite (proj2 (Z.eqb_neq _ _)) by exact Hnn.
  rewrite Hnext. simpl. eexists. split; [reflexivity |].
  rewrite pool_Free_accepted by assumption. simpl.
  repeat split.
  - apply insert_id, Hnext.
  - rewrite (to_size_t_small (PoolAllocator.m_FreeCount a - 1))
      by (unfold is_size_t; lia).
    rewrite to_size_t_small by (unfold is_size_t; lia). lia.
  - rewrite to_size_t_sub_l.
    replace (currentUsage (PoolAllocator.m_Stats a)
             + PoolAllocator.m_ElementSize a
             - PoolAllocator.m_ElementSize a)
      with (currentUsage (PoolAllocator.m_Stats a)) by lia.
    apply to_size_t_small, Hcu.
Qed.

(** X14. [Free] does not ask whether the slot is live. Freeing the same
    in-range pointer twice makes the slot its own successor on the free
    list, and the next two allocations both return it. *)
Theorem pool_double_free (dbg : bool) (a : PoolAllocator.t) (mem : gmap Z Z)
    (ptr size1 size2 : Z) (tag1 tag2 : MemoryTag.t) (al1 al2 : Z) :
  ptr <> nullptr ->
  PoolAllocator.m_Buffer a <= ptr
    < PoolAllocator.m_Buffer a
      + to_size_t (PoolAllocator.m_AlignedElementSize a
                   * PoolAllocator.m_ElementCount a) ->
  size1 <= PoolAllocator.m_ElementSize a ->
  size2 <= PoolAllocator.m_ElementSize a ->
  let f1 := PoolAllocator.Free dbg a mem ptr in
  let f2 := PoolAllocator.Free dbg f1.1.1 f1.1.2 ptr in
  f2.1.2 !! ptr = Some ptr
  /\ exists a1 a2,
       PoolAllocator.Allocate dbg f2.1.1 f2.1.2 size1 tag1 al1
         = Some (ptr, a1, [])
       /\ PoolAllocator.Allocate dbg a1 f2.1.2 size2 tag2 al2
          = Some (ptr, a2, []).
Proof.
  intros Hnn Hr H1 H2 f1 f2. subst f2 f1.
  rewrite (pool_Free_accepted dbg a mem ptr Hnn Hr). simpl.
  rewrite pool_Free_accepted by assumption. simpl.
  split; [apply lookup_insert_eq |].
  unfold PoolAllocator.Allocate. simpl.
  destruct (Z.gtb_spec size1 (PoolAllocator.m_ElementSize a)); [lia |].
  rewrite (proj2 (Z.eqb_neq _ _)) by exact Hnn.
  rewrite lookup_insert_eq. simpl. eexists _, _. split; [reflexivity |].
  simpl.
  destruct (Z.gtb_spec size2 (PoolAllocator.m_ElementSize a)); [lia |].
  rewrite (proj2 (Z.eqb_neq _ _)) by exact Hnn.
  rewrite lookup_insert_eq. reflexivity.
Qed.

(** X15. A [Free] of null, or of a pointer below the buffer or at or
    past its end, changes neither the pool nor the memory; the pointer
    outside the buffer is reported in a debug build, null is not. *)
Theorem pool_free_rejected (dbg : bool) (a : PoolAllocator.t)
    (mem : gmap Z Z) (ptr : Z) :
  (ptr = nullptr -> PoolAllocator.Free dbg a mem ptr = (a, mem, []))
  /\ (ptr <> nullptr ->
      ptr < PoolAllocator.m_Buffer a
      \/ PoolAllocator.m_Buffer a
         + to_size_t (PoolAllocator.m_AlignedElementSize a
                      * PoolAllocator.m_ElementCount a) <= ptr ->
      PoolAllocator.Free dbg a mem ptr
      = (a, mem,
         EDGE_ASSERT dbg false "false"
           "Pointer does not belong to this pool")).
Proof.
  unfold PoolAllocator.Free. split.
  - intros ->. reflexivity.
  - intros Hnn Hout. rewrite (proj2 (Z.eqb_neq _ _)) by exact Hnn.
    destruct (Z.ltb_spec ptr (PoolAllocator.m_Buffer a)) as [Hlt | Hge];
      [reflexivity |].
    destruct (Z.geb_spec ptr
                (PoolAllocator.m_Buffer a
                 + to_size_t (PoolAllocator.m_AlignedElementSize a
                              * PoolAllocator.m_ElementCount a)));
      [reflexivity | lia].
Qed.

(** X16. In a pool built by the constructor with a power-of-two
    alignment and used as intended, the bytes asked for lie inside the
    slot returned and the slot lies inside the buffer. *)
Theorem pool_allocation_in_buffer (dbg : bool)
    (elementSize elementCount alignment buffer : Z) (mem0 : gmap Z Z)
    (a : PoolAllocator.t) (mem : gmap Z Z) (live : list Z)
    (size : Z) (tag : MemoryTag.t) (requested ptr : Z)
    (a' : PoolAllocator.t) (rs : list Report) :
  let r := PoolAllocator.new dbg elementSize elementCount alignment buffer
             mem0 in
  let aligned := AlignUp elementSize alignment in
  PoolAllocator.well_formed r.1.1 ->
  power_of_two alignment ->
  0 <= elementSize -> elementSize + (alignment - 1) < size_t_modulus ->
  PoolAllocator.reachable dbg r.1.1 r.1.2 a mem live ->
  PoolAllocator.Allocate dbg a mem size tag requested = Some (ptr, a', rs) ->
  ptr <> nullptr ->
  buffer <= ptr
  /\ ptr + size <= ptr + elementSize
  /\ ptr + elementSize <= ptr + aligned
  /\ ptr + aligned <= buffer + aligned * elementCount.
Proof.
  intros r aligned wf0 Hp Hes Hfit Hr HA Hnn. subst aligned.
  destruct (AlignUp_bounds elementSize alignment Hp Hes Hfit) as [Hle _].
  destruct (reachable_invariant dbg r.1.1 r.1.2 wf0
              (invariant_new dbg _ _ _ _ _ wf0) a mem live Hr)
    as [Hs (free & Hc & Hperm & _)].
  pose proof Hs as (_ & He & _). simpl in He.
  apply pool_Allocate_inv in HA
    as [[-> _] | (_ & Hsz & -> & _)]; [congruence |].
  apply chain_head in Hc as (q & l' & -> & _); [| exact Hnn].
  assert (Hin : PoolAllocator.m_FreeList a ∈ PoolAllocator.slots r.1.1).
  { rewrite <- (same_pool_slots _ _ Hs), <- Hperm.
    apply elem_of_cons. left; reflexivity. }
  apply (pool_elem_of_slots r.1.1 wf0) in Hin as (i & Hi & E).
  simpl in Hi, E. rewrite E.
  assert (0 <= AlignUp elementSize alignment) by lia.
  repeat split; nia.
Qed.

(** ** SystemAllocator: the tracking list *)

Section TrackingList.
Import SystemAllocator.

Local Abbreviation addrs l := (lb_memory <$> l).

Lemma last_memory_snoc l b : last_memory (l ++ [b]) = lb_memory b.
Proof. unfold last_memory. rewrite reverse_snoc. reflexivity. Qed.

Lemma last_memory_cons b c l :
  last_memory (b :: c :: l) = last_memory (c :: l).
Proof.
  revert b c. induction l as [| d l IH] using rev_ind; intros b c.
  - reflexivity.
  - rewrite !app_comm_cons, !last_memory_snoc. reflexivity.
Qed.

Lemma last_memory_elem l : l <> [] -> last_memory l ∈ addrs l.
Proof.
  destruct l as [| b l] using rev_ind; [congruence |]. intros _.
  rewrite last_memory_snoc, fmap_app. apply elem_of_app. right.
  apply elem_of_cons. left; reflexivity.
Qed.

Lemma first_memory_elem l : l <> [] -> first_memory l ∈ addrs l.
Proof.
  destruct l as [| b l]; [congruence |]. intros _.
  apply elem_of_cons. left; reflexivity.
Qed.

Lemma first_memory_app l1 l2 :
  l1 <> [] -> first_memory (l1 ++ l2) = first_memory l1.
Proof. destruct l1; [congruence | reflexivity]. Qed.

Lemma last_memory_app l1 l2 :
  l2 <> [] -> last_memory (l1 ++ l2) = last_memory l2.
Proof.
  intros H. induction l1 as [| b l1 IH]; [reflexivity |].
  destruct l1 as [| c l1]; simpl in *.
  - destruct l2 as [| d l2]; [congruence |]. apply last_memory_cons.
  - rewrite last_memory_cons. exact IH.
Qed.

Lemma linked_nonnull hs prev l :
  linked hs prev l -> nullptr ∉ addrs l.
Proof.
  revert prev. induction l as [| b l IH]; intros prev H.
  - apply not_elem_of_nil.
  - destruct H as (Hn & _ & Hl). apply not_elem_of_cons.
    split; [congruence | eapply IH, Hl].
Qed.

Lemma linked_lookup hs prev l p :
  linked hs prev l -> p ∈ addrs l -> is_Some (hs !! p).
Proof.
  revert prev. induction l as [| b l IH]; intros prev H Hp.
  - apply elem_of_nil in Hp as [].
  - destruct H as (_ & Hb & Hl). apply elem_of_cons in Hp as [-> | Hp].
    + rewrite Hb. eauto.
    + eapply IH; eauto.
Qed.

(** [linked] looks at memory only where the list is. *)
Lemma linked_ext hs hs' prev l :
  (forall q, q ∈ addrs l -> hs' !! q = hs !! q) ->
  linked hs prev l -> linked hs' prev l.
Proof.
  revert prev. induction l as [| b l IH]; intros prev Hq H; [exact I |].
  destruct H as (Hn & Hb & Hl). split; [exact Hn |]. split.
  - rewrite Hq; [exact Hb | apply elem_of_cons; left; reflexivity].
  - apply IH; [| exact Hl].
    intros q Hin. apply Hq, elem_of_cons. right; exact Hin.
Qed.

(** The last header of a list has no successor. *)
Lemma linked_last hs prev l :
  linked hs prev l -> l <> [] ->
  exists h, hs !! last_memory l = Some h /\ h_next h = nullptr.
Proof.
  revert prev. induction l as [| b l IH]; intros prev H Hne; [congruence |].
  destruct H as (_ & Hb & Hl). destruct l as [| c l].
  - eexists; split; [exact Hb | reflexivity].
  - rewrite last_memory_cons. eapply IH; [exact Hl | discriminate].
Qed.



(** Appending a block: its header goes in with [prev] the old last
    header, whose [next] is set to it. *)
Lemma linked_snoc hs b : forall l prev hl,
  linked hs prev l -> l <> [] ->
  lb_memory b <> nullptr -> lb_memory b ∉ addrs l -> NoDup (addrs l) ->
  hs !! last_memory l = Some hl ->
  linked (<[last_memory l := set_next (lb_memory b) hl]>
            (<[lb_memory b := header_of b (last_memory l) nullptr]> hs))
    prev (l ++ [b]).
Proof.
  induction l as [| c l IH]; intros prev hl H Hne Hb Hfresh Hnd Hl;
    [congruence |].
  destruct H as (Hc & Hhc & Hlk).
  apply not_elem_of_cons in Hfresh as [Hbc Hfresh].
  apply NoDup_cons in Hnd as [Hcl Hnd].
  destruct l as [| d l].
  - change (last_memory [c]) with (lb_memory c) in *.
    rewrite Hhc in Hl. injection Hl as <-.
    simpl. split; [exact Hc |]. split; [apply lookup_insert_eq |].
    split; [exact Hb |]. split; [| exact I].
    rewrite lookup_insert_ne by congruence. apply lookup_insert_eq.
  - rewrite last_memory_cons in *.
    assert (Hlast : last_memory (d :: l) ∈ addrs (d :: l))
      by (apply last_memory_elem; discriminate).
    change ((c :: d :: l) ++ [b]) with (c :: (d :: l) ++ [b]).
    split; [exact Hc |]. split.
    + rewrite lookup_insert_ne by (intros E; apply Hcl; rewrite <- E; exact Hlast).
      rewrite lookup_insert_ne by congruence. exact Hhc.
    + apply IH; try assumption. discriminate.
Qed.

(** Taking a block out: memory elsewhere on the list is as before, the
    header before it (if any) has its [next] moved on and the header
    after it (if any) its [prev] moved back. *)
Lemma linked_remove hs hs' b l2 : forall l1 prev,
  linked hs prev (l1 ++ b :: l2) ->
  NoDup (addrs (l1 ++ b :: l2)) ->
  prev ∉ addrs (l1 ++ b :: l2) ->
  let pv := match l1 with [] => prev | _ => last_memory l1 end in
  let nx := first_memory l2 in
  (forall q, q ∈ addrs (l1 ++ l2) -> q <> pv -> q <> nx ->
             hs' !! q = hs !! q) ->
  (pv ∈ addrs l1 -> hs' !! pv = set_next nx <$> hs !! pv) ->
  (nx ∈ addrs l2 -> hs' !! nx = set_prev pv <$> hs !! nx) ->
  linked hs' prev (l1 ++ l2).
Proof.
  induction l1 as [| c l1 IH]; intros prev H Hnd Hprev pv nx H1 H2 H3.
  - subst pv nx. simpl in *. destruct H as (Hb & Hhb & Hlk).
    apply NoDup_cons in Hnd as [Hbl Hnd].
    apply not_elem_of_cons in Hprev as [Hpb Hprev].
    destruct l2 as [| d l2]; [exact I |].
    destruct Hlk as (Hd & Hhd & Hlk). simpl in *.
    apply NoDup_cons in Hnd as [Hdl Hnd].
    split; [exact Hd |]. split.
    + rewrite H3 by (apply elem_of_cons; left; reflexivity).
      rewrite Hhd. reflexivity.
    + apply (linked_ext hs); [| exact Hlk].
      intros q Hq. apply H1.
      * apply elem_of_cons. right; exact Hq.
      * intros ->. apply Hprev, elem_of_cons. right; exact Hq.
      * intros ->. exact (Hdl Hq).
  - change ((c :: l1) ++ b :: l2) with (c :: l1 ++ b :: l2) in *.
    destruct H as (Hc & Hhc & Hlk). rewrite fmap_cons in Hnd, Hprev.
    apply NoDup_cons in Hnd as [Hcl Hnd].
    apply not_elem_of_cons in Hprev as [Hpc Hprev].
    assert (Hcnx : lb_memory c <> nx).
    { subst nx. destruct l2 as [| d l2]; [exact Hc |].
      intros E. apply Hcl. rewrite fmap_app. apply elem_of_app. right.
      apply elem_of_cons. right. rewrite E.
      apply elem_of_cons. left; reflexivity. }
    change ((c :: l1) ++ l2) with (c :: l1 ++ l2).
    split; [exact Hc |]. split.
    + destruct l1 as [| e l1].
      * subst pv. change (last_memory [c]) with (lb_memory c) in *.
        rewrite H2 by (apply elem_of_cons; left; reflexivity).
        rewrite Hhc. reflexivity.
      * assert (Hpvin : pv ∈ addrs (e :: l1)).
        { subst pv. rewrite last_memory_cons.
          apply last_memory_elem. discriminate. }
        rewrite H1; [exact Hhc | | | exact Hcnx].
        -- apply elem_of_cons. left; reflexivity.
        -- intros E. apply Hcl. rewrite fmap_app. apply elem_of_app.
           left. rewrite E. exact Hpvin.
    + assert (Hpv : pv = match l1 with
                         | [] => lb_memory c
                         | _ => last_memory l1
                         end).
      { subst pv. destruct l1 as [| e l1]; [reflexivity |].
        apply last_memory_cons. }
      apply IH; try assumption; rewrite <- ?Hpv; fold nx.
      * intros q Hq. apply H1. apply elem_of_cons. right; exact Hq.
      * intros Hin. apply H2. apply elem_of_cons. right; exact Hin.
      * exact H3.
Qed.

End TrackingList.

Section TrackingInvariant.
Import SystemAllocator.

Local Abbreviation addrs l := (lb_memory <$> l).

Lemma sum_sizes_app (l1 l2 : list live_block) :
  foldr Z.add 0 (lb_size <$> (l1 ++ l2))
  = foldr Z.add 0 (lb_size <$> l1) + foldr Z.add 0 (lb_size <$> l2).
Proof.
  rewrite fmap_app. generalize (lb_size <$> l1) as x.
  induction x as [| z x IH]; simpl; [reflexivity | rewrite IH; lia].
Qed.

Lemma NoDup_addrs_remove (l1 l2 : list live_block) b :
  NoDup (addrs (l1 ++ b :: l2)) ->
  NoDup (addrs (l1 ++ l2)) /\ lb_memory b ∉ addrs (l1 ++ l2).
Proof.
  rewrite !fmap_app, fmap_cons. intros H.
  apply NoDup_app in H as (H1 & Hd & H2).
  apply NoDup_cons in H2 as [Hb H2]. split.
  - apply NoDup_app. split; [exact H1 |]. split; [| exact H2].
    intros x Hx Hin. apply (Hd x Hx). apply elem_of_cons. right; exact Hin.
  - intros Hin. apply elem_of_app in Hin as [Hin | Hin]; [| exact (Hb Hin)].
    apply (Hd _ Hin). apply elem_of_cons. left; reflexivity.
Qed.

Lemma update_header_Some hs p f h :
  hs !! p = Some h -> update_header hs p f = Some (<[p := f h]> hs).
Proof. intros H. unfold update_header. rewrite H. reflexivity. Qed.

(** [TrackAllocation] on a well-kept list. *)
Lemma TrackAllocation_tracked a heap live b :
  tracking_invariant a heap live ->
  lb_memory b <> nullptr -> lb_memory b ∉ addrs live ->
  exists a' hs',
    TrackAllocation a
      (<[lb_memory b := header_of b nullptr nullptr]> (headers heap))
      (lb_memory b) (lb_size b) (lb_tag b) = Some (a', hs')
    /\ m_Stats a' = on_allocation (m_Stats a) (lb_size b)
    /\ m_TrackingEnabled a' = true
    /\ m_FirstAllocation a' = first_memory (live ++ [b])
    /\ m_LastAllocation a' = last_memory (live ++ [b])
    /\ linked hs' nullptr (live ++ [b]).
Proof.
  intros [Hen Hf Hl Hnd Hlk _ _ _ _ _] Hb Hfresh.
  unfold TrackAllocation. rewrite last_memory_snoc.
  destruct live as [| c live].
  - rewrite Hf. simpl. eexists _, _. split; [reflexivity |].
    repeat split; try assumption. apply lookup_insert_eq.
  - assert (Hne : c :: live <> []) by discriminate.
    pose proof (linked_nonnull _ _ _ Hlk) as Hnn.
    pose proof (first_memory_elem _ Hne) as Hfe.
    pose proof (last_memory_elem _ Hne) as Hle.
    destruct (linked_last _ _ _ Hlk Hne) as (hl & Hhl & _).
    rewrite (proj2 (Z.eqb_neq (m_FirstAllocation a) nullptr))
      by (rewrite Hf; intros E; apply Hnn; rewrite <- E; exact Hfe).
    rewrite (update_header_Some _ _ _ _ (lookup_insert_eq _ _ _)). simpl.
    rewrite insert_insert_eq.
    rewrite (update_header_Some _ (m_LastAllocation a) _ hl)
      by (rewrite Hl, lookup_insert_ne
            by (intros E; apply Hfresh; rewrite E; exact Hle);
          exact Hhl).
    simpl. rewrite Hl. eexists _, _. split; [reflexivity |].
    split; [reflexivity |]. split; [exact Hen |].
    split; [exact Hf |]. split; [reflexivity |].
    apply (linked_snoc (headers heap) b (c :: live) nullptr hl);
      assumption.
Qed.

(** [Allocate] on a well-kept list, given a fresh block. *)
Lemma Allocate_tracked dbg a heap live size tag alignment memory :
  tracking_invariant a heap live ->
  size <> 0 -> memory <> nullptr ->
  memory + sizeof_AllocationHeader <> nullptr ->
  memory ∉ blocks heap ->
  let b := {| lb_memory := memory; lb_size := size; lb_tag := tag;
              lb_alignment := alignment |} in
  exists a' heap' rs,
    Allocate dbg a heap size tag alignment memory
      = Some (memory + sizeof_AllocationHeader, a', heap', rs)
    /\ m_Stats a' = on_allocation (m_Stats a) size
    /\ blocks heap' = {[memory]} ∪ blocks heap
    /\ tracking_invariant a' heap' (live ++ [b]).
Proof.
  intros Hinv Hs Hm Hp Hfresh b.
  assert (Hnew : memory ∉ addrs live).
  { intros Hin. apply list_elem_of_fmap in Hin as (c & -> & Hc).
    apply Hfresh, (ti_held _ _ _ Hinv c Hc). }
  destruct (TrackAllocation_tracked a heap live b Hinv Hm Hnew)
    as (a' & hs' & HT & Hst & Hen & Hf & Hl & Hlk).
  unfold Allocate.
  rewrite (proj2 (Z.eqb_neq _ _)) by exact Hs.
  rewrite (proj2 (Z.eqb_neq _ _)) by exact Hm.
  rewrite (ti_enabled _ _ _ Hinv). subst b. unfold header_of in HT.
  simpl in HT |- *. rewrite HT. simpl.
  eexists _, _, _. split; [reflexivity |].
  split; [exact Hst |]. split; [reflexivity |].
  destruct Hinv as [_ _ _ Hnd _ Hheld Hptr Hfr Hcnt Huse].
  constructor; simpl; try assumption.
  - rewrite fmap_app. apply NoDup_app. split; [exact Hnd |]. split.
    + intros x Hx Hin. apply list_elem_of_singleton in Hin as ->.
      exact (Hnew Hx).
    + apply NoDup_singleton.
  - intros c Hc. apply elem_of_app in Hc as [Hc | Hc].
    + apply elem_of_union. right. apply Hheld, Hc.
    + apply list_elem_of_singleton in Hc as ->.
      apply elem_of_union. left. apply elem_of_singleton. reflexivity.
  - intros c Hc. apply elem_of_app in Hc as [Hc | Hc].
    + apply Hptr, Hc.
    + apply list_elem_of_singleton in Hc as ->. exact Hp.
  - rewrite Hst. exact Hfr.
  - rewrite Hst. simpl. rewrite Hcnt, to_size_t_add_l, length_app.
    f_equal. simpl length. lia.
  - rewrite Hst. simpl. rewrite Huse, to_size_t_add_l, sum_sizes_app.
    f_equal. simpl. lia.
Qed.

End TrackingInvariant.

Section TrackingFree.
Import SystemAllocator.

Local Abbreviation addrs l := (lb_memory <$> l).

(** [TrackDeallocation] on a header whose neighbours are in memory. *)
Lemma TrackDeallocation_unlink a hs p h :
  hs !! p = Some h ->
  h_prev h <> p -> h_next h <> p ->
  (h_prev h <> nullptr -> is_Some (hs !! h_prev h)) ->
  (h_next h <> nullptr -> is_Some (hs !! h_next h)) ->
  (h_prev h <> nullptr -> h_prev h <> h_next h) ->
  exists a' hs2,
    TrackDeallocation a hs p = Some (a', hs2)
    /\ m_Stats a' = on_deallocation (m_Stats a) (h_size h)
    /\ m_TrackingEnabled a' = m_TrackingEnabled a
    /\ m_FirstAllocation a'
       = (if h_prev h =? nullptr then h_next h else m_FirstAllocation a)
    /\ m_LastAllocation a'
       = (if h_next h =? nullptr then h_prev h else m_LastAllocation a)
    /\ (forall q, q <> h_prev h -> q <> h_next h -> hs2 !! q = hs !! q)
    /\ (h_prev h <> nullptr ->
        hs2 !! h_prev h = set_next (h_next h) <$> hs !! h_prev h)
    /\ (h_next h <> nullptr ->
        hs2 !! h_next h = set_prev (h_prev h) <$> hs !! h_next h).
Proof.
  intros Hh Hpp Hnp Hpv Hnx Hne. unfold TrackDeallocation.
  rewrite Hh. simpl.
  destruct (Z.eqb_spec (h_prev h) nullptr) as [Ep | Ep]; simpl.
  - rewrite Hh. simpl.
    destruct (Z.eqb_spec (h_next h) nullptr) as [En | En]; simpl.
    + eexists _, _. split; [reflexivity |]. simpl.
      repeat split; try reflexivity; intros; congruence.
    + destruct (Hnx En) as [hn Hhn].
      rewrite (update_header_Some _ _ _ _ Hhn). simpl.
      eexists _, _. split; [reflexivity |]. simpl.
      repeat split; try reflexivity.
      * intros q _ Hq. apply lookup_insert_ne. congruence.
      * intros; congruence.
      * intros _. rewrite lookup_insert_eq, Hhn. reflexivity.
  - destruct (Hpv Ep) as [hp Hhp].
    rewrite (update_header_Some _ _ _ _ Hhp). simpl.
    rewrite lookup_insert_ne by congruence. rewrite Hh. simpl.
    destruct (Z.eqb_spec (h_next h) nullptr) as [En | En]; simpl.
    + eexists _, _. split; [reflexivity |]. simpl.
      repeat split; try reflexivity.
      * intros q Hq _. apply lookup_insert_ne. congruence.
      * intros _. rewrite lookup_insert_eq, Hhp. reflexivity.
      * intros; congruence.
    + destruct (Hnx En) as [hn Hhn]. specialize (Hne Ep).
      rewrite (update_header_Some _ (h_next h) _ hn)
        by (rewrite lookup_insert_ne by congruence; exact Hhn).
      simpl. eexists _, _. split; [reflexivity |]. simpl.
      repeat split; try reflexivity.
      * intros q Hq1 Hq2.
        rewrite !lookup_insert_ne by congruence. reflexivity.
      * intros _. rewrite lookup_insert_ne by congruence.
        rewrite lookup_insert_eq, Hhp. reflexivity.
      * intros _. rewrite lookup_insert_eq, Hhn. reflexivity.
Qed.

(** The header of a block in the middle of the list. *)
Lemma linked_middle hs b l2 : forall l1 prev,
  linked hs prev (l1 ++ b :: l2) ->
  hs !! lb_memory b
  = Some (header_of b (match l1 with [] => prev | _ => last_memory l1 end)
            (first_memory l2)).
Proof.
  induction l1 as [| c l1 IH]; intros prev H.
  - destruct H as (_ & H & _). exact H.
  - destruct H as (_ & _ & H). rewrite (IH _ H).
    destruct l1 as [| d l1]; [reflexivity |].
    rewrite last_memory_cons. reflexivity.
Qed.

End TrackingFree.

Section TrackingFreeInvariant.
Import SystemAllocator.

Local Abbreviation addrs l := (lb_memory <$> l).

(** [Free] of a live pointer on a well-kept list. *)
Lemma Free_tracked dbg a heap l1 b l2 :
  tracking_invariant a heap (l1 ++ b :: l2) ->
  exists a' heap',
    Free dbg a heap (lb_memory b + sizeof_AllocationHeader)
      = Some (a', heap', [])
    /\ m_Stats a' = on_deallocation (m_Stats a) (lb_size b)
    /\ blocks heap' = blocks heap ∖ {[lb_memory b]}
    /\ headers heap' !! lb_memory b = None
    /\ tracking_invariant a' heap' (l1 ++ l2).
Proof.
  intros [Hen Hf Hl Hnd Hlk Hheld Hptr Hfr Hcnt Huse].
  set (pv := match l1 with [] => nullptr | _ => last_memory l1 end).
  set (nx := first_memory l2).
  pose proof (linked_middle _ b l2 l1 nullptr Hlk) as Hhb.
  fold pv nx in Hhb.
  pose proof (linked_nonnull _ _ _ Hlk) as Hnn.
  destruct (NoDup_addrs_remove l1 l2 b Hnd) as [Hnd' Hpn].
  assert (Hsub : forall q, q ∈ addrs (l1 ++ l2) -> q ∈ addrs (l1 ++ b :: l2)).
  { intros q. rewrite !fmap_app, fmap_cons, !elem_of_app, elem_of_cons. tauto. }
  assert (Hp0 : lb_memory b <> nullptr).
  { intros E. apply Hnn. rewrite <- E, fmap_app. apply elem_of_app. right.
    apply elem_of_cons. left; reflexivity. }
  assert (Hpv : (l1 = [] /\ pv = nullptr)
                \/ (l1 <> [] /\ pv ∈ addrs l1 /\ pv <> nullptr)).
  { subst pv. destruct l1 as [| c l1]; [left; split; reflexivity |].
    right. assert (Hin : last_memory (c :: l1) ∈ addrs (c :: l1))
      by (apply last_memory_elem; discriminate).
    split; [discriminate |]. split; [exact Hin |].
    intros E. apply Hnn. rewrite <- E, fmap_app. apply elem_of_app.
    left; exact Hin. }
  assert (Hnx : (l2 = [] /\ nx = nullptr)
                \/ (l2 <> [] /\ nx ∈ addrs l2 /\ nx <> nullptr)).
  { subst nx. destruct l2 as [| d l2]; [left; split; reflexivity |].
    right. assert (Hin : first_memory (d :: l2) ∈ addrs (d :: l2))
      by (apply first_memory_elem; discriminate).
    split; [discriminate |]. split; [exact Hin |].
    intros E. apply Hnn. rewrite <- E, fmap_app. apply elem_of_app. right.
    apply elem_of_cons. right; exact Hin. }
  assert (Hpvp : pv <> lb_memory b).
  { destruct Hpv as [[_ ->] | (_ & Hin & _)]; [congruence |].
    intros E. apply Hpn. rewrite <- E, fmap_app. apply elem_of_app.
    left; exact Hin. }
  assert (Hnxp : nx <> lb_memory b).
  { destruct Hnx as [[_ ->] | (_ & Hin & _)]; [congruence |].
    intros E. apply Hpn. rewrite <- E, fmap_app. apply elem_of_app.
    right; exact Hin. }
  assert (Hpvnx : pv <> nullptr -> pv <> nx).
  { intros Hp E. destruct Hpv as [[_ ?] | (_ & Hin1 & _)]; [congruence |].
    destruct Hnx as [[_ ?] | (_ & Hin2 & _)]; [congruence |].
    rewrite fmap_app in Hnd'. apply NoDup_app in Hnd' as (_ & Hd & _).
    apply (Hd pv Hin1). rewrite E. exact Hin2. }
  destruct (TrackDeallocation_unlink a (headers heap) (lb_memory b)
              (header_of b pv nx) Hhb Hpvp Hnxp)
    as (a1 & hs2 & HT & Hst & Hen1 & Hf1 & Hl1 & L1 & L2 & L3).
  { intros Hp. destruct Hpv as [[_ ?] | (_ & Hin & _)]; [simpl in *; congruence |].
    apply (linked_lookup _ _ _ _ Hlk), Hsub.
    rewrite fmap_app. apply elem_of_app. left; exact Hin. }
  { intros Hp. destruct Hnx as [[_ ?] | (_ & Hin & _)]; [simpl in *; congruence |].
    apply (linked_lookup _ _ _ _ Hlk), Hsub.
    rewrite fmap_app. apply elem_of_app. right; exact Hin. }
  { exact Hpvnx. }
  simpl in Hst, Hf1, Hl1, L1, L2, L3.
  assert (Hptrb : lb_memory b + sizeof_AllocationHeader <> nullptr).
  { apply Hptr. apply elem_of_app. right. apply elem_of_cons.
    left; reflexivity. }
  unfold Free.
  rewrite (proj2 (Z.eqb_neq _ _)) by exact Hptrb.
  rewrite Hen.
  replace (lb_memory b + sizeof_AllocationHeader - sizeof_AllocationHeader)
    with (lb_memory b) by lia.
  rewrite Hhb. simpl. rewrite HT. simpl.
  eexists _, _. split; [reflexivity |]. split; [exact Hst |].
  split; [reflexivity |]. split; [apply lookup_delete_eq |].
  constructor; simpl.
  - rewrite Hen1. exact Hen.
  - rewrite Hf1. destruct Hpv as [[-> ->] | (Hne & _ & Hp)].
    + reflexivity.
    + rewrite (proj2 (Z.eqb_neq _ _)) by exact Hp.
      rewrite Hf, !first_memory_app by exact Hne. reflexivity.
  - rewrite Hl1. destruct Hnx as [[-> ->] | (Hne & _ & Hp)].
    + simpl. rewrite app_nil_r. subst pv.
      destruct l1; reflexivity.
    + rewrite (proj2 (Z.eqb_neq _ _)) by exact Hp.
      rewrite Hl, (last_memory_app l1 l2) by exact Hne.
      rewrite last_memory_app by discriminate.
      destruct l2 as [| d l2]; [congruence |]. apply last_memory_cons.
  - exact Hnd'.
  - apply (linked_remove (headers heap) _ b l2 l1 nullptr Hlk Hnd Hnn).
    + intros q Hq Hq1 Hq2.
      rewrite lookup_delete_ne by (intros E; apply Hpn; rewrite E; exact Hq).
      apply L1; assumption.
    + intros Hin. fold pv.
      rewrite lookup_delete_ne by congruence.
      apply L2. destruct Hpv as [[-> _] | (_ & _ & Hp)];
        [apply elem_of_nil in Hin as [] | exact Hp].
    + intros Hin. fold nx pv.
      rewrite lookup_delete_ne by congruence.
      apply L3. destruct Hnx as [[-> _] | (_ & _ & Hp)];
        [apply elem_of_nil in Hin as [] | exact Hp].
  - intros c Hc. apply elem_of_difference. split.
    + apply Hheld. apply elem_of_app in Hc as [Hc | Hc];
        apply elem_of_app; [left | right; apply elem_of_cons; right];
        exact Hc.
    + intros E. apply elem_of_singleton in E. apply Hpn. rewrite <- E.
      apply list_elem_of_fmap. exists c. split; [reflexivity | exact Hc].
  - intros c Hc. apply Hptr. apply elem_of_app in Hc as [Hc | Hc];
      apply elem_of_app; [left | right; apply elem_of_cons; right];
      exact Hc.
  - rewrite Hst. simpl. apply to_size_t_range.
  - rewrite Hst. simpl. rewrite Hcnt, to_size_t_add_l.
    f_equal. rewrite !length_app. simpl length. lia.
  - rewrite Hst. simpl. rewrite Huse, to_size_t_sub_l.
    f_equal. change (b :: l2) with ([b] ++ l2).
    rewrite !sum_sizes_app. simpl. lia.
Qed.

(** Every state of a tracking allocator used as intended satisfies the
    invariant. *)
Lemma tracked_invariant dbg a heap live :
  tracked dbg a heap live -> tracking_invariant a heap live.
Proof.
  induction 1 as [heap
                 | a heap live size tag alignment memory ptr a' heap' rs
                     Hr IH Hfresh HA Hnn
                 | a heap l1 b l2 a' heap' rs Hr IH HF
                 | a heap Hr IH].
  - constructor; simpl; try reflexivity; try exact I;
      try apply NoDup_nil_2;
      try (intros b Hb; apply elem_of_nil in Hb as []);
      unfold is_size_t, size_t_modulus; lia.
  - assert (Hsz : size <> 0).
    { intros ->. rewrite system_Allocate_zero in HA. congruence. }
    assert (Hm : memory <> nullptr).
    { intros ->. unfold Allocate in HA.
      rewrite (proj2 (Z.eqb_neq _ _)) in HA by exact Hsz.
      simpl in HA. congruence. }
    pose proof (system_Allocate_tracked _ _ _ _ _ _ _ _ _ _ _
                  (ti_enabled _ _ _ IH) HA Hnn) as Hp.
    destruct (Allocate_tracked dbg a heap live size tag alignment memory
                IH Hsz Hm ltac:(rewrite <- Hp; exact Hnn) Hfresh)
      as (a1 & heap1 & rs1 & HA1 & _ & _ & Hinv).
    rewrite HA in HA1. injection HA1 as _ <- <- _. exact Hinv.
  - destruct (Free_tracked dbg a heap l1 b l2 IH)
      as (a1 & heap1 & HF1 & _ & _ & _ & Hinv).
    rewrite HF in HF1. injection HF1 as <- <- _. exact Hinv.
  - destruct IH as [Hen Hf Hl Hnd Hlk Hheld Hptr Hfr Hcnt Huse].
    constructor; simpl; try assumption; try reflexivity.
    unfold is_size_t, size_t_modulus. lia.
Qed.

End TrackingFreeInvariant.

Section TrackingResults.
Import SystemAllocator.

Local Abbreviation addrs l := (lb_memory <$> l).

Lemma tracked_consistent dbg a heap live :
  tracked dbg a heap live -> stats_consistent (m_Stats a).
Proof.
  induction 1 as [heap
                 | a heap live size tag alignment memory ptr a' heap' rs
                     Hr IH Hfresh HA Hnn
                 | a heap l1 b l2 a' heap' rs Hr IH HF
                 | a heap Hr IH].
  - apply zero_stats_consistent.
  - apply (system_step_consistent dbg (a, heap)
             (CallAllocate size tag alignment memory) (a', heap'));
      [simpl; rewrite HA; reflexivity | exact IH].
  - apply (system_step_consistent dbg (a, heap)
             (CallFree (lb_memory b + sizeof_AllocationHeader)) (a', heap'));
      [simpl; rewrite HF; reflexivity | exact IH].
  - apply zero_stats_consistent.
Qed.

(** X17. In a tracking allocator used as intended, the allocation count
    is the free count plus the number of live blocks, and the current
    usage is the sum of the sizes of the live blocks (both as
    [size_t]); the head and the tail of the tracking list are the oldest
    and the newest live block, or null when there is none. *)
Theorem system_tracked_statistics (dbg : bool) (a : SystemAllocator.t)
    (heap : SystemAllocator.Heap) (live : list SystemAllocator.live_block) :
  tracked dbg a heap live ->
  allocationCount (GetStats a)
  = to_size_t (freeCount (GetStats a) + Z.of_nat (length live))
  /\ currentUsage (GetStats a)
     = to_size_t (foldr Z.add 0 (lb_size <$> live))
  /\ m_FirstAllocation a = first_memory live
  /\ m_LastAllocation a = last_memory live
  /\ (live = [] -> allocationCount (GetStats a) = freeCount (GetStats a)).
Proof.
  intros Hr. destruct (tracked_invariant dbg a heap live Hr)
    as [_ Hf Hl _ _ _ _ Hfr Hcnt Huse].
  repeat split; try assumption.
  intros ->. unfold GetStats. rewrite Hcnt. simpl.
  rewrite Z.add_0_r. apply to_size_t_small, Hfr.
Qed.

(** Walking a linked list with enough fuel meets each header once, in
    order. *)
Lemma walk_linked hs : forall l prev fuel,
  linked hs prev l -> (length l <= fuel)%nat ->
  exists hl,
    walk fuel hs (first_memory l) = Some hl
    /\ h_size <$> hl = lb_size <$> l
    /\ h_tag <$> hl = lb_tag <$> l
    /\ Forall (fun h => h_guardValue h = GUARD_VALUE) hl.
Proof.
  induction l as [| b l IH]; intros prev fuel H Hfuel.
  - exists []. destruct fuel; repeat split; constructor.
  - destruct H as (Hb & Hhb & Hlk).
    destruct fuel as [| fuel]; [simpl in Hfuel; lia |].
    destruct (IH (lb_memory b) fuel Hlk) as (hl & Hw & Hs & Ht & Hg);
      [simpl in Hfuel; lia |].
    exists (header_of b prev (first_memory l) :: hl).
    split.
    { simpl. rewrite (proj2 (Z.eqb_neq _ _)) by exact Hb.
      rewrite Hhb. simpl. rewrite Hw. reflexivity. }
    rewrite !fmap_cons, Hs, Ht.
    repeat split. constructor; [reflexivity | exact Hg].
Qed.

(** X18. [ReportLeaks] on a tracking allocator used as intended: with
    nothing live it returns at once; otherwise, given at least as many
    loop iterations as there are live blocks, it ends and lists exactly
    the live blocks, oldest first, with their sizes and tags, and the
    leaked bytes it prints are the sum of their sizes. *)
Theorem system_ReportLeaks_lists_live_blocks (dbg : bool)
    (a : SystemAllocator.t) (heap : SystemAllocator.Heap)
    (live : list SystemAllocator.live_block) (fuel : nat) :
  tracked dbg a heap live ->
  Z.of_nat (length live) < size_t_modulus ->
  (length live <= fuel)%nat ->
  (live = [] -> ReportLeaks fuel a (headers heap) = Some None)
  /\ (live <> [] ->
      exists r,
        ReportLeaks fuel a (headers heap) = Some (Some r)
        /\ h_size <$> leaks r = lb_size <$> live
        /\ h_tag <$> leaks r = lb_tag <$> live
        /\ length (leaks r) = length live
        /\ leaked_bytes r = to_size_t (foldr Z.add 0 (lb_size <$> live))).
Proof.
  intros Hr Hlen Hfuel.
  pose proof (tracked_consistent dbg a heap live Hr) as Hcons.
  destruct (tracked_invariant dbg a heap live Hr)
    as [Hen Hf Hl _ Hlk _ _ Hfr Hcnt Huse].
  unfold ReportLeaks. rewrite Hen. simpl. split.
  - intros ->. simpl in Hcnt. rewrite Z.add_0_r in Hcnt.
    rewrite (to_size_t_small _ Hfr) in Hcnt.
    rewrite (proj2 (Z.eqb_eq _ _)) by exact Hcnt. reflexivity.
  - intros Hne.
    assert (Hpos : 0 < Z.of_nat (length live))
      by (destruct live; [congruence | simpl; lia]).
    assert (Hneq : allocationCount (m_Stats a) <> freeCount (m_Stats a)).
    { rewrite Hcnt. unfold to_size_t, is_size_t in *. intros E.
      destruct (Z_lt_le_dec
                  (freeCount (m_Stats a) + Z.of_nat (length live))
                  size_t_modulus) as [Hlt | Hge].
      - rewrite Z.mod_small in E by lia. lia.
      - assert (E' : (freeCount (m_Stats a) + Z.of_nat (length live))
                       mod size_t_modulus
                     = freeCount (m_Stats a) + Z.of_nat (length live)
                       - size_t_modulus)
          by (symmetry; apply (Z.mod_unique_pos _ _ 1); lia).
        lia. }
    rewrite (proj2 (Z.eqb_neq _ _)) by exact Hneq.
    destruct (walk_linked (headers heap) live nullptr fuel Hlk Hfuel)
      as (hl & Hw & Hs & Ht & _).
    rewrite Hf, Hw. simpl. eexists. split; [reflexivity |]. simpl.
    split; [exact Hs |]. split; [exact Ht |]. split.
    + rewrite <- (length_fmap h_size), Hs. apply length_fmap.
    + rewrite <- Hcons. exact Huse.
Qed.

Lemma tracked_Allocate dbg a heap live size tag alignment memory :
  tracked dbg a heap live ->
  size <> 0 -> memory <> nullptr ->
  memory + sizeof_AllocationHeader <> nullptr ->
  memory ∉ blocks heap ->
  exists a' heap' rs,
    Allocate dbg a heap size tag alignment memory
      = Some (memory + sizeof_AllocationHeader, a', heap', rs)
    /\ m_Stats a' = on_allocation (m_Stats a) size
    /\ blocks heap' = {[memory]} ∪ blocks heap
    /\ tracked dbg a' heap'
         (live ++ [ {| lb_memory := memory; lb_size := size;
                       lb_tag := tag; lb_alignment := alignment |} ]).
Proof.
  intros Hr Hs Hm Hp Hfresh.
  destruct (Allocate_tracked dbg a heap live size tag alignment memory
              (tracked_invariant _ _ _ _ Hr) Hs Hm Hp Hfresh)
    as (a' & heap' & rs & HA & Hst & Hbl & _).
  exists a', heap', rs. repeat split; try assumption.
  eapply tracked_alloc; eauto.
Qed.

Lemma tracked_Free dbg a heap live1 b live2 :
  tracked dbg a heap (live1 ++ b :: live2) ->
  exists a' heap',
    Free dbg a heap (lb_memory b + sizeof_AllocationHeader)
      = Some (a', heap', [])
    /\ m_Stats a' = on_deallocation (m_Stats a) (lb_size b)
    /\ blocks heap' = blocks heap ∖ {[lb_memory b]}
    /\ headers heap' !! lb_memory b = None
    /\ tracked dbg a' heap' (live1 ++ live2).
Proof.
  intros Hr.
  destruct (Free_tracked dbg a heap live1 b live2
              (tracked_invariant _ _ _ _ Hr))
    as (a' & heap' & HF & Hst & Hbl & Hh & _).
  exists a', heap'. repeat split; try assumption.
  eapply tracked_free; eauto.
Qed.


End TrackingResults.

Section TrackingRoundTrip.
Import SystemAllocator.

Local Abbreviation addrs l := (lb_memory <$> l).



End TrackingRoundTrip.

(** ** SystemAllocator: per-tag statistics *)

Lemma TrackAllocation_tags a hs header size tag a' hs' :
  SystemAllocator.TrackAllocation a hs header size tag = Some (a', hs') ->
  SystemAllocator.m_TagStats a'
  = if (tag <? MemoryTag.COUNT)%nat
    then alter (fun s => on_allocation s size) tag
           (SystemAllocator.m_TagStats a)
    else SystemAllocator.m_TagStats a.
Proof.
  unfold SystemAllocator.TrackAllocation; intros Ht.
  destruct (SystemAllocator.m_FirstAllocation a =? nullptr).
  - injection Ht as <- _; reflexivity.
  - destruct (SystemAllocator.update_header hs header _) as [hs1 |];
      [| discriminate]; simpl in Ht.
    destruct (SystemAllocator.update_header hs1 _ _) as [hs2 |];
      [| discriminate]; simpl in Ht.
    injection Ht as <- _; reflexivity.
Qed.

Lemma TrackDeallocation_tags a hs header a' hs' :
  SystemAllocator.TrackDeallocation a hs header = Some (a', hs') ->
  exists h, hs !! header = Some h /\
    SystemAllocator.m_TagStats a'
    = if (SystemAllocator.h_tag h <? MemoryTag.COUNT)%nat
      then alter (fun s => on_deallocation s (SystemAllocator.h_size h))
             (SystemAllocator.h_tag h) (SystemAllocator.m_TagStats a)
      else SystemAllocator.m_TagStats a.
Proof.
  unfold SystemAllocator.TrackDeallocation; intros Ht.
  destruct (hs !! header) as [h |]; [| discriminate]; simpl in Ht.
  exists h; split; [reflexivity |].
  match type of Ht with
  | mbind _ ?m = _ => destruct m as [[first hs1] |]; [| discriminate]
  end; simpl in Ht.
  destruct (hs1 !! header) as [h1 |]; [| discriminate]; simpl in Ht.
  match type of Ht with
  | mbind _ ?m = _ => destruct m as [[last hs2] |]; [| discriminate]
  end; simpl in Ht.
  injection Ht as <- _; reflexivity.
Qed.

Lemma system_step_tags_consistent dbg s c s' :
  SystemAllocator.step dbg s c = Some s' ->
  Forall stats_consistent (SystemAllocator.m_TagStats s.1) ->
  Forall stats_consistent (SystemAllocator.m_TagStats s'.1).
Proof.
  destruct s as [a heap]; intros Hs H; simpl in *.
  destruct c as [size tag alignment memory | ptr | | enabled | addr h];
    simpl in Hs.
  - unfold SystemAllocator.Allocate in Hs.
    destruct (size =? 0); [injection Hs as <-; exact H |].
    destruct (memory =? nullptr); [injection Hs as <-; exact H |].
    destruct (SystemAllocator.m_TrackingEnabled a);
      [| injection Hs as <-; exact H].
    destruct (SystemAllocator.TrackAllocation a _ memory size tag)
      as [[a1 hs1] |] eqn:Ht; [| discriminate].
    injection Hs as <-; simpl.
    rewrite (TrackAllocation_tags _ _ _ _ _ _ _ Ht).
    destruct (_ <? _)%nat; [| exact H].
    apply Forall_alter; [exact H |].
    intros x _ Hx. apply on_allocation_consistent, Hx.
  - unfold SystemAllocator.Free in Hs.
    destruct (ptr =? nullptr); [injection Hs as <-; exact H |].
    destruct (SystemAllocator.m_TrackingEnabled a);
      [| injection Hs as <-; exact H].
    destruct (SystemAllocator.headers heap !! _) as [h |];
      [| discriminate]; simpl in Hs.
    destruct (negb _); [injection Hs as <-; exact H |].
    destruct (SystemAllocator.TrackDeallocation a _ _)
      as [[a1 hs1] |] eqn:Ht; [| discriminate].
    injection Hs as <-; simpl.
    apply TrackDeallocation_tags in Ht as (h' & _ & ->).
    destruct (_ <? _)%nat; [| exact H].
    apply Forall_alter; [exact H |].
    intros x _ Hx. apply on_deallocation_consistent, Hx.
  - injection Hs as <-.
    apply (Forall_replicate stats_consistent MemoryTag.COUNT zero_stats),
      zero_stats_consistent.
  - injection Hs as <-; exact H.
  - injection Hs as <-; exact H.
Qed.

(** X21. Each tag's statistics satisfy
    [currentUsage == totalAllocated - totalFreed] (on [size_t]) after
    every sequence of calls on a new system allocator, and so does what
    [GetTagStats] returns for any tag, in range or not. *)
Theorem system_tag_stats_consistent (dbg : bool)
    (heap : SystemAllocator.Heap) (cs : list SystemAllocator.call)
    (a : SystemAllocator.t) (heap' : SystemAllocator.Heap)
    (tag : MemoryTag.t) :
  SystemAllocator.run dbg (SystemAllocator.new dbg, heap) cs
    = Some (a, heap') ->
  Forall stats_consistent (SystemAllocator.m_TagStats a)
  /\ stats_consistent (SystemAllocator.GetTagStats a tag).
Proof.
  intros Hr.
  assert (HF : Forall stats_consistent (SystemAllocator.m_TagStats a)).
  { set (s0 := (SystemAllocator.new dbg, heap)) in Hr.
    assert (H0 : Forall stats_consistent (SystemAllocator.m_TagStats s0.1))
      by (apply Forall_replicate, zero_stats_consistent).
    clearbody s0. revert s0 Hr H0.
    induction cs as [| c cs IH]; intros s0 Hr H0; simpl in Hr.
    - injection Hr as ->. exact H0.
    - destruct (SystemAllocator.step dbg s0 c) as [s1 |] eqn:Hs;
        [| discriminate].
      simpl in Hr. apply (IH s1 Hr).
      eapply system_step_tags_consistent; eauto. }
  split; [exact HF |].
  unfold SystemAllocator.GetTagStats, MemoryTag.t in *.
  destruct (_ <? _)%nat; [| apply zero_stats_consistent].
  destruct (SystemAllocator.m_TagStats a !! tag) as [s |] eqn:E; simpl.
  - apply (Forall_lookup_1 _ _ _ _ HF E).
  - apply zero_stats_consistent.
Qed.

(** X22. A tracked allocation that succeeds counts in the global
    statistics and in the statistics of its own tag, and in no other
    entry. In both, [totalAllocated] and [currentUsage] grow by the size
    asked for, [allocationCount] grows by one, [peakUsage] is raised to
    the new usage where that is larger, and [totalFreed] and [freeCount]
    stay. What [GetTagStats] returns for any other tag is as before, and
    a tag of index [COUNT] or more changes no entry at all. *)
Theorem system_allocate_touches_one_tag (dbg : bool)
    (a : SystemAllocator.t) (heap : SystemAllocator.Heap) (size : Z)
    (tag : MemoryTag.t) (alignment memory ptr : Z)
    (a' : SystemAllocator.t) (heap' : SystemAllocator.Heap)
    (rs : list Report) :
  SystemAllocator.m_TrackingEnabled a = true ->
  SystemAllocator.Allocate dbg a heap size tag alignment memory
    = Some (ptr, a', heap', rs) ->
  ptr <> nullptr ->
  (let g := SystemAllocator.GetStats a in
   let g' := SystemAllocator.GetStats a' in
   totalAllocated g' = to_size_t (totalAllocated g + size)
   /\ currentUsage g' = to_size_t (currentUsage g + size)
   /\ allocationCount g' = to_size_t (allocationCount g + 1)
   /\ peakUsage g' = Z.max (peakUsage g) (currentUsage g')
   /\ totalFreed g' = totalFreed g
   /\ freeCount g' = freeCount g)
  /\ (forall other, other <> tag ->
        SystemAllocator.GetTagStats a' other
        = SystemAllocator.GetTagStats a other)
  /\ ((MemoryTag.COUNT <= tag)%nat ->
      SystemAllocator.m_TagStats a' = SystemAllocator.m_TagStats a)
  /\ ((tag < MemoryTag.COUNT)%nat ->
      forall s, SystemAllocator.m_TagStats a !! tag = Some s ->
        let s' := SystemAllocator.GetTagStats a' tag in
        totalAllocated s' = to_size_t (totalAllocated s + size)
        /\ currentUsage s' = to_size_t (currentUsage s + size)
        /\ allocationCount s' = to_size_t (allocationCount s + 1)
        /\ peakUsage s' = Z.max (peakUsage s) (currentUsage s')
        /\ totalFreed s' = totalFreed s
        /\ freeCount s' = freeCount s).
Proof.
  intros Hen HA Hnn. unfold SystemAllocator.Allocate in HA.
  rewrite Hen in HA.
  destruct (size =? 0); [injection HA as <-; congruence |].
  destruct (memory =? nullptr); [injection HA as <-; congruence |].
  destruct (SystemAllocator.TrackAllocation a _ memory size tag)
    as [[a1 hs1] |] eqn:Ht; [| discriminate].
  injection HA as _ <- _ _.
  pose proof (TrackAllocation_stats _ _ _ _ _ _ _ Ht) as Hst.
  pose proof (TrackAllocation_tags _ _ _ _ _ _ _ Ht) as Htg.
  unfold SystemAllocator.GetTagStats, SystemAllocator.GetStats,
    MemoryTag.t in *.
  split.
  { rewrite Hst. simpl. repeat split.
    destruct (Z.gtb_spec
                (to_size_t (currentUsage (SystemAllocator.m_Stats a) + size))
                (peakUsage (SystemAllocator.m_Stats a))); lia. }
  rewrite Htg. split; [| split].
  - intros other Hne. destruct (tag <? MemoryTag.COUNT)%nat; [| reflexivity].
    rewrite list_lookup_alter_ne by congruence. reflexivity.
  - intros H. rewrite (proj2 (Nat.ltb_ge _ _)) by exact H. reflexivity.
  - intros H s Hs. rewrite (proj2 (Nat.ltb_lt _ _)) by exact H.
    rewrite list_lookup_alter_eq, Hs. simpl. repeat split.
    destruct (Z.gtb_spec (to_size_t (currentUsage s + size)) (peakUsage s));
      lia.
Qed.

(** ** SystemAllocator: tracking off *)

Lemma system_untracked_step a heap c :
  SystemAllocator.m_TrackingEnabled a = false ->
  (forall e, c = SystemAllocator.CallSetTrackingEnabled e -> e = false) ->
  a = SystemAllocator.new false ->
  exists heap',
    SystemAllocator.step false (a, heap) c = Some (a, heap').
Proof.
  intros Hen Hc ->.
  destruct c as [size tag alignment memory | ptr | | enabled | addr h];
    simpl.
  - unfold SystemAllocator.Allocate. simpl.
    destruct (size =? 0); [eauto |]. destruct (memory =? nullptr); eauto.
  - unfold SystemAllocator.Free. simpl. destruct (ptr =? nullptr); eauto.
  - eauto.
  - rewrite (Hc enabled eq_refl). eauto.
  - eauto.
Qed.

(** X23. In a release build the allocator starts with tracking off, and
    as long as nobody switches it on every call has a result and leaves
    the allocator as the constructor made it: the statistics, global and
    per tag, stay zero whatever is allocated and freed. *)
Theorem system_release_statistics_stay_zero
    (heap : SystemAllocator.Heap) (cs : list SystemAllocator.call) :
  Forall (fun c => forall e,
            c = SystemAllocator.CallSetTrackingEnabled e -> e = false) cs ->
  exists heap',
    SystemAllocator.run false (SystemAllocator.new false, heap) cs
      = Some (SystemAllocator.new false, heap')
    /\ SystemAllocator.GetStats (SystemAllocator.new false) = zero_stats
    /\ forall tag,
         SystemAllocator.GetTagStats (SystemAllocator.new false) tag
         = zero_stats.
Proof.
  intros Hcs.
  assert (Hrun : exists heap',
            SystemAllocator.run false (SystemAllocator.new false, heap) cs
            = Some (SystemAllocator.new false, heap')).
  { revert heap. induction Hcs as [| c cs Hc _ IH]; intros heap.
    - exists heap. reflexivity.
    - destruct (system_untracked_step (SystemAllocator.new false) heap c
                  eq_refl Hc eq_refl) as [heap1 Hs].
      simpl. rewrite Hs. simpl. apply IH. }
  destruct Hrun as [heap' Hrun]. exists heap'.
  split; [exact Hrun |]. split; [reflexivity |].
  intros tag. unfold SystemAllocator.GetTagStats.
  destruct (tag <? MemoryTag.COUNT)%nat eqn:E; [| reflexivity].
  apply Nat.ltb_lt in E. unfold MemoryTag.t in *.
  change (SystemAllocator.m_TagStats (SystemAllocator.new false))
    with (replicate MemoryTag.COUNT zero_stats).
  rewrite lookup_replicate_2 by exact E. reflexivity.
Qed.

(** ** The process-wide allocator *)

(** X24. [Initialize] builds the allocator only when there is none: on
    an existing allocator it changes nothing, so it is idempotent. The
    forwarding functions build it themselves when needed: each gives
    the same result whether or not [Initialize] was called before, and
    after any of them the allocator exists. *)
Theorem memory_lazy_initialization (dbg : bool) (st : Memory.State) :
  Memory.Initialize dbg (Memory.Initialize dbg st)
    = Memory.Initialize dbg st
  /\ (forall a, Memory.g_SystemAllocator st = Some a ->
        Memory.Initialize dbg st = st)
  /\ (Memory.g_SystemAllocator st = None ->
      Memory.g_SystemAllocator (Memory.Initialize dbg st)
      = Some (SystemAllocator.new dbg))
  /\ (forall size alignment memory,
        Memory.Allocate dbg st size alignment memory
        = Memory.Allocate dbg (Memory.Initialize dbg st) size alignment
            memory)
  /\ (forall size tag alignment memory,
        Memory.AllocateTagged dbg st size tag alignment memory
        = Memory.AllocateTagged dbg (Memory.Initialize dbg st) size tag
            alignment memory)
  /\ (forall ptr,
        Memory.Free dbg st ptr
        = Memory.Free dbg (Memory.Initialize dbg st) ptr)
  /\ Memory.GetStats dbg st
     = Memory.GetStats dbg (Memory.Initialize dbg st)
  /\ Memory.g_SystemAllocator (Memory.GetStats dbg st).2 <> None.
Proof.
  unfold Memory.Allocate, Memory.AllocateTagged, Memory.Free,
    Memory.GetStats, Memory.GetSystemAllocator, Memory.Initialize.
  destruct st as [[a |] heap]; simpl; repeat split; try congruence;
    intros; congruence.
Qed.

(** X25. [Shutdown] drops the allocator and touches nothing on the
    heap: blocks still held stay held. The next forwarding call builds a
    new allocator, so the statistics read after a shutdown are zero
    whatever they were before. On no allocator it does nothing. *)
Theorem memory_shutdown_forgets (dbg : bool) (fuel : nat)
    (st st' : Memory.State)
    (r : option SystemAllocator.LeakReport) (rs : list Report) :
  Memory.Shutdown dbg fuel st = Some (st', r, rs) ->
  Memory.g_SystemAllocator st' = None
  /\ Memory.g_heap st' = Memory.g_heap st
  /\ (Memory.GetStats dbg st').1 = zero_stats
  /\ (Memory.g_SystemAllocator st = None -> st' = st /\ r = None /\ rs = []).
Proof.
  unfold Memory.Shutdown. destruct st as [[a |] heap]; simpl.
  - destruct (SystemAllocator.destroy dbg fuel a _) as [d |];
      [| discriminate].
    simpl. intros [= <- _ _]. repeat split; intros; discriminate.
  - intros [= <- <- <-]. repeat split.
Qed.

(** X26. Shutting down a tracking allocator used as intended: with
    nothing live the destructor prints nothing and raises nothing; with
    blocks live (and the counts not wrapped) it prints the leak report
    listing exactly those blocks, oldest first, and in a debug build
    raises the leak assertion. *)
Theorem memory_shutdown_reports_leaks (dbg : bool) (fuel : nat)
    (a : SystemAllocator.t) (heap : SystemAllocator.Heap)
    (live : list SystemAllocator.live_block) :
  SystemAllocator.tracked dbg a heap live ->
  freeCount (SystemAllocator.m_Stats a) + Z.of_nat (length live)
    < size_t_modulus ->
  (length live <= fuel)%nat ->
  let st := Memory.with_allocator a heap in
  let st' := {| Memory.g_SystemAllocator := None; Memory.g_heap := heap |} in
  (live = [] -> Memory.Shutdown dbg fuel st = Some (st', None, []))
  /\ (live <> [] ->
      exists r,
        Memory.Shutdown dbg fuel st
        = Some (st', Some r,
                EDGE_ASSERT dbg false
                  "m_Stats.allocationCount == m_Stats.freeCount"
                  "Memory leak detected!")
        /\ SystemAllocator.h_size <$> SystemAllocator.leaks r
           = SystemAllocator.lb_size <$> live
        /\ SystemAllocator.h_tag <$> SystemAllocator.leaks r
           = SystemAllocator.lb_tag <$> live).
Proof.
  intros Hr Hfit Hfuel st st'. subst st st'.
  destruct (tracked_invariant dbg a heap live Hr)
    as [Hen Hf Hl _ Hlk _ _ Hfr Hcnt Huse].
  rewrite to_size_t_small in Hcnt by (unfold is_size_t in *; lia).
  unfold Memory.Shutdown, SystemAllocator.destroy,
    SystemAllocator.ReportLeaks. simpl. rewrite Hen. simpl. split.
  - intros ->. simpl in Hcnt. rewrite Z.add_0_r in Hcnt.
    rewrite Hcnt, Z.gtb_ltb, Z.ltb_irrefl, Z.eqb_refl.
    destruct dbg; reflexivity.
  - intros Hne.
    assert (Hpos : 0 < Z.of_nat (length live))
      by (destruct live; [congruence | simpl; lia]).
    rewrite (proj2 (Z.gtb_gt _ _)) by lia.
    rewrite (proj2 (Z.eqb_neq _ _)) by lia.
    destruct (walk_linked (SystemAllocator.headers heap) live nullptr fuel
                Hlk Hfuel) as (hl & Hw & Hs & Ht & _).
    rewrite Hf, Hw. simpl. eexists. split; [reflexivity |].
    split; [exact Hs | exact Ht].
Qed.

(** X27. [Memory::New] followed by [Memory::Delete] of the pointer it
    returned, on a tracking allocator used as intended and a fresh
    block: both succeed, the live blocks, the blocks held from the
    platform and the current usage are as before, and the allocation
    count and the free count have each grown by one, so that their
    difference is unchanged. [Delete] of null does nothing, not even
    build the allocator. *)
Theorem memory_new_then_delete (dbg : bool) (a : SystemAllocator.t)
    (heap : SystemAllocator.Heap) (live : list SystemAllocator.live_block)
    (sizeof_T alignof_T memory : Z) :
  SystemAllocator.tracked dbg a heap live ->
  sizeof_T <> 0 -> memory <> nullptr ->
  memory + SystemAllocator.sizeof_AllocationHeader <> nullptr ->
  memory ∉ SystemAllocator.blocks heap ->
  (exists st1 rs a2 heap2,
     Memory.New dbg (Memory.with_allocator a heap) sizeof_T alignof_T memory
       = Some (memory + SystemAllocator.sizeof_AllocationHeader, st1, rs)
     /\ Memory.Delete dbg st1
          (memory + SystemAllocator.sizeof_AllocationHeader)
        = Some (Memory.with_allocator a2 heap2, [])
     /\ SystemAllocator.tracked dbg a2 heap2 live
     /\ SystemAllocator.blocks heap2 = SystemAllocator.blocks heap
     /\ currentUsage (SystemAllocator.m_Stats a2)
        = currentUsage (SystemAllocator.m_Stats a)
     /\ allocationCount (SystemAllocator.m_Stats a2)
        = to_size_t (allocationCount (SystemAllocator.m_Stats a) + 1)
     /\ freeCount (SystemAllocator.m_Stats a2)
        = to_size_t (freeCount (SystemAllocator.m_Stats a) + 1))
  /\ (forall st, Memory.Delete dbg st nullptr = Some (st, [])).
Proof.
  intros Hr Hs Hm Hp Hfresh. split; [| reflexivity].
  destruct (tracked_Allocate dbg a heap live sizeof_T MemoryTag.NoTag
              alignof_T memory Hr Hs Hm Hp Hfresh)
    as (a1 & heap1 & rs & HA & Hst1 & Hbl1 & Hr1).
  set (b := {| SystemAllocator.lb_memory := memory;
               SystemAllocator.lb_size := sizeof_T;
               SystemAllocator.lb_tag := MemoryTag.NoTag;
               SystemAllocator.lb_alignment := alignof_T |}) in *.
  destruct (tracked_Free dbg a1 heap1 live b [] Hr1)
    as (a2 & heap2 & HF & Hst2 & Hbl2 & _ & Hr2).
  rewrite app_nil_r in Hr2. simpl in HF.
  pose proof (tracked_invariant _ _ _ _ Hr) as I0.
  pose proof (tracked_invariant _ _ _ _ Hr2) as I2.
  exists (Memory.with_allocator a1 heap1), rs, a2, heap2.
  split.
  { unfold Memory.New, Memory.Allocate, SystemAllocator.Allocate_untagged.
    simpl. rewrite HA. reflexivity. }
  split.
  { unfold Memory.Delete, Memory.Free.
    rewrite (proj2 (Z.eqb_neq _ _)) by exact Hp.
    simpl. rewrite HF. reflexivity. }
  split; [exact Hr2 |]. split.
  { rewrite Hbl2, Hbl1. simpl. apply set_eq. intros x.
    rewrite elem_of_difference, elem_of_union, elem_of_singleton.
    split; [tauto |]. intros Hx. split; [right; exact Hx |].
    intros ->. exact (Hfresh Hx). }
  split;
    [rewrite (SystemAllocator.ti_usage _ _ _ I2),
       (SystemAllocator.ti_usage _ _ _ I0); reflexivity |].
  rewrite Hst2, Hst1. simpl. split; reflexivity.
Qed.

(** ** The further properties at concrete inputs *)

Lemma power_of_two_16 : power_of_two 16.
Proof. exists 4. split; [lia | reflexivity]. Qed.

Lemma AlignUp_least_multiple_witness :
  power_of_two 16 /\ 0 <= 30 /\ 30 + (16 - 1) < size_t_modulus
  /\ 30 <= AlignUp 30 16 < 30 + 16.
Proof.
  assert (H1 : 0 <= 30) by lia.
  assert (H2 : 30 + (16 - 1) < size_t_modulus) by reflexivity.
  split; [apply power_of_two_16 |]. split; [exact H1 |].
  split; [exact H2 |].
  exact (proj1 (AlignUp_least_multiple 30 16 power_of_two_16 H1 H2)).
Defined.

Lemma AlignUp_idempotent_witness :
  power_of_two 16 /\ AlignUp (AlignUp 30 16) 16 = AlignUp 30 16.
Proof.
  split; [apply power_of_two_16 |].
  exact (proj1 (AlignUp_idempotent 30 16 power_of_two_16)).
Defined.

Lemma AlignUp_wraps_to_zero_witness :
  power_of_two 16
  /\ size_t_modulus - 16 < size_t_modulus - 1 < size_t_modulus
  /\ AlignUp (size_t_modulus - 1) 16 = 0.
Proof.
  assert (H : size_t_modulus - 16 < size_t_modulus - 1 < size_t_modulus)
    by (split; reflexivity).
  split; [apply power_of_two_16 |]. split; [exact H |].
  exact (AlignUp_wraps_to_zero (size_t_modulus - 1) 16 power_of_two_16 H).
Defined.

Lemma linear_offset_within_size_witness :
  0 <= 100
  /\ 0 <= LinearAllocator.m_Offset
            (LinearAllocator.run true (LinearAllocator.new true 100 4096).1
               [LinearAllocator.CallAllocate 60 MemoryTag.NoTag 16;
                LinearAllocator.CallAllocate 50 MemoryTag.NoTag 16;
                LinearAllocator.CallAllocate 30 MemoryTag.NoTag 8])
       <= 100.
Proof.
  assert (H : 0 <= 100) by lia. split; [exact H |].
  exact (proj2 (proj2 (linear_offset_within_size true 100 4096
           [LinearAllocator.CallAllocate 60 MemoryTag.NoTag 16;
            LinearAllocator.CallAllocate 50 MemoryTag.NoTag 16;
            LinearAllocator.CallAllocate 30 MemoryTag.NoTag 8] H))).
Defined.

Lemma linear_allocation_in_buffer_witness :
  let a := {| LinearAllocator.m_Buffer := 4096; LinearAllocator.m_Size := 100;
              LinearAllocator.m_Offset := 60;
              LinearAllocator.m_Stats := on_allocation zero_stats 60 |} in
  exists a',
    LinearAllocator.Allocate false a 30 MemoryTag.NoTag 8 = (4160, a', [])
    /\ 4096 + 60 <= 4160 /\ 4160 + 30 <= 4096 + 100.
Proof.
  intros a. eexists.
  assert (HA : LinearAllocator.Allocate false a 30 MemoryTag.NoTag 8
               = (4160,
                  {| LinearAllocator.m_Buffer := 4096;
                     LinearAllocator.m_Size := 100;
                     LinearAllocator.m_Offset := 94;
                     LinearAllocator.m_Stats :=
                       on_allocation (on_allocation zero_stats 60) 30 |},
                  [])) by (vm_compute; reflexivity).
  split; [exact HA |].
  assert (Hp : power_of_two 8) by (exists 3; split; [lia | reflexivity]).
  pose proof (linear_allocation_in_buffer false a 30 MemoryTag.NoTag 8 4160
                _ [] Hp ltac:(simpl; lia) ltac:(lia)
                ltac:(vm_compute; discriminate) HA
                ltac:(discriminate)) as (H1 & _ & H3 & _).
  split; [exact H1 | exact H3].
Defined.

Lemma linear_allocate_after_reset_witness :
  let a := {| LinearAllocator.m_Buffer := 4096; LinearAllocator.m_Size := 100;
              LinearAllocator.m_Offset := 94;
              LinearAllocator.m_Stats := on_allocation zero_stats 94 |} in
  power_of_two 16 /\ 0 < 100 <= LinearAllocator.m_Size a
  /\ (LinearAllocator.Allocate true (LinearAllocator.Reset a) 100
        MemoryTag.Temp 16).1.1 = 4096 + 0.
Proof.
  intros a.
  assert (H1 : 0 < 100 <= LinearAllocator.m_Size a) by (simpl; lia).
  assert (H2 : LinearAllocator.m_Size a < size_t_modulus) by reflexivity.
  split; [apply power_of_two_16 |]. split; [exact H1 |].
  rewrite (linear_allocate_after_reset true a 100 MemoryTag.Temp 16
             power_of_two_16 H1 H2).
  reflexivity.
Defined.

Lemma linear_allocate_alignment_zero_witness :
  let a := {| LinearAllocator.m_Buffer := 4096; LinearAllocator.m_Size := 100;
              LinearAllocator.m_Offset := 60;
              LinearAllocator.m_Stats := on_allocation zero_stats 60 |} in
  0 < 40 <= LinearAllocator.m_Size a
  /\ (LinearAllocator.Allocate false a 40 MemoryTag.NoTag 0).1.1 = 4096 + 0.
Proof.
  intros a.
  assert (H1 : 0 < 40 <= LinearAllocator.m_Size a) by (simpl; lia).
  assert (H2 : LinearAllocator.m_Size a < size_t_modulus) by reflexivity.
  split; [exact H1 |].
  rewrite (proj2 (linear_allocate_alignment_zero false a 40 MemoryTag.NoTag
                    H1 H2)).
  reflexivity.
Defined.

Lemma peak_usage_never_decreases_witness :
  let s := (PoolAllocator.new false 32 4 16 4096 ∅).1 in
  exists s',
    PoolAllocator.step false s (PoolAllocator.CallAllocate 8 MemoryTag.AI 16)
      = Some s'
    /\ peakUsage (PoolAllocator.m_Stats s.1)
       <= peakUsage (PoolAllocator.m_Stats s'.1).
Proof.
  intros s. eexists.
  assert (Hs : PoolAllocator.step false s
                 (PoolAllocator.CallAllocate 8 MemoryTag.AI 16)
               = Some ({| PoolAllocator.m_Buffer := 4096;
                          PoolAllocator.m_FreeList := 4128;
                          PoolAllocator.m_ElementSize := 32;
                          PoolAllocator.m_ElementCount := 4;
                          PoolAllocator.m_AlignedElementSize := 32;
                          PoolAllocator.m_FreeCount := 3;
                          PoolAllocator.m_Stats := on_allocation zero_stats 32 |},
                       s.2)) by (vm_compute; reflexivity).
  split; [exact Hs |].
  exact (proj1 (proj2 (peak_usage_never_decreases false)) s _ _ Hs).
Defined.

Lemma assertions_by_build_witness :
  exists r,
    PoolAllocator.Allocate false (PoolAllocator.new false 32 4 16 4096 ∅).1.1
      (PoolAllocator.new false 32 4 16 4096 ∅).1.2 64 MemoryTag.NoTag 16
    = Some r
    /\ r.2 = [].
Proof.
  eexists. split; [vm_compute; reflexivity |].
  eapply (proj1 (proj2 assertions_by_build)
            (PoolAllocator.new false 32 4 16 4096 ∅).1.1
            (PoolAllocator.new false 32 4 16 4096 ∅).1.2 64 MemoryTag.NoTag 16).
  vm_compute; reflexivity.
Defined.

Lemma example_pool_reachable :
  let r := PoolAllocator.new false 32 4 16 4096 ∅ in
  exists a,
    PoolAllocator.Allocate false r.1.1 r.1.2 8 MemoryTag.NoTag 64
      = Some (4096, a, [])
    /\ PoolAllocator.reachable false r.1.1 r.1.2 a r.1.2 [4096].
Proof.
  intros r. eexists. split; [vm_compute; reflexivity |].
  eapply (PoolAllocator.reach_alloc false r.1.1 r.1.2 r.1.1 r.1.2 []
            8 MemoryTag.NoTag 64 4096 _ []);
    [apply PoolAllocator.reach_init | vm_compute; reflexivity | discriminate].
Qed.

Lemma pool_free_list_bookkeeping_witness :
  let r := PoolAllocator.new false 32 4 16 4096 ∅ in
  exists a,
    PoolAllocator.Allocate false r.1.1 r.1.2 8 MemoryTag.NoTag 64
      = Some (4096, a, [])
    /\ PoolAllocator.m_FreeCount a = 4 - Z.of_nat (length [4096]).
Proof.
  intros r. destruct example_pool_reachable as (a & HA & Hr).
  exists a. split; [exact HA |].
  destruct (pool_free_list_bookkeeping false 32 4 16 4096 ∅ a r.1.2 [4096]
              (example_pool_well_formed false) Hr)
    as (free & _ & _ & _ & _ & H).
  exact H.
Defined.

Lemma pool_current_usage_witness :
  let r := PoolAllocator.new false 32 4 16 4096 ∅ in
  exists a,
    PoolAllocator.Allocate false r.1.1 r.1.2 8 MemoryTag.NoTag 64
      = Some (4096, a, [])
    /\ currentUsage (PoolAllocator.GetStats a)
       = to_size_t (32 * Z.of_nat (length [4096])).
Proof.
  intros r. destruct example_pool_reachable as (a & HA & Hr).
  exists a. split; [exact HA |].
  exact (pool_current_usage false 32 4 16 4096 ∅ a r.1.2 [4096]
           (example_pool_well_formed false) Hr).
Defined.

Lemma pool_allocate_then_free_witness :
  let r := PoolAllocator.new false 32 4 16 4096 ∅ in
  r.1.2 !! PoolAllocator.m_FreeList r.1.1 = Some 4128
  /\ exists a',
       PoolAllocator.Allocate false r.1.1 r.1.2 8 MemoryTag.NoTag 16
         = Some (PoolAllocator.m_FreeList r.1.1, a', [])
       /\ (PoolAllocator.Free false a' r.1.2
             (PoolAllocator.m_FreeList r.1.1)).1.2 = r.1.2.
Proof.
  intros r.
  assert (Hn : r.1.2 !! PoolAllocator.m_FreeList r.1.1 = Some 4128)
    by (vm_compute; reflexivity).
  split; [exact Hn |].
  destruct (pool_allocate_then_free false r.1.1 r.1.2 8 MemoryTag.NoTag 16
              4128)
    as (a' & HA & _ & Hm & _); try exact Hn.
  - vm_compute; discriminate.
  - discriminate.
  - vm_compute. split; [discriminate | reflexivity].
  - vm_compute. split; [discriminate | reflexivity].
  - vm_compute. split; [discriminate | reflexivity].
  - exists a'. split; [exact HA | exact Hm].
Defined.

Lemma pool_double_free_witness :
  let r := PoolAllocator.new false 32 4 16 4096 ∅ in
  let f1 := PoolAllocator.Free false r.1.1 r.1.2 4160 in
  let f2 := PoolAllocator.Free false f1.1.1 f1.1.2 4160 in
  f2.1.2 !! 4160 = Some 4160.
Proof.
  intros r f1 f2.
  apply (pool_double_free false r.1.1 r.1.2 4160 32 32 MemoryTag.NoTag
           MemoryTag.NoTag 16 16).
  - discriminate.
  - vm_compute. split; [discriminate | reflexivity].
  - vm_compute; discriminate.
  - vm_compute; discriminate.
Defined.

Lemma pool_free_rejected_witness :
  let r := PoolAllocator.new true 32 4 16 4096 ∅ in
  5000 <> nullptr
  /\ PoolAllocator.Free true r.1.1 r.1.2 5000
     = (r.1.1, r.1.2,
        EDGE_ASSERT true false "false" "Pointer does not belong to this pool").
Proof.
  intros r. assert (H : 5000 <> nullptr) by discriminate.
  split; [exact H |].
  apply (proj2 (pool_free_rejected true r.1.1 r.1.2 5000) H).
  right. vm_compute; discriminate.
Defined.

Lemma pool_allocation_in_buffer_witness :
  let r := PoolAllocator.new false 32 4 16 4096 ∅ in
  exists a',
    PoolAllocator.Allocate false r.1.1 r.1.2 8 MemoryTag.NoTag 64
      = Some (4096, a', [])
    /\ 4096 <= 4096 /\ 4096 + 8 <= 4096 + 32.
Proof.
  intros r. destruct example_pool_reachable as (a & HA & _).
  exists a. split; [exact HA |].
  destruct (pool_allocation_in_buffer false 32 4 16 4096 ∅ r.1.1 r.1.2 []
              8 MemoryTag.NoTag 64 4096 a []
              (example_pool_well_formed false) power_of_two_16
              ltac:(lia) ltac:(reflexivity)
              (PoolAllocator.reach_init false r.1.1 r.1.2) HA
              ltac:(discriminate))
    as (H1 & H2 & _).
  split; [exact H1 | exact H2].
Defined.

Lemma example_tracked :
  let b := {| SystemAllocator.lb_memory := 1024;
              SystemAllocator.lb_size := 10;
              SystemAllocator.lb_tag := MemoryTag.Physics;
              SystemAllocator.lb_alignment := 16 |} in
  exists a heap,
    SystemAllocator.Allocate true
      (SystemAllocator.SetTrackingEnabled true (SystemAllocator.new true)
         true).1
      {| SystemAllocator.blocks := ∅; SystemAllocator.headers := ∅ |}
      10 MemoryTag.Physics 16 1024
    = Some (1024 + SystemAllocator.sizeof_AllocationHeader, a, heap, [])
    /\ SystemAllocator.tracked true a heap [b]
    /\ SystemAllocator.m_Stats a = on_allocation zero_stats 10
    /\ SystemAllocator.blocks heap = {[1024]} ∪ ∅.
Proof.
  intros b.
  destruct (tracked_Allocate true _ _ [] 10 MemoryTag.Physics 16 1024
              (SystemAllocator.tracked_new true
                 {| SystemAllocator.blocks := ∅;
                    SystemAllocator.headers := ∅ |}))
    as (a & heap & rs & HA & Hst & Hbl & Hr);
    [discriminate | discriminate | discriminate | apply not_elem_of_empty |].
  exists a, heap.
  assert (Hrs : rs = []).
  { pose proof HA as HA'. vm_compute in HA'.
    injection HA' as _ _ <-. reflexivity. }
  subst rs. repeat split; assumption.
Qed.

Lemma system_tracked_statistics_witness :
  exists a heap,
    SystemAllocator.Allocate true
      (SystemAllocator.SetTrackingEnabled true (SystemAllocator.new true)
         true).1
      {| SystemAllocator.blocks := ∅; SystemAllocator.headers := ∅ |}
      10 MemoryTag.Physics 16 1024
    = Some (1024 + SystemAllocator.sizeof_AllocationHeader, a, heap, [])
    /\ currentUsage (SystemAllocator.GetStats a) = to_size_t (10 + 0)
    /\ SystemAllocator.m_FirstAllocation a = 1024.
Proof.
  destruct example_tracked as (a & heap & HA & Hr & _).
  exists a, heap. split; [exact HA |].
  destruct (system_tracked_statistics true a heap _ Hr)
    as (_ & Hu & Hf & _).
  split; [exact Hu | exact Hf].
Defined.

Lemma system_ReportLeaks_lists_live_blocks_witness :
  exists a heap r,
    SystemAllocator.Allocate true
      (SystemAllocator.SetTrackingEnabled true (SystemAllocator.new true)
         true).1
      {| SystemAllocator.blocks := ∅; SystemAllocator.headers := ∅ |}
      10 MemoryTag.Physics 16 1024
    = Some (1024 + SystemAllocator.sizeof_AllocationHeader, a, heap, [])
    /\ SystemAllocator.ReportLeaks 1 a (SystemAllocator.headers heap)
       = Some (Some r)
    /\ SystemAllocator.h_size <$> SystemAllocator.leaks r = [10].
Proof.
  destruct example_tracked as (a & heap & HA & Hr & _).
  destruct (proj2 (system_ReportLeaks_lists_live_blocks true a heap _ 1 Hr
                     ltac:(vm_compute; reflexivity) ltac:(simpl; lia)))
    as (r & HR & Hs & _); [discriminate |].
  exists a, heap, r. split; [exact HA |]. split; [exact HR | exact Hs].
Defined.



Lemma system_tag_stats_consistent_witness :
  exists a heap',
    SystemAllocator.run true
      (SystemAllocator.new true,
       {| SystemAllocator.blocks := ∅; SystemAllocator.headers := ∅ |})
      [SystemAllocator.CallAllocate 10 MemoryTag.Physics 16 1024;
       SystemAllocator.CallAllocate 20 MemoryTag.Physics 16 2048;
       SystemAllocator.CallFree (1024 + 64)]
    = Some (a, heap')
    /\ stats_consistent (SystemAllocator.GetTagStats a MemoryTag.Physics).
Proof.
  assert (Hr : exists a heap',
            SystemAllocator.run true
              (SystemAllocator.new true,
               {| SystemAllocator.blocks := ∅;
                  SystemAllocator.headers := ∅ |})
              [SystemAllocator.CallAllocate 10 MemoryTag.Physics 16 1024;
               SystemAllocator.CallAllocate 20 MemoryTag.Physics 16 2048;
               SystemAllocator.CallFree (1024 + 64)]
            = Some (a, heap'))
    by (vm_compute; eauto).
  destruct Hr as (a & heap' & Hr). exists a, heap'. split; [exact Hr |].
  exact (proj2 (system_tag_stats_consistent true _ _ a heap'
                  MemoryTag.Physics Hr)).
Defined.

Lemma system_allocate_touches_one_tag_witness :
  exists a heap,
    SystemAllocator.Allocate true (SystemAllocator.new true)
      {| SystemAllocator.blocks := ∅; SystemAllocator.headers := ∅ |}
      10 MemoryTag.Physics 16 1024
    = Some (1088, a, heap, [])
    /\ totalAllocated (SystemAllocator.GetStats a) = to_size_t (0 + 10)
    /\ allocationCount (SystemAllocator.GetStats a) = to_size_t (0 + 1)
    /\ SystemAllocator.GetTagStats a MemoryTag.Net
       = SystemAllocator.GetTagStats (SystemAllocator.new true) MemoryTag.Net
    /\ totalAllocated (SystemAllocator.GetTagStats a MemoryTag.Physics)
       = to_size_t (0 + 10).
Proof.
  assert (HA : exists a heap,
            SystemAllocator.Allocate true (SystemAllocator.new true)
              {| SystemAllocator.blocks := ∅; SystemAllocator.headers := ∅ |}
              10 MemoryTag.Physics 16 1024
            = Some (1088, a, heap, []))
    by (vm_compute; eauto).
  destruct HA as (a & heap & HA). exists a, heap. split; [exact HA |].
  destruct (system_allocate_touches_one_tag true
              (SystemAllocator.new true)
              {| SystemAllocator.blocks := ∅;
                 SystemAllocator.headers := ∅ |}
              10 MemoryTag.Physics 16 1024 1088
              a heap [] eq_refl HA ltac:(discriminate))
    as ((Htotal & _ & Hcount & _) & Hother & _ & Htag).
  split; [exact Htotal |]. split; [exact Hcount |].
  split; [apply Hother; discriminate |].
  exact (proj1 (Htag ltac:(vm_compute; lia) zero_stats eq_refl)).
Defined.

Lemma system_release_statistics_stay_zero_witness :
  exists heap',
    SystemAllocator.run false
      (SystemAllocator.new false,
       {| SystemAllocator.blocks := ∅; SystemAllocator.headers := ∅ |})
      [SystemAllocator.CallAllocate 10 MemoryTag.Physics 16 1024;
       SystemAllocator.CallFree 1024]
    = Some (SystemAllocator.new false, heap').
Proof.
  destruct (system_release_statistics_stay_zero
              {| SystemAllocator.blocks := ∅; SystemAllocator.headers := ∅ |}
              [SystemAllocator.CallAllocate 10 MemoryTag.Physics 16 1024;
               SystemAllocator.CallFree 1024])
    as (heap' & H & _).
  - repeat constructor; intros e He; discriminate.
  - exists heap'. exact H.
Defined.

Lemma memory_lazy_initialization_witness :
  let st := {| Memory.g_SystemAllocator := Some (SystemAllocator.new true);
               Memory.g_heap :=
                 {| SystemAllocator.blocks := ∅;
                    SystemAllocator.headers := ∅ |} |} in
  Memory.g_SystemAllocator st = Some (SystemAllocator.new true)
  /\ Memory.Initialize true st = st.
Proof.
  intros st.
  assert (H : Memory.g_SystemAllocator st = Some (SystemAllocator.new true))
    by reflexivity.
  split; [exact H |].
  exact (proj1 (proj2 (memory_lazy_initialization true st)) _ H).
Defined.

Lemma memory_shutdown_forgets_witness :
  let st := {| Memory.g_SystemAllocator := Some (SystemAllocator.new true);
               Memory.g_heap :=
                 {| SystemAllocator.blocks := {[1024]};
                    SystemAllocator.headers := ∅ |} |} in
  exists st',
    Memory.Shutdown true 0 st = Some (st', None, [])
    /\ Memory.g_heap st' = Memory.g_heap st
    /\ (Memory.GetStats true st').1 = zero_stats.
Proof.
  intros st.
  assert (H : Memory.Shutdown true 0 st
              = Some ({| Memory.g_SystemAllocator := None;
                         Memory.g_heap := Memory.g_heap st |}, None, []))
    by reflexivity.
  eexists. split; [exact H |].
  destruct (memory_shutdown_forgets true 0 st _ None [] H)
    as (_ & H2 & H3 & _).
  split; [exact H2 | exact H3].
Defined.

Lemma memory_shutdown_reports_leaks_witness :
  exists a heap r,
    SystemAllocator.Allocate true
      (SystemAllocator.SetTrackingEnabled true (SystemAllocator.new true)
         true).1
      {| SystemAllocator.blocks := ∅; SystemAllocator.headers := ∅ |}
      10 MemoryTag.Physics 16 1024
    = Some (1024 + SystemAllocator.sizeof_AllocationHeader, a, heap, [])
    /\ Memory.Shutdown true 1 (Memory.with_allocator a heap)
       = Some ({| Memory.g_SystemAllocator := None; Memory.g_heap := heap |},
               Some r,
               EDGE_ASSERT true false
                 "m_Stats.allocationCount == m_Stats.freeCount"
                 "Memory leak detected!")
    /\ SystemAllocator.h_size <$> SystemAllocator.leaks r = [10].
Proof.
  destruct example_tracked as (a & heap & HA & Hr & Hst & _).
  destruct (proj2 (memory_shutdown_reports_leaks true 1 a heap _ Hr
                     ltac:(rewrite Hst; vm_compute; reflexivity)
                     ltac:(simpl; lia)))
    as (r & HS & Hs & _); [discriminate |].
  exists a, heap, r. split; [exact HA |]. split; [exact HS | exact Hs].
Defined.

Lemma memory_new_then_delete_witness :
  let a := (SystemAllocator.SetTrackingEnabled true (SystemAllocator.new true)
              true).1 in
  let heap := {| SystemAllocator.blocks := ∅;
                 SystemAllocator.headers := ∅ |} in
  exists st1 rs a2 heap2,
    Memory.New true (Memory.with_allocator a heap) 24 8 1024
      = Some (1024 + SystemAllocator.sizeof_AllocationHeader, st1, rs)
    /\ Memory.Delete true st1 (1024 + SystemAllocator.sizeof_AllocationHeader)
       = Some (Memory.with_allocator a2 heap2, [])
    /\ SystemAllocator.blocks heap2 = SystemAllocator.blocks heap
    /\ allocationCount (SystemAllocator.m_Stats a2)
       = to_size_t (allocationCount (SystemAllocator.m_Stats a) + 1)
    /\ freeCount (SystemAllocator.m_Stats a2)
       = to_size_t (freeCount (SystemAllocator.m_Stats a) + 1).
Proof.
  intros a heap.
  destruct (proj1 (memory_new_then_delete true a heap [] 24 8 1024
                     (SystemAllocator.tracked_new true heap)
                     ltac:(discriminate) ltac:(discriminate)
                     ltac:(discriminate) ltac:(apply not_elem_of_empty)))
    as (st1 & rs & a2 & heap2 & HN & HD & _ & Hb & _ & Hac & Hfc).
  exists st1, rs, a2, heap2. repeat split; assumption.
Defined.
